(** * Cox partial-likelihood deviance with tied event times

    A shallow embedding of [glmnet/coxdev.py]: the dataclass
    [right_censored] ([__post_init__] builds the sorted, tie-aware tables,
    [__call__] evaluates deviance, gradient and diagonal Hessian for one
    linear predictor) and the helper [_fid].

    Conventions of the embedding.
    - An event time is a float that is only ever compared: it is an
      extended rational [ftime] (canonical rationals and the two
      infinities).  NaN is outside the model.
    - [status] is an integer column ([Z]); the [sample_weight] column of
      [self.data] is the integer column that line 30 creates ([Z]).  The
      running sum of line 56 is the exact one ([cumsumZ]); numpy computes it
      in 64-bit integers ([cumsum64]), and the two agree as long as the
      absolute statuses add up to less than 2^63 (lemma
      [risk_count_int64]), which 0/1 statuses always do for an array that
      fits in memory.
    - The linear predictor and everything derived from it are real numbers
      ([R]) with the exact [exp] and [ln]; [ln] and division are the total
      functions of the Reals library (with positive weights every risk
      denominator is positive, lemma [risk_den_pos]).
    - A pandas column or numpy array is a [list]; a boolean-mask selection
      [a[mask]] is [mask_select]; an integer fancy index is [take] /
      [np_take]; an indexed assignment is [set_items] / [set_const].
    - Python exceptions are the constructors of [exn]; a fallible
      computation has type [result A = exn + A]. *)

From Stdlib Require Import List ZArith QArith Qcanon Reals Lra Lia Bool Arith.
From Stdlib Require Import Permutation Sorted.
Import ListNotations.

Set Implicit Arguments.

(** ** Exceptions and the error monad *)

Inductive exn : Type :=
| ValueError | KeyError | IndexError | TypeError | UnboundLocalError.

Definition result (A : Type) : Type := (exn + A)%type.

Definition ret {A} (a : A) : result A := inr a.

Definition bind {A B} (m : result A) (k : A -> result B) : result B :=
  match m with
  | inl e => inl e
  | inr a => k a
  end.

Notation "x <- m ;; k" := (bind m (fun x => k))
  (at level 61, m at next level, right associativity).

(** A Python local variable: never assigned, assigned [None], or assigned
    a value. *)
Inductive local (A : Type) : Type :=
| Unbound : local A
| PyNone : local A
| Val : A -> local A.
Arguments Unbound {A}.
Arguments PyNone {A}.
Arguments Val {A} _.

(** ** Event times *)

Inductive ftime : Type :=
| NegInf : ftime
| Fin : Qc -> ftime
| PosInf : ftime.

Definition time_leb (a b : ftime) : bool :=
  match a, b with
  | NegInf, _ => true
  | _, PosInf => true
  | Fin x, Fin y => Qle_bool x y
  | _, _ => false
  end.

Definition time_eqb (a b : ftime) : bool := time_leb a b && time_leb b a.

Definition time_ltb (a b : ftime) : bool := negb (time_leb b a).

(** ** Array helpers (numpy / pandas primitives) *)

Section Arrays.
Context {A : Type}.

(** [a[mask]] for a boolean mask. *)
Fixpoint mask_select (mask : list bool) (a : list A) : list A :=
  match mask, a with
  | b :: mask', x :: a' =>
      if b then x :: mask_select mask' a' else mask_select mask' a'
  | _, _ => []
  end.

(** [a[k] = v] for one in-range position (out of range: unchanged; the
    positions used below are always in range). *)
Fixpoint set_nth (k : nat) (v : A) (a : list A) : list A :=
  match a, k with
  | [], _ => []
  | _ :: a', O => v :: a'
  | x :: a', S k' => x :: set_nth k' v a'
  end.

(** [a[ks] = vs], assigned position by position, left to right. *)
Fixpoint set_items (a : list A) (ks : list nat) (vs : list A) : list A :=
  match ks, vs with
  | k :: ks', v :: vs' => set_items (set_nth k v a) ks' vs'
  | _, _ => a
  end.

(** [a[ks] = v] for a scalar [v]. *)
Definition set_const (a : list A) (ks : list nat) (v : A) : list A :=
  fold_left (fun acc k => set_nth k v acc) ks a.

(** [a[ks]] for non-negative positions; IndexError when one is out of
    bounds. *)
Fixpoint take (a : list A) (ks : list nat) : result (list A) :=
  match ks with
  | [] => ret []
  | k :: ks' =>
      match nth_error a k with
      | None => inl IndexError
      | Some x => xs <- take a ks' ;; ret (x :: xs)
      end
  end.

(** [a[k]] for a signed position, with numpy's wrap-around of negative
    positions. *)
Definition np_get (a : list A) (k : Z) : option A :=
  let n := Z.of_nat (length a) in
  if ((0 <=? k) && (k <? n))%Z then nth_error a (Z.to_nat k)
  else if ((- n <=? k) && (k <? 0))%Z then nth_error a (Z.to_nat (k + n))
  else None.

Fixpoint np_take (a : list A) (ks : list Z) : result (list A) :=
  match ks with
  | [] => ret []
  | k :: ks' =>
      match np_get a k with
      | None => inl IndexError
      | Some x => xs <- np_take a ks' ;; ret (x :: xs)
      end
  end.

(** [np.cumsum] over an addition with a starting accumulator. *)
Fixpoint cumsum_from (add : A -> A -> A) (acc : A) (a : list A) : list A :=
  match a with
  | [] => []
  | x :: a' => add acc x :: cumsum_from add (add acc x) a'
  end.

(** Elementwise binary operation on two columns of one length. *)
Fixpoint map2 (f : A -> A -> A) (a b : list A) : list A :=
  match a, b with
  | x :: a', y :: b' => f x y :: map2 f a' b'
  | _, _ => []
  end.

(** Stable insertion sort for a boolean "less or equal". *)
Variable leb : A -> A -> bool.

Fixpoint insert_sorted (x : A) (l : list A) : list A :=
  match l with
  | [] => [x]
  | y :: l' => if leb x y then x :: l else y :: insert_sorted x l'
  end.

Definition stable_sort (l : list A) : list A :=
  fold_right insert_sorted [] l.
End Arrays.

(** [np.nonzero(mask)[0]]: the positions where the mask is true. *)
Definition nonzero (mask : list bool) : list nat :=
  mask_select mask (seq 0 (length mask)).

Definition cumsumZ : list Z -> list Z := cumsum_from Z.add 0%Z.
Definition cumsumR : list R -> list R := cumsum_from Rplus 0%R.

Definition sumZ (a : list Z) : Z := fold_right Z.add 0%Z a.
Definition sumR (a : list R) : R := fold_right Rplus 0%R a.

(** [a.mean()] *)
Definition mean (a : list R) : R := (sumR a / INR (length a))%R.

(** ** The data frame *)

(** One row of [self.data]: the original position (the frame's index,
    which [reset_index] turns into a column) and the three columns. *)
Record Row : Type := mkRow {
  index : nat;
  event_time : ftime;
  status : Z;
  sample_weight : Z
}.

(** A frame with a fresh [RangeIndex] over rows (time, status, weight). *)
Definition with_index (obs : list (ftime * Z * Z)) : list Row :=
  map (fun p => mkRow (fst p) (fst (fst (snd p))) (snd (fst (snd p))) (snd (snd p)))
      (combine (seq 0 (length obs)) obs).

(** [sort_values(by=['event_time','status'], ascending=[True, False])]:
    a stable sort, event time ascending, then status descending. *)
Definition row_leb (a b : Row) : bool :=
  time_ltb (event_time a) (event_time b)
  || (time_eqb (event_time a) (event_time b) && (status b <=? status a)%Z).

Definition sort_values (df : list Row) : list Row := stable_sort row_leb df.

(** ** [_fid] *)

(** The runs of equal values of a sorted list of (value, position): for
    each run its first value, the position that comes with it, and the
    length of the run. *)
Fixpoint runs (l : list (ftime * nat)) : list (ftime * nat * nat) :=
  match l with
  | [] => []
  | (t, i) :: l' =>
      match runs l' with
      | (t', i', c) :: rest =>
          if time_eqb t t' then (t, i, S c) :: rest
          else (t, i, 1%nat) :: (t', i', c) :: rest
      | [] => [(t, i, 1%nat)]
      end
  end.

(** [np.unique(times, return_index=True, return_counts=True)]: a stable
    argsort, then one entry per run. *)
Definition np_unique (times : list ftime) : list (ftime * nat * nat) :=
  runs (stable_sort (fun a b => time_leb (fst a) (fst b))
                    (combine times (seq 0 (length times)))).

Definition _fid (times : list ftime) (index : list nat)
  : list nat * list (ftime * list nat) :=
  let u := np_unique times in
  let indices :=
    flat_map (fun e =>
                let t := fst (fst e) in
                let c := snd e in
                if (1 <? c)%nat
                then [(t, map (fun i => nth i index 0%nat)
                              (nonzero (map (fun x => time_eqb x t) times)))]
                else [])
             u in
  (map (fun e => nth (snd (fst e)) index 0%nat) u, indices).

(** [rows.groupby('event_time').sum()['sample_weight']]: one entry per
    distinct key, keys ascending. *)
Fixpoint uniq_from (prev : ftime) (l : list ftime) : list ftime :=
  match l with
  | [] => []
  | y :: l' => if time_eqb prev y then uniq_from prev l' else y :: uniq_from y l'
  end.

Definition uniq (l : list ftime) : list ftime :=
  match l with
  | [] => []
  | x :: l' => x :: uniq_from x l'
  end.

Definition groupby_sum (rows : list Row) : list (ftime * Z) :=
  map (fun t =>
         (t, sumZ (map sample_weight
                       (filter (fun r => time_eqb (event_time r) t) rows))))
      (uniq (stable_sort time_leb (map event_time rows))).

(** ** [right_censored.__post_init__] *)

Record right_censored : Type := mkRC {
  data : list Row;                (* sorted frame, after reset_index *)
  _derived_weight : list Z;       (* data['_derived_weight'] *)
  _derived_events : list Z;       (* data['_derived_events'] *)
  _risk_count : list Z;           (* data['_risk_count'] *)
  _order : list nat;
  _loglik_sat : R
}.

(** The positions and the ties that [_fid] returns for a sorted frame
    (line 39). *)
Definition events_mask (data : list Row) : list bool :=
  map (fun r => (status r =? 1)%Z) data.

Definition fid_of (data : list Row) : list nat * list (ftime * list nat) :=
  let _events := events_mask data in
  _fid (map event_time (mask_select _events data))
       (mask_select _events (seq 0 (length data))).

(** Line 41. *)
Definition weight_sum_of (data : list Row) : list (ftime * Z) :=
  groupby_sum (mask_select (events_mask data) data).

(** Lines 34-56, for a frame that has its three columns.  The assignment
    [_derived_weight[first_idx] = _weight_sum] is positional and needs as
    many values as positions; the two always agree in number (lemma
    [length_first_idx_weight_sum]). *)
Definition preprocess (df : list Row) : right_censored :=
  let data := sort_values df in
  let first_idx := fst (fid_of data) in
  let ties := snd (fid_of data) in
  let _weight_sum := map snd (weight_sum_of data) in
  let _derived_weight :=
    set_items (map sample_weight data) first_idx _weight_sum in
  let _weight_pos := filter (fun w => (0 <? w)%Z) _weight_sum in
  let _derived_events :=
    set_const
      (fold_left (fun de v => set_const de v 0%Z) (map snd ties)
                 (map status data))
      first_idx 1%Z in
  {| data := data;
     _derived_weight := _derived_weight;
     _derived_events := _derived_events;
     _risk_count := cumsumZ _derived_events;
     _order := map index data;
     _loglik_sat :=
       (- sumR (map (fun w => IZR w * ln (IZR w)) _weight_pos))%R |}.

(** Lines 27-33, then the rest.  [pd.DataFrame] raises ValueError for
    columns of different lengths.  The [sample_weight] column exists only
    when the argument is [None]; with an argument, line 41 selects a
    column that is not there (KeyError). *)
Definition post_init (event_time : list ftime) (status : list Z)
           (sample_weight : option (list Z)) : result right_censored :=
  if negb (length event_time =? length status)%nat then inl ValueError
  else
    match sample_weight with
    | Some _ => inl KeyError
    | None =>
        ret (preprocess
               (with_index
                  (combine (combine event_time status)
                           (repeat 1%Z (length event_time)))))
    end.

(** ** [right_censored.__call__] *)

Record CoxDevianceResult : Type := mkRes {
  deviance : R;
  grad : option (list R);
  diag_hessian : option (list R)
}.

(** [2*x] for a local that should hold an array. *)
Definition twice (x : local (list R)) : result (option (list R)) :=
  match x with
  | Unbound => inl UnboundLocalError
  | PyNone => inl TypeError
  | Val v => ret (Some (map (fun y => 2 * y)%R v))
  end.

(** [cp = np.empty_like(v); cp[order] = v]. The fresh buffer is filled with
    zeros here; every cell is overwritten when [order] is a permutation. *)
Definition scatter (order : list nat) (v : list R) : list R :=
  set_items (repeat 0%R (length v)) order v.

Section Call.
Variable self : right_censored.
Variable linear_predictor : list R.

Definition w : list R := map (fun r => IZR (sample_weight r)) (data self).
Definition d : list Z := map status (data self).

(** Lines 63 and 67. *)
Definition centered (eta0 : list R) : list R :=
  map (fun x => x - mean eta0)%R eta0.

Section Eta.
Variable eta : list R.

Definition exp_eta : list R := map exp eta.
Definition _derived_w : list R := map IZR (_derived_weight self).
Definition rskden : list R := rev (cumsumR (rev (map2 Rmult exp_eta w))).

Definition log_terms : list R :=
  mask_select (map (fun x => (0 <? x)%Z) (_derived_events self))
              (map2 Rmult _derived_w (map ln rskden)).

Definition loglik : R :=
  (sumR (mask_select (map (fun x => (0 <? x)%Z) d) (map2 Rmult w eta))
   - sumR log_terms)%R.

Definition rskdeninv : list R :=
  0%R :: cumsumR (mask_select
                    (map (fun x => (x =? 1)%Z) (_derived_events self))
                    (map2 Rdiv _derived_w rskden)).

Definition rskdeninv2 : list R :=
  0%R :: cumsumR (mask_select
                    (map (fun x => (x =? 1)%Z) (_derived_events self))
                    (map2 Rdiv _derived_w
                          (map (fun x => x ^ 2)%R rskden))).

(** Lines 80-82. *)
Definition grad_sorted : result (list R) :=
  r <- np_take rskdeninv (_risk_count self) ;;
  ret (map2 Rmult w (map2 Rminus (map IZR d) (map2 Rmult exp_eta r))).

(** Lines 87-92. *)
Definition hess_sorted : result (list R) :=
  r2 <- np_take rskdeninv2 (_risk_count self) ;;
  r <- np_take rskdeninv (_risk_count self) ;;
  let w_exp_eta := map2 Rmult w exp_eta in
  ret (map2 Rminus
            (map2 Rmult (map (fun x => x ^ 2)%R w_exp_eta) r2)
            (map2 Rmult w_exp_eta r)).

(** Lines 77-94: the locals [grad_cp] and [diag_hessian_cp]. *)
Definition derivatives (gradient hessian : bool)
  : result (local (list R) * local (list R)) :=
  if gradient || hessian then
    grad_cp <- (if gradient
                then g <- grad_sorted ;; ret (Val (scatter (_order self) g))
                else ret PyNone) ;;
    diag_hessian_cp <-
      (if hessian
       then h <- hess_sorted ;; ret (Val (scatter (_order self) h))
       else ret Unbound) ;;
    ret (grad_cp, diag_hessian_cp)
  else ret (Unbound, Unbound).

(** Lines 96-98. *)
Definition finish (gradient hessian : bool) : result CoxDevianceResult :=
  lv <- derivatives gradient hessian ;;
  g <- twice (fst lv) ;;
  h <- twice (snd lv) ;;
  ret {| deviance := (2 * (_loglik_sat self - loglik))%R;
         grad := g;
         diag_hessian := h |}.
End Eta.

Definition call (gradient hessian : bool) : result CoxDevianceResult :=
  eta0 <- take linear_predictor (_order self) ;;
  finish (centered eta0) gradient hessian.
End Call.

(** The scenario of the module's [__main__] block and of the specification. *)
Definition rat (n : Z) (dn : positive) : ftime := Fin (Q2Qc (n # dn)).

Definition scenario_time : list ftime :=
  [rat 2 1; rat 4 1; rat 3 1; rat 5 1; rat 13 2; rat 7 1; rat 7 1; rat 7 1; rat 7 1].
Definition scenario_status : list Z := [0; 1; 1; 0; 0; 1; 1; 1; 1]%Z.
Definition main_status : list Z := [0; 1; 1; 0; 0; 1; 7; 7; 7]%Z.

(** ** Definitions used in the statements *)

(** The data model's domain for [status]: every entry is 0 or 1. *)
Definition is01 (z : Z) : bool := ((z =? 0) || (z =? 1))%Z.

Definition boolean_status (df : list Row) : Prop :=
  forallb (fun r => is01 (status r)) df = true.

(** The running sum of the selected entries of [v]: entry [p] is [acc] plus
    the sum of [v[q]] over the positions [q <= p] with [dd[q] = 1]. *)
Fixpoint prefix_sel (acc : R) (dd : list Z) (v : list R) : list R :=
  match dd, v with
  | z :: dd', x :: v' =>
      let acc' := if (z =? 1)%Z then (acc + x)%R else acc in
      acc' :: prefix_sel acc' dd' v'
  | _, _ => []
  end.

(** An event row is a row whose status is exactly 1 (line 38). *)
Definition is_event (r : Row) : bool := (status r =? 1)%Z.

(** An event row at time [t]: a member of the tie group of [t]. *)
Definition same_event (t : ftime) (r : Row) : bool :=
  is_event r && time_eqb (event_time r) t.

(** The position of the first element that satisfies [f]. *)
Fixpoint find_index {A : Type} (f : A -> bool) (l : list A) : nat :=
  match l with
  | [] => O
  | x :: l' => if f x then O else S (find_index f l')
  end.

(** The distinct event times of a sorted frame, ascending. *)
Definition event_times (dat : list Row) : list ftime :=
  uniq (map event_time (filter is_event dat)).

(** The aggregated weight of the tie group of [t]. *)
Definition agg_weight (dat : list Row) (t : ftime) : Z :=
  sumZ (map sample_weight (filter (same_event t) dat)).

(** The event rows of a frame as (time, position), positions from [k]. *)
Fixpoint ev_list (k : nat) (dat : list Row) : list (ftime * nat) :=
  match dat with
  | [] => []
  | r :: dat' =>
      if is_event r then (event_time r, k) :: ev_list (S k) dat'
      else ev_list (S k) dat'
  end.

Definition first_pos (t : ftime) (l : list (ftime * nat)) : nat :=
  match find (fun x => time_eqb (fst x) t) l with
  | Some x => snd x
  | None => O
  end.

Definition cnt (t : ftime) (l : list (ftime * nat)) : nat :=
  length (filter (fun x => time_eqb (fst x) t) l).

Definition time_le (a b : ftime) : Prop := time_leb a b = true.

Definition fst_le (a b : ftime * nat) : Prop := time_le (fst a) (fst b).

(** A frame sorted by (event time ascending, status descending). *)
Definition row_sorted (dat : list Row) : Prop :=
  StronglySorted (fun a b => row_leb a b = true) dat.

(** The row at a position of a frame. *)
Definition no_row : Row := mkRow 0 NegInf 0 0.
Definition row_at (dat : list Row) (p : nat) : Row := nth p dat no_row.

(** [p] is the first sorted position of its tie group: an event row with
    no earlier event row at the same time. *)
Definition first_of_group (dat : list Row) (p : nat) : Prop :=
  status (row_at dat p) = 1%Z /\
  forall j, (j < p)%nat ->
            ~ (status (row_at dat j) = 1%Z /\
               event_time (row_at dat j) = event_time (row_at dat p)).

(** The sorted positions of the members of the tie group of [t]. *)
Definition group_positions (dat : list Row) (t : ftime) : list nat :=
  nonzero (map (same_event t) dat).

(** Tie-weight conservation as the specification states it: the derived
    weights over the positions of a tie group add up to the weights of its
    members. *)
Definition tie_weight_conservation_claim (self : right_censored) (t : ftime)
  : Prop :=
  sumZ (map (fun p => nth p (_derived_weight self) 0%Z)
            (group_positions (data self) t))
  = agg_weight (data self) t.

(** The distinct values of a list of times. *)
Fixpoint distinct (l : list ftime) : list ftime :=
  match l with
  | [] => []
  | x :: l' => if existsb (time_eqb x) l' then distinct l' else x :: distinct l'
  end.

(** The saturated log-likelihood in the words of the specification, on the
    rows as given: minus the sum of [w * log w] over the tie groups (the
    distinct times of the event rows) whose aggregated weight [w] is
    positive. *)
Definition saturated_spec (df : list Row) : R :=
  (- sumR (map (fun t =>
                  let w := agg_weight df t in
                  if (0 <? w)%Z then IZR w * ln (IZR w) else 0)
               (distinct (map event_time (filter is_event df)))))%R.

(** The centred linear predictor in sorted order (lines 63 and 67) once
    the gather [linear_predictor[self._order]] has succeeded. *)
Definition eta_of (self : right_censored) (lp : list R) : list R :=
  centered (map (fun k => nth k lp 0%R) (_order self)).

(** [rskdeninv[rskcount]] and [rskdeninv2[rskcount]], position by position. *)
Definition inv_at (self : right_censored) (eta : list R) : list R :=
  prefix_sel 0%R (_derived_events self)
             (map2 Rdiv (_derived_w self) (rskden self eta)).

Definition inv2_at (self : right_censored) (eta : list R) : list R :=
  prefix_sel 0%R (_derived_events self)
             (map2 Rdiv (_derived_w self)
                   (map (fun x => x ^ 2)%R (rskden self eta))).

(** [grad] and [diag_hessian] of lines 80 and 90, in sorted order. *)
Definition grad_values (self : right_censored) (eta : list R) : list R :=
  map2 Rmult (w self)
       (map2 Rminus (map IZR (d self))
             (map2 Rmult (exp_eta eta) (inv_at self eta))).

Definition hess_values (self : right_censored) (eta : list R) : list R :=
  map2 Rminus
       (map2 Rmult (map (fun x => x ^ 2)%R (map2 Rmult (w self) (exp_eta eta)))
             (inv2_at self eta))
       (map2 Rmult (map2 Rmult (w self) (exp_eta eta)) (inv_at self eta)).

Definition double (v : list R) : list R := map (fun y => 2 * y)%R v.

(** The sum of [f p] over the positions [p < n]. *)
Definition bigsum (n : nat) (f : nat -> R) : R := sumR (map f (seq 0 n)).

(** The risk denominator at a sorted position in the words of the
    specification: the sum of [exp(eta[j]) * sample_weight[j]] over the
    sorted positions [j >= p]. *)
Definition risk_den (dat : list Row) (eta : list R) (p : nat) : R :=
  sumR (map (fun j => exp (nth j eta 0) * IZR (sample_weight (row_at dat j)))%R
            (seq p (length dat - p))).

(** The partial log-likelihood in the words of the specification. *)
Definition loglik_spec (self : right_censored) (eta : list R) : R :=
  let dat := data self in
  (bigsum (length dat)
          (fun p => if is_event (row_at dat p)
                    then IZR (sample_weight (row_at dat p)) * nth p eta 0
                    else 0)
   - bigsum (length dat)
            (fun p => if (0 <? nth p (_derived_events self) 0)%Z
                      then IZR (nth p (_derived_weight self) 0%Z)
                           * ln (risk_den dat eta p)
                      else 0))%R.

(** *** The Breslow formulas, free of any order

    An observation with its centred score, [((time, status, weight), eta)],
    and the quantities of the partial likelihood as sums over a list of
    such observations in whatever order. *)
Abbreviation scored := (ftime * Z * Z * R)%type (only parsing).

Definition s_time (o : scored) : ftime := fst (fst (fst o)).
Definition s_status (o : scored) : Z := snd (fst (fst o)).
Definition s_weight (o : scored) : Z := snd (fst o).
Definition s_eta (o : scored) : R := snd o.

Definition sum_over {A : Type} (l : list A) (f : A -> R) : R := sumR (map f l).

(** The weighted risk of the observations whose time is at least [t]. *)
Definition risk_at (S : list scored) (t : ftime) : R :=
  sum_over S (fun o => if time_leb t (s_time o)
                       then IZR (s_weight o) * exp (s_eta o) else 0)%R.

(** The sum, over the events whose time is at most [t], of the weight times
    [c] of the risk at the event's time. *)
Definition events_upto (S : list scored) (c : R -> R) (t : ftime) : R :=
  sum_over S (fun o => if (s_status o =? 1)%Z && time_leb (s_time o) t
                       then IZR (s_weight o) * c (risk_at S (s_time o))
                       else 0)%R.

Definition inv_sq (x : R) : R := (/ (x ^ 2))%R.

Definition grad_breslow (S : list scored) (o : scored) : R :=
  (2 * (IZR (s_weight o)
        * (IZR (s_status o) - exp (s_eta o) * events_upto S Rinv (s_time o))))%R.

Definition hess_breslow (S : list scored) (o : scored) : R :=
  (2 * ((IZR (s_weight o) * exp (s_eta o)) ^ 2 * events_upto S inv_sq (s_time o)
        - IZR (s_weight o) * exp (s_eta o) * events_upto S Rinv (s_time o)))%R.

Definition loglik_breslow (S : list scored) : R :=
  (sum_over S (fun o => if (s_status o =? 1)%Z
                        then IZR (s_weight o) * s_eta o else 0)
   - sum_over S (fun o => if (s_status o =? 1)%Z
                          then IZR (s_weight o) * ln (risk_at S (s_time o))
                          else 0))%R.

(** The saturated log-likelihood over rows (time, status, weight). *)
Definition obs_event (t : ftime) (o : ftime * Z * Z) : bool :=
  (snd (fst o) =? 1)%Z && time_eqb (fst (fst o)) t.

Definition obs_agg (O : list (ftime * Z * Z)) (t : ftime) : Z :=
  sumZ (map snd (filter (obs_event t) O)).

Definition saturated_obs (O : list (ftime * Z * Z)) : R :=
  (- sum_over (distinct (map (fun o => fst (fst o))
                             (filter (fun o => (snd (fst o) =? 1)%Z) O)))
              (fun t => let w := obs_agg O t in
                        if (0 <? w)%Z then IZR w * ln (IZR w) else 0))%R.

(** The scored observations of a dataset, in the caller's order. *)
Definition scored_obs (obs : list (ftime * Z * Z)) (lp : list R) : list scored :=
  combine obs (centered lp).

Definition no_scored : scored := ((NegInf, 0%Z, 0%Z), 0%R).

(** The scored observations of a sorted frame, in sorted order. *)
Definition obs_of (r : Row) : ftime * Z * Z :=
  (event_time r, status r, sample_weight r).

Definition score (dat : list Row) (eta : list R) : list scored :=
  combine (map obs_of dat) eta.

(** A list rearranged by a list of positions: entry [i] of the result is
    entry [sigma[i]] of the list. *)
Definition permute {A : Type} (d : A) (sigma : list nat) (l : list A) : list A :=
  map (fun k => nth k l d) sigma.

Definition no_obs : ftime * Z * Z := (NegInf, 0%Z, 0%Z).

(** The rows of the frame that [__post_init__] builds when no weights
    are given. *)
Definition unit_obs (event_time : list ftime) (status : list Z)
  : list (ftime * Z * Z) :=
  combine (combine event_time status) (repeat 1%Z (length event_time)).

Definition scenario_obs : list (ftime * Z * Z) :=
  unit_obs scenario_time scenario_status.

(** The data of the module's [__main__] block. *)
Definition main_obs : list (ftime * Z * Z) :=
  unit_obs scenario_time main_status.

(** [np.ones_like(time)] *)
Definition scenario_lp : list R := repeat 1%R 9.

Definition is_finite (t : ftime) : bool :=
  match t with
  | Fin _ => true
  | _ => false
  end.

(** The construction contract as the specification states it: it raises
    exactly for mismatched lengths or a non-finite event time. *)
Definition construction_check_claim (event_time : list ftime) (status : list Z)
           (sample_weight : option (list Z)) : Prop :=
  (exists e, post_init event_time status sample_weight = inl e) <->
  (length event_time <> length status
   \/ (exists sw, sample_weight = Some sw /\ length sw <> length event_time)
   \/ Exists (fun t => is_finite t = false) event_time).

(** The evaluation contract as the specification states it: a call raises
    exactly when the linear predictor's length differs from the number of
    observations. *)
Definition dimension_check_claim (self : right_censored) (n : nat)
           (lp : list R) : Prop :=
  (exists e, call self lp true true = inl e) <-> length lp <> n.

(** ** Definitions used in the further properties *)

(** [_fid(times, index)] with its optional argument: [index=None] stands
    for [np.arange(times.shape[0])] (lines 110-111). *)
Definition _fid_opt (times : list ftime) (index : option (list nat))
  : list nat * list (ftime * list nat) :=
  _fid times (match index with
              | Some i => i
              | None => seq 0 (length times)
              end).

(** Every row carries a positive weight. *)
Definition positive_weights (obs : list (ftime * Z * Z)) : Prop :=
  Forall (fun o => (0 < snd o)%Z) obs.

(** The order a stable sort produces on elements that carry their original
    position: [a] is sorted before [b] when it is smaller or equal in the
    key and, for equal keys, comes first originally. *)
Definition stable_before {A : Type} (leb : A -> A -> bool) (pos : A -> nat)
           (a b : A) : Prop :=
  leb a b = true /\ (leb b a = true -> (pos a < pos b)%nat).

(** The position of the first occurrence of [t] in [times], and the
    positions of all its occurrences. *)
Definition first_occurrence (t : ftime) (times : list ftime) : nat :=
  find_index (fun x => time_eqb x t) times.

Definition occurrences (t : ftime) (times : list ftime) : list nat :=
  nonzero (map (fun x => time_eqb x t) times).

Definition time_lt (a b : ftime) : Prop := time_ltb a b = true.

(** The two examples of the docstring of [_fid]. *)
Definition fid_example_1 : list ftime := [rat 1 1; rat 4 1; rat 5 1; rat 6 1].
Definition fid_example_2 : list ftime :=
  [rat 1 1; rat 1 1; rat 1 1; rat 2 1; rat 3 1; rat 3 1;
   rat 4 1; rat 4 1; rat 4 1].

(** A change of the time scale: a map on event times that keeps their
    order. *)
Definition order_preserving (f : ftime -> ftime) : Prop :=
  forall a b, time_leb (f a) (f b) = time_leb a b.

Definition retime (f : ftime -> ftime) (o : ftime * Z * Z) : ftime * Z * Z :=
  (f (fst (fst o)), snd (fst o), snd o).

Definition retime_row (f : ftime -> ftime) (r : Row) : Row :=
  mkRow (index r) (f (event_time r)) (status r) (sample_weight r).

(** Moving the origin of the time axis by one unit. *)
Definition shift_time (t : ftime) : ftime :=
  match t with
  | Fin q => Fin (q + 1)%Qc
  | _ => t
  end.

(** [np.cumsum] on an int64 column as numpy computes it: every partial sum
    wraps around modulo 2^64 into the range [-2^63, 2^63). *)
Definition wrap64 (z : Z) : Z := ((z + 2 ^ 63) mod 2 ^ 64 - 2 ^ 63)%Z.

Definition cumsum64 : list Z -> list Z :=
  cumsum_from (fun a b => wrap64 (a + b)) 0%Z.

(** The statuses are small enough for no running sum over them to leave
    the int64 range. *)
Definition no_overflow (obs : list (ftime * Z * Z)) : Prop :=
  (sumZ (map (fun o => Z.abs (snd (fst o))) obs) < 2 ^ 63)%Z.

(* ================================================================== *)
(** * Properties *)

(** ** The order on event times *)

Lemma time_leb_refl (a : ftime) : time_leb a a = true.
Proof.
  destruct a; simpl; auto.
  apply Qle_bool_iff. apply Qle_refl.
Qed.

Lemma time_leb_trans (a b c : ftime) :
  time_leb a b = true -> time_leb b c = true -> time_leb a c = true.
Proof.
  destruct a, b, c; simpl; auto; try discriminate.
  rewrite !Qle_bool_iff. apply Qle_trans.
Qed.

Lemma time_leb_total (a b : ftime) :
  time_leb a b = true \/ time_leb b a = true.
Proof.
  destruct a as [| x |], b as [| y |]; simpl; auto.
  rewrite !Qle_bool_iff.
  destruct (Qlt_le_dec x y) as [H | H]; [left; apply Qlt_le_weak | right];
    exact H.
Qed.

Lemma time_leb_antisym (a b : ftime) :
  time_leb a b = true -> time_leb b a = true -> a = b.
Proof.
  destruct a, b; simpl; auto; try discriminate.
  rewrite !Qle_bool_iff. intros H1 H2.
  f_equal. apply Qc_is_canon. apply Qle_antisym; assumption.
Qed.

Lemma time_eqb_eq (a b : ftime) : time_eqb a b = true <-> a = b.
Proof.
  unfold time_eqb. rewrite andb_true_iff. split.
  - intros [H1 H2]. apply time_leb_antisym; assumption.
  - intros ->. split; apply time_leb_refl.
Qed.

Lemma time_eqb_refl (a : ftime) : time_eqb a a = true.
Proof. apply time_eqb_eq. reflexivity. Qed.

Lemma time_eqb_neq (a b : ftime) : time_eqb a b = false <-> a <> b.
Proof.
  rewrite <- time_eqb_eq. destruct (time_eqb a b); split; congruence.
Qed.

Lemma time_eqb_sym (a b : ftime) : time_eqb a b = time_eqb b a.
Proof. unfold time_eqb. apply andb_comm. Qed.

Lemma time_eq_dec (a b : ftime) : {a = b} + {a <> b}.
Proof.
  destruct (time_eqb a b) eqn:E.
  - left. apply time_eqb_eq. exact E.
  - right. apply time_eqb_neq. exact E.
Qed.

Lemma row_leb_iff (a b : Row) :
  row_leb a b = true <->
  time_leb (event_time a) (event_time b) = true /\
  (time_leb (event_time b) (event_time a) = true -> (status b <= status a)%Z).
Proof.
  unfold row_leb, time_ltb, time_eqb.
  destruct (time_leb_total (event_time a) (event_time b)) as [H | H];
    destruct (time_leb (event_time a) (event_time b)) eqn:E1;
    destruct (time_leb (event_time b) (event_time a)) eqn:E2;
    simpl; try discriminate; rewrite ?Z.leb_le;
    split; try tauto; try (intros [? ?]; auto; discriminate);
    intros; split; auto; discriminate.
Qed.

Lemma row_leb_total (a b : Row) : row_leb a b = true \/ row_leb b a = true.
Proof.
  rewrite !row_leb_iff.
  destruct (time_leb (event_time a) (event_time b)) eqn:E1;
    destruct (time_leb (event_time b) (event_time a)) eqn:E2.
  - destruct (Z_le_gt_dec (status b) (status a)).
    + left. auto.
    + right. split; auto. intros _. lia.
  - left. split; auto. discriminate.
  - right. split; auto. discriminate.
  - destruct (time_leb_total (event_time a) (event_time b)); congruence.
Qed.

Lemma row_leb_trans (a b c : Row) :
  row_leb a b = true -> row_leb b c = true -> row_leb a c = true.
Proof.
  rewrite !row_leb_iff. intros [H1 H2] [H3 H4]. split.
  - eapply time_leb_trans; eassumption.
  - intros H5.
    assert (time_leb (event_time b) (event_time a) = true)
      by (eapply time_leb_trans; eassumption).
    assert (time_leb (event_time c) (event_time b) = true)
      by (eapply time_leb_trans; eassumption).
    specialize (H2 H). specialize (H4 H0). lia.
Qed.

(** ** The stable insertion sort *)

Section SortFacts.
Context {A : Type} (leb : A -> A -> bool).
Hypothesis leb_total : forall a b, leb a b = true \/ leb b a = true.
Hypothesis leb_trans :
  forall a b c, leb a b = true -> leb b c = true -> leb a c = true.

Let le (a b : A) : Prop := leb a b = true.

Lemma insert_sorted_perm (x : A) (l : list A) :
  Permutation (insert_sorted leb x l) (x :: l).
Proof.
  induction l as [| y l IH]; simpl.
  - apply Permutation_refl.
  - destruct (leb x y).
    + apply Permutation_refl.
    + eapply perm_trans; [apply perm_skip; exact IH | apply perm_swap].
Qed.

Lemma stable_sort_perm (l : list A) : Permutation (stable_sort leb l) l.
Proof.
  induction l as [| x l IH]; simpl.
  - constructor.
  - eapply perm_trans; [apply insert_sorted_perm |].
    apply perm_skip. exact IH.
Qed.

Lemma insert_sorted_sorted (x : A) (l : list A) :
  StronglySorted le l -> StronglySorted le (insert_sorted leb x l).
Proof.
  induction 1 as [| y l Hs IH Hall]; simpl.
  - repeat constructor.
  - destruct (leb x y) eqn:E.
    + constructor; [constructor; assumption |].
      constructor; [exact E |].
      eapply Forall_impl; [| exact Hall].
      intros z Hz. eapply leb_trans; eassumption.
    + constructor; [exact IH |].
      assert (Hyx : le y x) by (destruct (leb_total x y); [congruence | assumption]).
      eapply Permutation_Forall;
        [apply Permutation_sym; apply insert_sorted_perm |].
      constructor; assumption.
Qed.

Lemma stable_sort_sorted (l : list A) : StronglySorted le (stable_sort leb l).
Proof.
  induction l as [| x l IH]; simpl.
  - constructor.
  - apply insert_sorted_sorted. exact IH.
Qed.

Lemma stable_sort_id (l : list A) :
  StronglySorted le l -> stable_sort leb l = l.
Proof.
  induction 1 as [| y l Hs IH Hall]; simpl; [reflexivity |].
  rewrite IH. destruct l as [| z l]; simpl; [reflexivity |].
  inversion Hall; subst. unfold le in *. rewrite H1. reflexivity.
Qed.
End SortFacts.

(** ** Array helpers *)

Section ArrayFacts.
Context {A : Type}.
Implicit Types a b : list A.

Lemma length_set_nth k (v : A) a : length (set_nth k v a) = length a.
Proof.
  revert k. induction a as [| x a IH]; intros [| k]; simpl; auto.
Qed.

Lemma length_set_items a ks (vs : list A) :
  length (set_items a ks vs) = length a.
Proof.
  revert a vs. induction ks as [| k ks IH]; intros a [| v vs]; simpl; auto.
  rewrite IH. apply length_set_nth.
Qed.

Lemma length_set_const a ks (v : A) : length (set_const a ks v) = length a.
Proof.
  unfold set_const. revert a.
  induction ks as [| k ks IH]; intros a; simpl; auto.
  rewrite IH. apply length_set_nth.
Qed.

Lemma length_map2 (f : A -> A -> A) a b :
  length (map2 f a b) = Nat.min (length a) (length b).
Proof.
  revert b. induction a as [| x a IH]; intros [| y b]; simpl; auto.
Qed.

Lemma length_cumsum_from (add : A -> A -> A) acc a :
  length (cumsum_from add acc a) = length a.
Proof.
  revert acc. induction a as [| x a IH]; intros acc; simpl; auto.
Qed.

Lemma nth_set_nth_eq k (v d : A) a :
  (k < length a)%nat -> nth k (set_nth k v a) d = v.
Proof.
  revert k. induction a as [| x a IH]; intros [| k] H; simpl in *;
    try lia; auto.
  apply IH. lia.
Qed.

Lemma nth_set_nth_neq k p (v d : A) a :
  k <> p -> nth p (set_nth k v a) d = nth p a d.
Proof.
  revert k p. induction a as [| x a IH]; intros [| k] [| p] H; simpl;
    auto; try congruence.
Qed.

Lemma nth_set_const p ks (v d : A) a :
  (p < length a)%nat ->
  nth p (set_const a ks v) d = if in_dec Nat.eq_dec p ks then v else nth p a d.
Proof.
  unfold set_const. revert a.
  induction ks as [| k ks IH]; intros a Hp; simpl; [reflexivity |].
  rewrite IH by (rewrite length_set_nth; exact Hp).
  destruct (in_dec Nat.eq_dec p ks) as [Hin | Hnin].
  - destruct (Nat.eq_dec k p); reflexivity.
  - destruct (Nat.eq_dec k p) as [-> | Hne].
    + apply nth_set_nth_eq. exact Hp.
    + apply nth_set_nth_neq. exact Hne.
Qed.

Lemma Forall_set_nth (P : A -> Prop) k v a :
  P v -> Forall P a -> Forall P (set_nth k v a).
Proof.
  intros Hv Ha. revert k.
  induction Ha as [| x a Hx Ha IH]; intros [| k]; simpl;
    constructor; auto.
Qed.

Lemma Forall_set_const (P : A -> Prop) ks v a :
  P v -> Forall P a -> Forall P (set_const a ks v).
Proof.
  intros Hv. unfold set_const. revert a.
  induction ks as [| k ks IH]; intros a Ha; simpl; auto.
  apply IH. apply Forall_set_nth; assumption.
Qed.

Lemma take_ok (d : A) a ks :
  Forall (fun k => (k < length a)%nat) ks ->
  take a ks = inr (map (fun k => nth k a d) ks).
Proof.
  induction 1 as [| k ks Hk Hks IH]; simpl; [reflexivity |].
  destruct (nth_error a k) as [x |] eqn:E.
  - rewrite IH. simpl. unfold ret. do 2 f_equal.
    symmetry. apply nth_error_nth. exact E.
  - apply nth_error_None in E. lia.
Qed.

Lemma take_raises a ks :
  Exists (fun k => (length a <= k)%nat) ks -> take a ks = inl IndexError.
Proof.
  induction 1 as [k ks Hk | k ks Hks IH]; simpl.
  - apply nth_error_None in Hk. rewrite Hk. reflexivity.
  - destruct (nth_error a k); [| reflexivity].
    rewrite IH. reflexivity.
Qed.

Lemma mask_select_map (f : A -> bool) a :
  mask_select (map f a) a = filter f a.
Proof.
  induction a as [| x a IH]; simpl; [reflexivity |].
  destruct (f x); rewrite IH; reflexivity.
Qed.
End ArrayFacts.

(** ** Requesting only part of the output *)

(** C3 (the code departs from the claim). Whenever [gradient] or [hessian]
    is false the call raises: the return statement doubles [grad_cp] and
    [diag_hessian_cp], and the one that was not requested is [None] or was
    never assigned.  No result, hence no deviance, is returned. *)
Theorem call_partial_request_raises (self : right_censored) (lp : list R) :
  (forall hessian, exists e, call self lp false hessian = inl e) /\
  (forall gradient, exists e, call self lp gradient false = inl e).
Proof.
  split.
  - intros hessian. unfold call.
    destruct (take lp (_order self)) as [e | eta0]; simpl; [eauto |].
    unfold finish, derivatives.
    destruct hessian; simpl.
    + destruct (hess_sorted self (centered eta0)) as [e | h]; simpl; eauto.
    + eauto.
  - intros gradient. unfold call.
    destruct (take lp (_order self)) as [e | eta0]; simpl; [eauto |].
    unfold finish, derivatives.
    destruct gradient; simpl.
    + destruct (grad_sorted self (centered eta0)) as [e | h]; simpl; eauto.
    + eauto.
Qed.

(** ** The sorted frame *)

Lemma sort_values_perm (df : list Row) : Permutation (sort_values df) df.
Proof. apply stable_sort_perm. Qed.

Lemma sort_values_sorted (df : list Row) :
  StronglySorted (fun a b => row_leb a b = true) (sort_values df).
Proof.
  apply stable_sort_sorted.
  - apply row_leb_total.
  - apply row_leb_trans.
Qed.

Lemma length_sort_values (df : list Row) :
  length (sort_values df) = length df.
Proof. apply Permutation_length. apply sort_values_perm. Qed.

Lemma map_fst_combine_seq {B : Type} (l : list B) (k : nat) :
  map fst (combine (seq k (length l)) l) = seq k (length l).
Proof.
  revert k. induction l as [| x l IH]; intros k; simpl; [reflexivity |].
  rewrite IH. reflexivity.
Qed.

Lemma map_snd_combine_seq {B : Type} (l : list B) (k : nat) :
  map snd (combine (seq k (length l)) l) = l.
Proof.
  revert k. induction l as [| x l IH]; intros k; simpl; [reflexivity |].
  rewrite IH. reflexivity.
Qed.

Lemma index_with_index (obs : list (ftime * Z * Z)) :
  map index (with_index obs) = seq 0 (length obs).
Proof.
  unfold with_index. rewrite map_map. simpl.
  apply (map_fst_combine_seq obs 0).
Qed.

Lemma length_with_index (obs : list (ftime * Z * Z)) :
  length (with_index obs) = length obs.
Proof.
  rewrite <- (length_map index), index_with_index. apply length_seq.
Qed.

Lemma order_perm (obs : list (ftime * Z * Z)) :
  Permutation (_order (preprocess (with_index obs))) (seq 0 (length obs)).
Proof.
  simpl. rewrite <- index_with_index.
  apply Permutation_map. apply sort_values_perm.
Qed.

Lemma length_order (df : list Row) :
  length (_order (preprocess df)) = length df.
Proof. simpl. rewrite length_map. apply length_sort_values. Qed.

Lemma length_data (df : list Row) : length (data (preprocess df)) = length df.
Proof. simpl. apply length_sort_values. Qed.

Lemma length_derived_weight (df : list Row) :
  length (_derived_weight (preprocess df)) = length df.
Proof.
  simpl. rewrite length_set_items, length_map. apply length_sort_values.
Qed.

Lemma length_fold_set_const {B : Type} (vs : list (list nat)) (z : B) a :
  length (fold_left (fun de v => set_const de v z) vs a) = length a.
Proof.
  revert a. induction vs as [| v vs IH]; intros a; simpl; auto.
  rewrite IH. apply length_set_const.
Qed.

Lemma length_derived_events (df : list Row) :
  length (_derived_events (preprocess df)) = length df.
Proof.
  simpl. rewrite length_set_const, length_fold_set_const, length_map.
  apply length_sort_values.
Qed.

Lemma risk_count_cumsum (df : list Row) :
  _risk_count (preprocess df) = cumsumZ (_derived_events (preprocess df)).
Proof. reflexivity. Qed.

Lemma boolean_status_Forall (df : list Row) :
  boolean_status df <-> Forall (fun r => status r = 0%Z \/ status r = 1%Z) df.
Proof.
  unfold boolean_status. rewrite forallb_forall, Forall_forall.
  split; intros H r Hr; specialize (H r Hr); unfold is01 in *.
  - apply orb_true_iff in H. rewrite !Z.eqb_eq in H. exact H.
  - apply orb_true_iff. rewrite !Z.eqb_eq. exact H.
Qed.

Lemma Forall_fold_set_const {B : Type} (P : B -> Prop) (vs : list (list nat)) z a :
  P z -> Forall P a ->
  Forall P (fold_left (fun de v => set_const de v z) vs a).
Proof.
  intros Hz. revert a. induction vs as [| v vs IH]; intros a Ha; simpl; auto.
  apply IH. apply Forall_set_const; assumption.
Qed.

Lemma derived_events_boolean (df : list Row) :
  boolean_status df ->
  Forall (fun z => z = 0%Z \/ z = 1%Z) (_derived_events (preprocess df)).
Proof.
  intros H. simpl.
  apply Forall_set_const; [right; reflexivity |].
  apply Forall_fold_set_const; [left; reflexivity |].
  apply Forall_map.
  apply boolean_status_Forall in H.
  eapply Permutation_Forall; [apply Permutation_sym, sort_values_perm |].
  exact H.
Qed.

(** ** The look-up of the cumulative tables by risk count *)

Lemma np_get_app {A : Type} (pre post : list A) (y : A) :
  np_get (pre ++ y :: post) (Z.of_nat (length pre)) = Some y.
Proof.
  unfold np_get.
  assert (H : ((0 <=? Z.of_nat (length pre)) &&
               (Z.of_nat (length pre) <? Z.of_nat (length (pre ++ y :: post))))%Z
              = true).
  { apply andb_true_iff. rewrite Z.leb_le, Z.ltb_lt.
    rewrite length_app. simpl. lia. }
  rewrite H, Nat2Z.id.
  rewrite nth_error_app2 by lia.
  rewrite Nat.sub_diag. reflexivity.
Qed.

Lemma np_take_running (dd : list Z) :
  Forall (fun z => z = 0%Z \/ z = 1%Z) dd ->
  forall (v pre : list R) (cur : R) (c : Z),
    length v = length dd ->
    c = Z.of_nat (length pre) ->
    np_take (pre ++ cur :: cumsum_from Rplus cur
                  (mask_select (map (fun x => (x =? 1)%Z) dd) v))
            (cumsum_from Z.add c dd)
    = inr (prefix_sel cur dd v).
Proof.
  induction 1 as [| z dd Hz Hdd IH]; intros v pre cur c Hlen Hc.
  - destruct v; reflexivity.
  - destruct v as [| x v]; [discriminate |].
    simpl in Hlen. injection Hlen as Hlen.
    destruct Hz as [-> | ->]; simpl.
    + rewrite Z.add_0_r. subst c. rewrite np_get_app.
      rewrite (IH v pre cur _ Hlen eq_refl). reflexivity.
    + replace (pre ++ cur :: (cur + x)%R ::
                 cumsum_from Rplus (cur + x)%R
                   (mask_select (map (fun x0 => (x0 =? 1)%Z) dd) v))
        with ((pre ++ [cur]) ++ (cur + x)%R ::
                 cumsum_from Rplus (cur + x)%R
                   (mask_select (map (fun x0 => (x0 =? 1)%Z) dd) v))
        by (rewrite <- app_assoc; reflexivity).
      assert (Hc' : (c + 1)%Z = Z.of_nat (length (pre ++ [cur]))).
      { rewrite length_app. simpl. lia. }
      rewrite Hc'. rewrite np_get_app.
      rewrite (IH v (pre ++ [cur]) (cur + x)%R _ Hlen eq_refl). reflexivity.
Qed.

Lemma np_take_table (dd : list Z) (v : list R) :
  Forall (fun z => z = 0%Z \/ z = 1%Z) dd ->
  length v = length dd ->
  np_take (0%R :: cumsumR (mask_select (map (fun x => (x =? 1)%Z) dd) v))
          (cumsumZ dd)
  = inr (prefix_sel 0%R dd v).
Proof.
  intros H Hlen.
  apply (np_take_running H v [] 0%R Hlen eq_refl).
Qed.

(** ** A call with both outputs requested *)

Lemma length_centered (eta0 : list R) : length (centered eta0) = length eta0.
Proof. unfold centered. apply length_map. Qed.

Lemma length_rskden (self : right_censored) (eta : list R) :
  length eta = length (data self) ->
  length (rskden self eta) = length (data self).
Proof.
  intros H. unfold rskden, cumsumR, exp_eta, w.
  rewrite length_rev, length_cumsum_from, length_rev, length_map2.
  rewrite !length_map, H. apply Nat.min_id.
Qed.

Lemma grad_sorted_ok (df : list Row) (eta : list R) :
  boolean_status df ->
  length eta = length df ->
  grad_sorted (preprocess df) eta = inr (grad_values (preprocess df) eta).
Proof.
  intros Hb Hlen. unfold grad_sorted, rskdeninv.
  rewrite risk_count_cumsum.
  rewrite np_take_table.
  - reflexivity.
  - apply derived_events_boolean. exact Hb.
  - rewrite length_map2. unfold _derived_w.
    rewrite length_map, length_derived_weight, length_derived_events.
    rewrite length_rskden by (rewrite length_data; exact Hlen).
    rewrite length_data. apply Nat.min_id.
Qed.

Lemma hess_sorted_ok (df : list Row) (eta : list R) :
  boolean_status df ->
  length eta = length df ->
  hess_sorted (preprocess df) eta = inr (hess_values (preprocess df) eta).
Proof.
  intros Hb Hlen. unfold hess_sorted, rskdeninv, rskdeninv2.
  rewrite risk_count_cumsum.
  assert (Hd := derived_events_boolean Hb).
  rewrite !np_take_table; auto.
  - rewrite length_map2. unfold _derived_w.
    rewrite length_map, length_derived_weight, length_derived_events.
    rewrite length_rskden by (rewrite length_data; exact Hlen).
    rewrite length_data. apply Nat.min_id.
  - rewrite length_map2. unfold _derived_w.
    rewrite !length_map, length_derived_weight, length_derived_events.
    rewrite length_rskden by (rewrite length_data; exact Hlen).
    rewrite length_data. apply Nat.min_id.
Qed.

Lemma finish_ok (df : list Row) (eta : list R) :
  boolean_status df ->
  length eta = length df ->
  finish (preprocess df) eta true true
  = inr {| deviance :=
             (2 * (_loglik_sat (preprocess df) - loglik (preprocess df) eta))%R;
           grad :=
             Some (double (scatter (_order (preprocess df))
                                   (grad_values (preprocess df) eta)));
           diag_hessian :=
             Some (double (scatter (_order (preprocess df))
                                   (hess_values (preprocess df) eta))) |}.
Proof.
  intros Hb Hlen. unfold finish, derivatives.
  rewrite grad_sorted_ok, hess_sorted_ok by assumption.
  reflexivity.
Qed.

Lemma take_order_ok (obs : list (ftime * Z * Z)) (lp : list R) :
  (length obs <= length lp)%nat ->
  take lp (_order (preprocess (with_index obs)))
  = inr (map (fun k => nth k lp 0%R) (_order (preprocess (with_index obs)))).
Proof.
  intros H. apply take_ok.
  eapply Permutation_Forall; [apply Permutation_sym, order_perm |].
  apply Forall_forall. intros k Hk. apply in_seq in Hk. lia.
Qed.

Lemma take_order_raises (obs : list (ftime * Z * Z)) (lp : list R) :
  (length lp < length obs)%nat ->
  take lp (_order (preprocess (with_index obs))) = inl IndexError.
Proof.
  intros H. apply take_raises. apply Exists_exists.
  exists (length lp). split; [| lia].
  eapply Permutation_in; [apply Permutation_sym, order_perm |].
  apply in_seq. lia.
Qed.

Lemma call_ok (obs : list (ftime * Z * Z)) (lp : list R) :
  boolean_status (with_index obs) ->
  (length obs <= length lp)%nat ->
  let self := preprocess (with_index obs) in
  call self lp true true
  = inr {| deviance := (2 * (_loglik_sat self - loglik self (eta_of self lp)))%R;
           grad := Some (double (scatter (_order self)
                                         (grad_values self (eta_of self lp))));
           diag_hessian :=
             Some (double (scatter (_order self)
                                   (hess_values self (eta_of self lp)))) |}.
Proof.
  intros Hb Hlen self. unfold call.
  unfold self. rewrite take_order_ok by exact Hlen.
  cbv beta iota delta [bind].
  rewrite finish_ok; [reflexivity | exact Hb |].
  rewrite length_centered, length_map, length_order. reflexivity.
Qed.

(** ** Construction *)

Lemma post_init_unit (event_time : list ftime) (status : list Z) :
  post_init event_time status None
  = if (length event_time =? length status)%nat
    then inr (preprocess (with_index (unit_obs event_time status)))
    else inl ValueError.
Proof.
  unfold post_init. destruct (length event_time =? length status)%nat;
    reflexivity.
Qed.

(** C5 as stated fails: an infinite event time is accepted. *)
Lemma construction_accepts_infinite_time :
  ~ construction_check_claim [PosInf] [1%Z] None.
Proof.
  unfold construction_check_claim. intros [_ H].
  destruct H as [e He].
  - right. right. constructor. reflexivity.
  - rewrite post_init_unit in He. simpl in He. discriminate.
Qed.

(** C5 (amended). For event times that are numbers, finite or infinite
    (the values of [ftime]; a NaN is not among them and is not covered),
    and with [sample_weight] omitted: construction raises exactly when
    [event_time] and [status] differ in length, and the exception is then
    the ValueError of the frame constructor; an infinite event time does
    not make it raise.  When it raises, no preprocessor is returned: the
    outcome is the exception alone. *)
Theorem construction_raises_iff_length_mismatch
        (event_time : list ftime) (status : list Z) :
  ((exists e, post_init event_time status None = inl e) <->
   length event_time <> length status) /\
  ((exists self, post_init event_time status None = inr self) <->
   length event_time = length status) /\
  (length event_time <> length status ->
   post_init event_time status None = inl ValueError) /\
  (length event_time = length status ->
   Exists (fun t => is_finite t = false) event_time ->
   post_init event_time status None
   = inr (preprocess (with_index (unit_obs event_time status)))).
Proof.
  rewrite post_init_unit.
  destruct (length event_time =? length status)%nat eqn:E.
  - apply Nat.eqb_eq in E. split; [| split; [| split]].
    + split; [intros [e He]; discriminate | intros H; contradiction].
    + split; [intros _; exact E | intros _; eexists; reflexivity].
    + intros H. contradiction.
    + intros _ _. reflexivity.
  - apply Nat.eqb_neq in E. split; [| split; [| split]].
    + split; [intros _; exact E | intros _; eexists; reflexivity].
    + split; [intros [self Hs]; discriminate | intros H; contradiction].
    + intros _. reflexivity.
    + intros H. contradiction.
Qed.

Lemma construction_raises_iff_length_mismatch_witness :
  length [PosInf; rat 1 1] = length [1%Z; 0%Z] /\
  Exists (fun t => is_finite t = false) [PosInf; rat 1 1] /\
  post_init [PosInf; rat 1 1] [1%Z; 0%Z] None
  = inr (preprocess (with_index (unit_obs [PosInf; rat 1 1] [1%Z; 0%Z]))).
Proof.
  assert (H : Exists (fun t => is_finite t = false) [PosInf; rat 1 1])
    by (left; reflexivity).
  split; [reflexivity |]. split; [exact H |].
  apply (proj2 (proj2 (proj2 (construction_raises_iff_length_mismatch
                                [PosInf; rat 1 1] [1%Z; 0%Z])))
               eq_refl H).
Defined.

(** ** The length of the linear predictor *)

Lemma unit_obs_boolean_one : boolean_status (with_index (unit_obs [rat 1 1] [1%Z])).
Proof. reflexivity. Qed.

(** C4 as stated fails: a predictor that is too long is accepted. *)
Lemma long_predictor_accepted :
  ~ dimension_check_claim
      (preprocess (with_index (unit_obs [rat 1 1] [1%Z]))) 1 [0%R; 0%R].
Proof.
  unfold dimension_check_claim. intros [_ H].
  destruct H as [e He].
  - simpl. discriminate.
  - rewrite call_ok in He.
    + discriminate.
    + exact unit_obs_boolean_one.
    + simpl. lia.
Qed.

Lemma eta_of_firstn (obs : list (ftime * Z * Z)) (lp : list R) :
  let self := preprocess (with_index obs) in
  eta_of self (firstn (length obs) lp) = eta_of self lp.
Proof.
  intros self. unfold eta_of. f_equal.
  apply map_ext_in. intros k Hk.
  assert (Hk' : In k (seq 0 (length obs))).
  { eapply Permutation_in; [apply order_perm | exact Hk]. }
  apply in_seq in Hk'.
  rewrite nth_firstn.
  destruct (k <? length obs)%nat eqn:E; [reflexivity |].
  apply Nat.ltb_ge in E. lia.
Qed.

(** C4 (amended). For a dataset with 0/1 status and both outputs requested,
    the call raises (IndexError, from the gather [linear_predictor[_order]])
    exactly when the predictor is shorter than the number of observations.
    A predictor that is longer is accepted, and its entries beyond the
    first [n] are ignored.  The call is a function of the preprocessor and
    its arguments only, so a failed call leaves the preprocessor as it
    was. *)
Theorem call_raises_iff_predictor_short
        (obs : list (ftime * Z * Z)) (lp : list R) :
  boolean_status (with_index obs) ->
  let self := preprocess (with_index obs) in
  ((length lp < length obs)%nat /\ call self lp true true = inl IndexError)
  \/ ((length obs <= length lp)%nat /\
      exists res, call self lp true true = inr res /\
                  call self (firstn (length obs) lp) true true = inr res).
Proof.
  intros Hb self.
  destruct (Nat.lt_ge_cases (length lp) (length obs)) as [Hlt | Hge].
  - left. split; [exact Hlt |].
    unfold call, self. rewrite take_order_raises by exact Hlt. reflexivity.
  - right. split; [exact Hge |].
    eexists. split.
    + apply call_ok; assumption.
    + unfold self. rewrite call_ok.
      * rewrite eta_of_firstn. reflexivity.
      * exact Hb.
      * rewrite length_firstn. lia.
Qed.

Lemma scenario_boolean : boolean_status (with_index scenario_obs).
Proof. reflexivity. Qed.

Lemma call_raises_iff_predictor_short_witness :
  boolean_status (with_index scenario_obs) /\
  (let self := preprocess (with_index scenario_obs) in
   ((length [1%R] < length scenario_obs)%nat /\
    call self [1%R] true true = inl IndexError)
   \/ ((length scenario_obs <= length [1%R])%nat /\
       exists res, call self [1%R] true true = inr res /\
                   call self (firstn (length scenario_obs) [1%R]) true true
                   = inr res)).
Proof.
  split; [reflexivity |].
  apply (call_raises_iff_predictor_short scenario_obs [1%R]).
  reflexivity.
Defined.

(** ** Shift invariance *)

Lemma sumR_map_shift (c : R) (l : list R) :
  sumR (map (fun x => x + c)%R l) = (sumR l + INR (length l) * c)%R.
Proof.
  induction l as [| x l IH].
  - simpl. lra.
  - change (sumR (map (fun x => x + c)%R (x :: l)))
      with ((x + c) + sumR (map (fun x => x + c)%R l))%R.
    rewrite IH.
    change (sumR (x :: l)) with (x + sumR l)%R.
    change (length (x :: l)) with (S (length l)).
    rewrite S_INR. lra.
Qed.

Lemma centered_shift (c : R) (l : list R) :
  centered (map (fun x => x + c)%R l) = centered l.
Proof.
  destruct l as [| x0 l0] eqn:El; [reflexivity |].
  rewrite <- El.
  assert (Hn : INR (length l) <> 0%R).
  { apply not_0_INR. subst l. simpl. discriminate. }
  unfold centered. rewrite map_map.
  apply map_ext. intros x.
  unfold mean. rewrite sumR_map_shift, length_map.
  field. exact Hn.
Qed.

Lemma eta_of_shift (obs : list (ftime * Z * Z)) (lp : list R) (c : R) :
  (length obs <= length lp)%nat ->
  let self := preprocess (with_index obs) in
  eta_of self (map (fun x => x + c)%R lp) = eta_of self lp.
Proof.
  intros Hlen self. unfold eta_of.
  rewrite <- (centered_shift c (map (fun k => nth k lp 0%R) (_order self))).
  f_equal. rewrite map_map.
  apply map_ext_in. intros k Hk.
  assert (Hk' : In k (seq 0 (length obs))).
  { eapply Permutation_in; [apply order_perm | exact Hk]. }
  apply in_seq in Hk'.
  rewrite (nth_indep _ 0%R (0 + c)%R) by (rewrite length_map; lia).
  apply (map_nth (fun x => (x + c)%R)).
Qed.

(** C7. For every dataset, every predictor of length [n] and every scalar
    [c], the calls on [lp] and on [lp + c] have the same outcome, whatever
    the flags; for 0/1 status, with both outputs requested, that outcome is
    one and the same result (deviance, gradient and Hessian), exactly, over
    the reals. *)
Theorem call_shift_invariant
        (obs : list (ftime * Z * Z)) (lp : list R) (c : R) :
  length lp = length obs ->
  let self := preprocess (with_index obs) in
  (forall gradient hessian,
     call self (map (fun x => x + c)%R lp) gradient hessian
     = call self lp gradient hessian) /\
  (boolean_status (with_index obs) ->
   exists res,
     call self lp true true = inr res /\
     call self (map (fun x => x + c)%R lp) true true = inr res).
Proof.
  intros Hlen self.
  assert (Hcall : forall gradient hessian,
             call self (map (fun x => x + c)%R lp) gradient hessian
             = call self lp gradient hessian).
  { intros gradient hessian. unfold call, self.
    rewrite !take_order_ok by (rewrite ?length_map; lia).
    cbv beta iota delta [bind].
    pose proof (@eta_of_shift obs lp c) as He. unfold eta_of in He.
    rewrite He by lia. reflexivity. }
  split; [exact Hcall |].
  intros Hb. eexists. split.
  - apply call_ok; [exact Hb | lia].
  - rewrite Hcall. apply call_ok; [exact Hb | lia].
Qed.

Lemma call_shift_invariant_witness :
  length scenario_lp = length scenario_obs /\
  boolean_status (with_index scenario_obs) /\
  (let self := preprocess (with_index scenario_obs) in
   exists res,
     call self scenario_lp true true = inr res /\
     call self (map (fun x => x + 3)%R scenario_lp) true true = inr res).
Proof.
  split; [reflexivity |]. split; [reflexivity |].
  apply (call_shift_invariant scenario_obs scenario_lp 3%R); reflexivity.
Defined.

(** ** Sorted lists, distinct values and runs *)

Lemma StronglySorted_filter {A : Type} (R : A -> A -> Prop) (f : A -> bool)
      (l : list A) :
  StronglySorted R l -> StronglySorted R (filter f l).
Proof.
  induction 1 as [| x l Hs IH Hall]; simpl; [constructor |].
  destruct (f x); [| exact IH].
  constructor; [exact IH |].
  apply Forall_forall. intros y Hy. apply filter_In in Hy.
  rewrite Forall_forall in Hall. apply Hall. tauto.
Qed.

Lemma StronglySorted_map {A B : Type} (R : A -> A -> Prop)
      (R' : B -> B -> Prop) (f : A -> B) (l : list A) :
  (forall a b, R a b -> R' (f a) (f b)) ->
  StronglySorted R l -> StronglySorted R' (map f l).
Proof.
  intros Hf. induction 1 as [| x l Hs IH Hall]; simpl; constructor; auto.
  apply Forall_map. eapply Forall_impl; [| exact Hall].
  intros y Hy. apply Hf. exact Hy.
Qed.

Lemma uniq_from_In (p t : ftime) (ts : list ftime) :
  In t (uniq_from p ts) -> In t ts.
Proof.
  revert p. induction ts as [| y ts IH]; intros p H; simpl in *; [exact H |].
  destruct (time_eqb p y).
  - right. eapply IH. exact H.
  - destruct H as [-> | H]; [left; reflexivity | right; eapply IH; exact H].
Qed.

Lemma uniq_In (t : ftime) (ts : list ftime) : In t (uniq ts) <-> In t ts.
Proof.
  destruct ts as [| x ts]; simpl; [tauto |].
  split.
  - intros [-> | H]; [left; reflexivity | right; eapply uniq_from_In; exact H].
  - intros [-> | H]; [left; reflexivity |].
    destruct (time_eq_dec x t) as [-> | Hne]; [left; reflexivity | right].
    revert x Hne H. induction ts as [| y ts IH]; intros x Hne H;
      simpl in *; [exact H |].
    destruct (time_eqb x y) eqn:E.
    + apply time_eqb_eq in E. subst y.
      destruct H as [-> | H]; [congruence | apply IH; assumption].
    + destruct H as [-> | H]; [left; reflexivity |].
      destruct (time_eq_dec y t) as [-> | Hne']; [left; reflexivity | right].
      apply IH; assumption.
Qed.

Lemma uniq_from_fresh (p : ftime) (ts : list ftime) :
  StronglySorted time_le (p :: ts) ->
  NoDup (uniq_from p ts) /\ ~ In p (uniq_from p ts).
Proof.
  revert p. induction ts as [| y ts IH]; intros p Hs; simpl.
  - split; [constructor | tauto].
  - inversion Hs as [| ? ? Hs' Hall]; subst.
    inversion Hs' as [| ? ? Hs'' Hall']; subst.
    inversion Hall as [| ? ? Hpy Hall'']; subst.
    destruct (time_eqb p y) eqn:E.
    + apply IH. constructor; assumption.
    + apply time_eqb_neq in E.
      destruct (IH y Hs') as [Hnd Hnin].
      split.
      * constructor; assumption.
      * intros [Heq | Hin]; [congruence |].
        apply uniq_from_In in Hin.
        rewrite Forall_forall in Hall'.
        specialize (Hall' p Hin).
        apply E. apply time_leb_antisym; assumption.
Qed.

Lemma uniq_NoDup (ts : list ftime) :
  StronglySorted time_le ts -> NoDup (uniq ts).
Proof.
  destruct ts as [| x ts]; simpl; intros Hs; [constructor |].
  destruct (uniq_from_fresh Hs) as [Hnd Hnin].
  constructor; assumption.
Qed.

Lemma runs_head (t : ftime) (i : nat) (l : list (ftime * nat)) :
  exists c rest, runs ((t, i) :: l) = (t, i, c) :: rest.
Proof.
  simpl. destruct (runs l) as [| [[t' i'] c'] rest]; [eauto |].
  destruct (time_eqb t t'); eauto.
Qed.

Lemma first_pos_cons_neq (t t0 : ftime) (i0 : nat) (l : list (ftime * nat)) :
  t0 <> t -> first_pos t ((t0, i0) :: l) = first_pos t l.
Proof.
  intros H. unfold first_pos. simpl.
  apply time_eqb_neq in H. rewrite H. reflexivity.
Qed.

Lemma cnt_cons_neq (t t0 : ftime) (i0 : nat) (l : list (ftime * nat)) :
  t0 <> t -> cnt t ((t0, i0) :: l) = cnt t l.
Proof.
  intros H. unfold cnt. simpl.
  apply time_eqb_neq in H. rewrite H. reflexivity.
Qed.

Lemma cnt_cons_eq (t : ftime) (i0 : nat) (l : list (ftime * nat)) :
  cnt t ((t, i0) :: l) = S (cnt t l).
Proof. unfold cnt. simpl. rewrite time_eqb_refl. reflexivity. Qed.

Lemma first_pos_cons_eq (t : ftime) (i0 : nat) (l : list (ftime * nat)) :
  first_pos t ((t, i0) :: l) = i0.
Proof. unfold first_pos. simpl. rewrite time_eqb_refl. reflexivity. Qed.

Lemma cnt_zero (t : ftime) (l : list (ftime * nat)) :
  ~ In t (map fst l) -> cnt t l = O.
Proof.
  intros H. unfold cnt.
  induction l as [| [t0 i0] l IH]; simpl; [reflexivity |].
  destruct (time_eqb t0 t) eqn:E.
  - apply time_eqb_eq in E. subst. exfalso. apply H. left. reflexivity.
  - apply IH. intros Hin. apply H. right. exact Hin.
Qed.

(** The runs of a list sorted by value: one entry per distinct value, with
    the position attached to its first occurrence and its number of
    occurrences. *)
Lemma runs_sorted (l : list (ftime * nat)) :
  StronglySorted fst_le l ->
  runs l = map (fun t => (t, first_pos t l, cnt t l)) (uniq (map fst l)).
Proof.
  induction 1 as [| [t0 i0] l Hs IH Hall]; [reflexivity |].
  destruct l as [| [t1 i1] l'].
  - simpl. rewrite first_pos_cons_eq, cnt_cons_eq. reflexivity.
  - assert (Hts : StronglySorted time_le (map fst ((t0, i0) :: (t1, i1) :: l'))).
    { apply StronglySorted_map with (R := fst_le); [auto |].
      constructor; assumption. }
    change (runs ((t0, i0) :: (t1, i1) :: l'))
      with (match runs ((t1, i1) :: l') with
            | (t', i', c) :: rest =>
                if time_eqb t0 t' then (t0, i0, S c) :: rest
                else (t0, i0, 1%nat) :: (t', i', c) :: rest
            | [] => [(t0, i0, 1%nat)]
            end).
    rewrite IH. clear IH.
    change (uniq (map fst ((t1, i1) :: l')))
      with (t1 :: uniq_from t1 (map fst l')).
    change (uniq (map fst ((t0, i0) :: (t1, i1) :: l')))
      with (t0 :: uniq_from t0 (t1 :: map fst l')).
    cbn [map uniq_from].
    destruct (time_eqb t0 t1) eqn:E.
    + apply time_eqb_eq in E. subst t1.
      rewrite first_pos_cons_eq, !cnt_cons_eq. f_equal.
      apply map_ext_in. intros t Ht.
      assert (Hne : t0 <> t).
      { simpl in Hts. inversion Hts as [| ? ? Hs' _]; subst.
        destruct (uniq_from_fresh Hs') as [_ Hnin].
        intros ->. contradiction. }
      rewrite !first_pos_cons_neq, !cnt_cons_neq by exact Hne.
      reflexivity.
    + apply time_eqb_neq in E.
      assert (Hfresh : forall t, In t (map fst ((t1, i1) :: l')) -> t0 <> t).
      { intros t Ht Heq. subst t.
        simpl in Hts.
        inversion Hts as [| ? ? Hs' Hall0]; subst.
        inversion Hs' as [| ? ? _ Hall1]; subst.
        inversion Hall0 as [| ? ? H01 _]; subst.
        simpl in *.
        destruct Ht as [Ht | Ht]; [congruence |].
        rewrite Forall_forall in Hall1. specialize (Hall1 t0 Ht).
        apply E. apply time_leb_antisym; assumption. }
      rewrite (first_pos_cons_eq t0 i0), (cnt_cons_eq t0 i0).
      rewrite (cnt_zero t0 ((t1, i1) :: l')).
      2:{ intros Hin. exact (Hfresh t0 Hin eq_refl). }
      f_equal.
      assert (Hext : forall t, In t (map fst ((t1, i1) :: l')) ->
                (t, first_pos t ((t0, i0) :: (t1, i1) :: l'),
                 cnt t ((t0, i0) :: (t1, i1) :: l'))
                = (t, first_pos t ((t1, i1) :: l'), cnt t ((t1, i1) :: l'))).
      { intros t Ht.
        rewrite (@first_pos_cons_neq t t0 i0), (@cnt_cons_neq t t0 i0)
          by (apply Hfresh; exact Ht).
        reflexivity. }
      cbn [map]. f_equal.
      * symmetry. apply Hext. left. reflexivity.
      * apply map_ext_in. intros t Ht. symmetry. apply Hext.
        right. eapply uniq_from_In. exact Ht.
Qed.

Lemma runs_relabel (f : nat -> nat) (l : list (ftime * nat)) :
  runs (map (fun p => (fst p, f (snd p))) l)
  = map (fun e => (fst (fst e), f (snd (fst e)), snd e)) (runs l).
Proof.
  induction l as [| [t i] l IH]; [reflexivity |].
  cbn [map runs fst snd]. rewrite IH.
  destruct (runs l) as [| [[t' i'] c] rest]; [reflexivity |].
  cbn [map fst snd]. destruct (time_eqb t t'); reflexivity.
Qed.

Lemma mask_select_map_comm {A B : Type} (f : A -> B) (mask : list bool)
      (l : list A) :
  mask_select mask (map f l) = map f (mask_select mask l).
Proof.
  revert l. induction mask as [| b mask IH]; intros [| x l]; simpl; auto.
  destruct b; rewrite IH; reflexivity.
Qed.

Lemma map_nth_seq {A : Type} (d : A) (l : list A) :
  map (fun i => nth i l d) (seq 0 (length l)) = l.
Proof.
  induction l as [| x l IH]; [reflexivity |].
  cbn [length seq map nth]. f_equal.
  rewrite <- seq_shift, map_map. exact IH.
Qed.

Lemma combine_map_r {A B C : Type} (g : B -> C) (ts : list A) (js : list B) :
  combine ts (map g js) = map (fun p => (fst p, g (snd p))) (combine ts js).
Proof.
  revert js. induction ts as [| t ts IH]; intros [| j js]; simpl; auto.
  rewrite IH. reflexivity.
Qed.

Lemma combine_fst_snd {A B : Type} (l : list (A * B)) :
  combine (map fst l) (map snd l) = l.
Proof.
  induction l as [| [a b] l IH]; simpl; [reflexivity |].
  rewrite IH. reflexivity.
Qed.

Lemma ev_list_fst (k : nat) (dat : list Row) :
  map fst (ev_list k dat) = map event_time (filter is_event dat).
Proof.
  revert k. induction dat as [| r dat IH]; intros k; simpl; [reflexivity |].
  destruct (is_event r); simpl; rewrite IH; reflexivity.
Qed.

Lemma ev_list_snd (k : nat) (dat : list Row) :
  map snd (ev_list k dat)
  = mask_select (map is_event dat) (seq k (length dat)).
Proof.
  revert k. induction dat as [| r dat IH]; intros k; simpl; [reflexivity |].
  destruct (is_event r); simpl; rewrite IH; reflexivity.
Qed.

Lemma combine_sorted {B : Type} (ts : list ftime) (js : list B) :
  StronglySorted time_le ts ->
  StronglySorted (fun a b : ftime * B => time_le (fst a) (fst b))
                 (combine ts js).
Proof.
  intros Hs. revert js.
  induction Hs as [| t ts Hs IH Hall]; intros [| j js]; simpl;
    try constructor; auto.
  apply Forall_forall. intros [t' j'] Hin. simpl.
  apply in_combine_l in Hin.
  rewrite Forall_forall in Hall. apply Hall. exact Hin.
Qed.

Lemma row_leb_time (a b : Row) :
  row_leb a b = true -> time_le (event_time a) (event_time b).
Proof. intros H. apply row_leb_iff in H. apply H. Qed.

Lemma event_times_sorted (dat : list Row) :
  row_sorted dat ->
  StronglySorted time_le (map event_time (filter is_event dat)).
Proof.
  intros Hs.
  apply StronglySorted_map with (R := fun a b => row_leb a b = true).
  - apply row_leb_time.
  - apply StronglySorted_filter. exact Hs.
Qed.

Lemma ev_list_sorted (k : nat) (dat : list Row) :
  row_sorted dat -> StronglySorted fst_le (ev_list k dat).
Proof.
  intros Hs. rewrite <- (combine_fst_snd (ev_list k dat)).
  apply combine_sorted. rewrite ev_list_fst.
  apply event_times_sorted. exact Hs.
Qed.

Lemma length_events_index (dat : list Row) (k : nat) :
  length (mask_select (map is_event dat) (seq k (length dat)))
  = length (map event_time (filter is_event dat)).
Proof.
  rewrite <- ev_list_snd, <- (ev_list_fst k), !length_map. reflexivity.
Qed.

Lemma np_unique_sorted (times : list ftime) :
  StronglySorted time_le times ->
  np_unique times = runs (combine times (seq 0 (length times))).
Proof.
  intros Hs. unfold np_unique. f_equal.
  apply stable_sort_id. apply combine_sorted. exact Hs.
Qed.

Lemma events_mask_eq (dat : list Row) : events_mask dat = map is_event dat.
Proof. reflexivity. Qed.

(** The first positions that [_fid] returns for a sorted frame. *)
Lemma fid_first (dat : list Row) :
  row_sorted dat ->
  fst (fid_of dat)
  = map (fun t => first_pos t (ev_list 0 dat)) (event_times dat).
Proof.
  intros Hs. unfold fid_of, _fid. cbn [fst].
  rewrite events_mask_eq, mask_select_map.
  set (times := map event_time (filter is_event dat)).
  set (idx := mask_select (map is_event dat) (seq 0 (length dat))).
  assert (Hlen : length idx = length times) by apply length_events_index.
  assert (Hts : StronglySorted time_le times) by (apply event_times_sorted; exact Hs).
  rewrite np_unique_sorted by exact Hts.
  assert (Hev : ev_list 0 dat
                = map (fun p => (fst p, nth (snd p) idx 0%nat))
                      (combine times (seq 0 (length times)))).
  { rewrite <- (combine_map_r (fun i => nth i idx 0%nat)), <- Hlen, map_nth_seq.
    unfold times, idx. rewrite <- ev_list_fst with (k := 0%nat), <- ev_list_snd.
    symmetry. apply combine_fst_snd. }
  transitivity (map (fun e : ftime * nat * nat => snd (fst e))
                    (runs (ev_list 0 dat))).
  - rewrite Hev, (runs_relabel (fun i => nth i idx 0%nat)), map_map.
    reflexivity.
  - rewrite (runs_sorted (ev_list_sorted 0 Hs)), map_map.
    rewrite ev_list_fst. reflexivity.
Qed.

Section FindIndex.
Context {A : Type} (f : A -> bool) (d : A).

Lemma find_index_spec (l : list A) :
  existsb f l = true ->
  (find_index f l < length l)%nat /\
  f (nth (find_index f l) l d) = true /\
  forall j, (j < find_index f l)%nat -> f (nth j l d) = false.
Proof.
  induction l as [| x l IH]; simpl; [discriminate |].
  destruct (f x) eqn:E; simpl.
  - intros _. repeat split; [lia | exact E | intros j Hj; lia].
  - intros H. destruct (IH H) as (H1 & H2 & H3).
    repeat split; [lia | exact H2 |].
    intros [| j] Hj; [exact E | apply H3; lia].
Qed.

Lemma find_index_unique (l : list A) (p : nat) :
  (p < length l)%nat ->
  f (nth p l d) = true ->
  (forall j, (j < p)%nat -> f (nth j l d) = false) ->
  find_index f l = p.
Proof.
  revert p. induction l as [| x l IH]; intros p Hp Hf Hlt; simpl in *;
    [lia |].
  destruct p as [| p].
  - rewrite Hf. reflexivity.
  - rewrite (Hlt 0%nat) by lia. f_equal.
    apply IH; [lia | exact Hf |].
    intros j Hj. apply (Hlt (S j)). lia.
Qed.

Lemma existsb_nth_true (l : list A) (p : nat) :
  (p < length l)%nat -> f (nth p l d) = true -> existsb f l = true.
Proof.
  intros Hp Hf. apply existsb_exists. exists (nth p l d).
  split; [apply nth_In; exact Hp | exact Hf].
Qed.
End FindIndex.

Lemma same_event_iff (t : ftime) (r : Row) :
  same_event t r = true <-> status r = 1%Z /\ event_time r = t.
Proof.
  unfold same_event, is_event.
  rewrite andb_true_iff, Z.eqb_eq, time_eqb_eq. tauto.
Qed.

Lemma same_event_own (r : Row) :
  same_event (event_time r) r = is_event r.
Proof.
  unfold same_event. rewrite time_eqb_refl. apply andb_true_r.
Qed.

Lemma event_times_In (dat : list Row) (t : ftime) :
  In t (event_times dat) <-> existsb (same_event t) dat = true.
Proof.
  unfold event_times. rewrite uniq_In, in_map_iff, existsb_exists.
  split.
  - intros [r [Ht Hr]]. apply filter_In in Hr. destruct Hr as [Hin He].
    exists r. split; [exact Hin |].
    unfold same_event. rewrite He, Ht. apply time_eqb_refl.
  - intros [r [Hin Hr]]. unfold same_event in Hr.
    apply andb_true_iff in Hr. destruct Hr as [He Ht].
    apply time_eqb_eq in Ht.
    exists r. split; [exact Ht |]. apply filter_In. tauto.
Qed.

Lemma first_pos_ev_list (t : ftime) (dat : list Row) (k : nat) :
  existsb (same_event t) dat = true ->
  first_pos t (ev_list k dat) = (k + find_index (same_event t) dat)%nat.
Proof.
  revert k. induction dat as [| r dat IH]; intros k; simpl; [discriminate |].
  unfold same_event at 1 3.
  destruct (is_event r) eqn:Er; simpl.
  - destruct (time_eqb (event_time r) t) eqn:Et; simpl.
    + intros _. unfold first_pos. simpl. rewrite Et. simpl. lia.
    + intros H. unfold first_pos in *. simpl. rewrite Et.
      rewrite IH by exact H. lia.
  - intros H. rewrite IH by exact H. lia.
Qed.

(** The first positions in terms of the frame alone. *)
Lemma fid_first_index (dat : list Row) :
  row_sorted dat ->
  fst (fid_of dat)
  = map (fun t => find_index (same_event t) dat) (event_times dat).
Proof.
  intros Hs. rewrite fid_first by exact Hs.
  apply map_ext_in. intros t Ht.
  apply event_times_In in Ht.
  rewrite first_pos_ev_list by exact Ht. reflexivity.
Qed.

Lemma event_times_NoDup (dat : list Row) :
  row_sorted dat -> NoDup (event_times dat).
Proof.
  intros Hs. apply uniq_NoDup. apply event_times_sorted. exact Hs.
Qed.

Lemma first_index_row (dat : list Row) (t : ftime) :
  In t (event_times dat) ->
  (find_index (same_event t) dat < length dat)%nat /\
  status (row_at dat (find_index (same_event t) dat)) = 1%Z /\
  event_time (row_at dat (find_index (same_event t) dat)) = t.
Proof.
  intros Ht. apply event_times_In in Ht.
  destruct (find_index_spec (same_event t) no_row dat Ht) as (H1 & H2 & _).
  apply same_event_iff in H2. unfold row_at. tauto.
Qed.

Lemma fid_first_NoDup (dat : list Row) :
  row_sorted dat -> NoDup (fst (fid_of dat)).
Proof.
  intros Hs. rewrite fid_first_index by exact Hs.
  apply NoDup_map_NoDup_ForallPairs.
  - intros t t' Ht Ht' Heq.
    destruct (first_index_row dat t Ht) as (_ & _ & H1).
    destruct (first_index_row dat t' Ht') as (_ & _ & H2).
    rewrite Heq in H1. congruence.
  - apply event_times_NoDup. exact Hs.
Qed.

(** Membership in the first positions: an event row with no earlier event
    row at the same time. *)
Lemma fid_first_In (dat : list Row) (p : nat) :
  row_sorted dat ->
  In p (fst (fid_of dat)) <->
  (p < length dat)%nat /\
  status (row_at dat p) = 1%Z /\
  forall j, (j < p)%nat ->
            ~ (status (row_at dat j) = 1%Z /\
               event_time (row_at dat j) = event_time (row_at dat p)).
Proof.
  intros Hs. rewrite fid_first_index by exact Hs.
  rewrite in_map_iff. split.
  - intros [t [Hp Ht]]. apply event_times_In in Ht.
    destruct (find_index_spec (same_event t) no_row dat Ht) as (H1 & H2 & H3).
    rewrite Hp in *. apply same_event_iff in H2. destruct H2 as [H2 H2'].
    repeat split; try assumption.
    intros j Hj Hsame. specialize (H3 j Hj).
    fold (row_at dat p) in H2'. rewrite H2' in Hsame.
    apply same_event_iff in Hsame. unfold row_at in Hsame. congruence.
  - intros (Hp & Hst & Hfirst).
    exists (event_time (row_at dat p)).
    assert (Hsame : same_event (event_time (row_at dat p)) (nth p dat no_row) = true).
    { apply same_event_iff. split; [exact Hst | reflexivity]. }
    split.
    + apply find_index_unique with (d := no_row); try assumption.
      intros j Hj. specialize (Hfirst j Hj).
      destruct (same_event (event_time (row_at dat p)) (nth j dat no_row)) eqn:E;
        [| reflexivity].
      apply same_event_iff in E. contradiction.
    + apply event_times_In.
      eapply existsb_nth_true; eassumption.
Qed.

(** ** Indexed assignment *)

Section SetItems.
Context {A : Type} (d : A).

Lemma set_items_notin (p : nat) (ks : list nat) (vs a : list A) :
  ~ In p ks -> nth p (set_items a ks vs) d = nth p a d.
Proof.
  revert vs a. induction ks as [| k ks IH]; intros [| v vs] a Hnin;
    simpl; try reflexivity.
  rewrite IH by (intros H; apply Hnin; right; exact H).
  apply nth_set_nth_neq. intros ->. apply Hnin. left. reflexivity.
Qed.

Lemma set_items_map {T : Type} (f : T -> nat) (g : T -> A) (U : list T)
      (a : list A) (t : T) :
  NoDup (map f U) ->
  (forall u, In u U -> (f u < length a)%nat) ->
  In t U ->
  nth (f t) (set_items a (map f U) (map g U)) d = g t.
Proof.
  revert a. induction U as [| u U IH]; intros a Hnd Hlt Hin; [contradiction |].
  cbn [map set_items]. inversion Hnd as [| ? ? Hnin Hnd']; subst.
  destruct Hin as [-> | Hin].
  - rewrite set_items_notin by exact Hnin.
    apply nth_set_nth_eq. apply Hlt. left. reflexivity.
  - apply IH; [exact Hnd' | | exact Hin].
    intros u' Hu'. rewrite length_set_nth. apply Hlt. right. exact Hu'.
Qed.

Lemma fold_set_const_nth (p : nat) (vs : list (list nat)) (z : A)
      (a : list A) :
  (p < length a)%nat ->
  nth p (fold_left (fun de v => set_const de v z) vs a) d
  = if existsb (fun v => if in_dec Nat.eq_dec p v then true else false) vs
    then z else nth p a d.
Proof.
  revert a. induction vs as [| v vs IH]; intros a Hp; [reflexivity |].
  cbn [fold_left existsb].
  rewrite IH by (rewrite length_set_const; exact Hp).
  rewrite nth_set_const by exact Hp.
  destruct (existsb (fun v0 => if in_dec Nat.eq_dec p v0 then true else false) vs);
    destruct (in_dec Nat.eq_dec p v); reflexivity.
Qed.
End SetItems.

Lemma filter_filter {A : Type} (f g : A -> bool) (l : list A) :
  filter f (filter g l) = filter (fun x => g x && f x) l.
Proof.
  induction l as [| x l IH]; simpl; [reflexivity |].
  destruct (g x); simpl; [destruct (f x) |]; rewrite IH; reflexivity.
Qed.

(** [_weight_sum] of a sorted frame: one aggregated weight per distinct
    event time, in ascending order of time. *)
Lemma weight_sum_sorted (dat : list Row) :
  row_sorted dat ->
  weight_sum_of dat = map (fun t => (t, agg_weight dat t)) (event_times dat).
Proof.
  intros Hs. unfold weight_sum_of, groupby_sum.
  rewrite events_mask_eq, mask_select_map.
  rewrite stable_sort_id by (apply event_times_sorted; exact Hs).
  apply map_ext. intros t. unfold agg_weight.
  rewrite filter_filter. reflexivity.
Qed.

Lemma length_first_idx_weight_sum (dat : list Row) :
  row_sorted dat ->
  length (fst (fid_of dat)) = length (weight_sum_of dat).
Proof.
  intros Hs. rewrite fid_first_index, weight_sum_sorted by exact Hs.
  rewrite !length_map. reflexivity.
Qed.

(** ** Derived weights *)

Lemma nth_map_row {B : Type} (f : Row -> B) (dat : list Row) (p : nat) :
  nth p (map f dat) (f no_row) = f (row_at dat p).
Proof. unfold row_at. apply map_nth. Qed.

Lemma derived_weight_first (df : list Row) (p : nat) :
  let dat := data (preprocess df) in
  first_of_group dat p -> (p < length df)%nat ->
  nth p (_derived_weight (preprocess df)) 0%Z
  = agg_weight dat (event_time (row_at dat p)).
Proof.
  intros dat [Hst Hfirst] Hp.
  assert (Hs : row_sorted dat) by apply sort_values_sorted.
  assert (Hin : In p (fst (fid_of dat))).
  { apply fid_first_In; [exact Hs |].
    unfold dat. rewrite length_data. auto. }
  cbn [_derived_weight preprocess]. fold dat.
  rewrite fid_first_index in Hin |- * by exact Hs.
  rewrite weight_sum_sorted by exact Hs.
  rewrite map_map. cbn [snd].
  apply in_map_iff in Hin. destruct Hin as [t [Hpt Ht]].
  destruct (first_index_row dat t Ht) as (_ & _ & Htime).
  rewrite <- Hpt at 2. rewrite Htime. rewrite <- Hpt.
  apply set_items_map with (f := fun t => find_index (same_event t) dat)
                           (g := agg_weight dat).
  - rewrite <- fid_first_index by exact Hs. apply fid_first_NoDup. exact Hs.
  - intros u Hu. rewrite length_map.
    apply (first_index_row dat u Hu).
  - exact Ht.
Qed.

Lemma derived_weight_other (df : list Row) (p : nat) :
  let dat := data (preprocess df) in
  ~ first_of_group dat p ->
  nth p (_derived_weight (preprocess df)) 0%Z = sample_weight (row_at dat p).
Proof.
  intros dat Hnot.
  assert (Hs : row_sorted dat) by apply sort_values_sorted.
  cbn [_derived_weight preprocess]. fold dat.
  rewrite set_items_notin.
  - apply (nth_map_row sample_weight).
  - intros Hin. apply fid_first_In in Hin; [| exact Hs].
    apply Hnot. unfold first_of_group. tauto.
Qed.

(** C2 as stated fails: two tied events with unit weights get the derived
    weights 2 and 1, which add up to 3, not to 2. *)
Lemma tie_weight_not_conserved :
  exists self,
    post_init [rat 7 1; rat 7 1] [1%Z; 1%Z] None = inr self /\
    ~ tie_weight_conservation_claim self (rat 7 1).
Proof.
  eexists. split; [reflexivity |].
  unfold tie_weight_conservation_claim. vm_compute. discriminate.
Qed.

(** C2 (amended). For every dataset and every sorted position [p]: when [p]
    is the first position of a tie group (of any size, up to the whole
    dataset), the derived weight at [p] is the sum of the sample weights of
    the group's members; at every other position, the remaining members of
    a tie group included, the derived weight is the raw sample weight. *)
Theorem derived_weight_at (obs : list (ftime * Z * Z)) (p : nat) :
  (p < length obs)%nat ->
  let self := preprocess (with_index obs) in
  let dat := data self in
  (first_of_group dat p ->
   nth p (_derived_weight self) 0%Z
   = sumZ (map sample_weight
               (filter (same_event (event_time (row_at dat p))) dat))) /\
  (~ first_of_group dat p ->
   nth p (_derived_weight self) 0%Z = sample_weight (row_at dat p)).
Proof.
  intros Hp self dat. split.
  - intros Hf. apply derived_weight_first; [exact Hf |].
    rewrite length_with_index. exact Hp.
  - apply derived_weight_other.
Qed.

Lemma scenario_first_at_5 :
  first_of_group (data (preprocess (with_index scenario_obs))) 5.
Proof.
  assert (Hin : In 5%nat
                   (fst (fid_of (data (preprocess (with_index scenario_obs))))))
    by (vm_compute; tauto).
  apply fid_first_In in Hin; [| apply sort_values_sorted].
  unfold first_of_group. tauto.
Qed.

Lemma derived_weight_at_witness :
  (5 < length scenario_obs)%nat /\
  first_of_group (data (preprocess (with_index scenario_obs))) 5 /\
  nth 5 (_derived_weight (preprocess (with_index scenario_obs))) 0%Z
  = sumZ (map sample_weight
              (filter (same_event
                         (event_time
                            (row_at (data (preprocess (with_index scenario_obs)))
                                    5)))
                      (data (preprocess (with_index scenario_obs))))).
Proof.
  assert (H5 : (5 < length scenario_obs)%nat) by (vm_compute; lia).
  split; [exact H5 |]. split; [exact scenario_first_at_5 |].
  apply (derived_weight_at scenario_obs H5). exact scenario_first_at_5.
Defined.

(** ** Ties and derived events *)

Lemma mask_select_In {A : Type} (f : A -> bool) (d : A) (l : list A)
      (k p : nat) :
  In p (mask_select (map f l) (seq k (length l))) <->
  (k <= p < k + length l)%nat /\ f (nth (p - k) l d) = true.
Proof.
  revert k. induction l as [| x l IH]; intros k; simpl.
  - split; [contradiction | lia].
  - assert (Hstep : In p (mask_select (map f l) (seq (S k) (length l))) <->
                    (S k <= p < k + S (length l))%nat /\
                    f (nth (p - k) (x :: l) d) = true).
    { rewrite IH. split; intros [H1 H2]; (split; [lia |]).
      - destruct (p - k)%nat as [| m] eqn:E; [lia |].
        replace m with (p - S k)%nat by lia. exact H2.
      - destruct (p - k)%nat as [| m] eqn:E; [lia |].
        replace (p - S k)%nat with m by lia. exact H2. }
    destruct (f x) eqn:E.
    + simpl. rewrite Hstep. split.
      * intros [<- | [H1 H2]].
        -- split; [lia |]. rewrite Nat.sub_diag. exact E.
        -- split; [lia | exact H2].
      * intros [H1 H2]. destruct (Nat.eq_dec k p) as [-> | Hne];
          [left; reflexivity | right].
        split; [lia | exact H2].
    + rewrite Hstep. split.
      * intros [H1 H2]. split; [lia | exact H2].
      * intros [H1 H2]. split; [| exact H2].
        destruct (Nat.eq_dec k p) as [-> | Hne]; [| lia].
        rewrite Nat.sub_diag in H2. simpl in H2. congruence.
Qed.

Lemma group_positions_In (dat : list Row) (t : ftime) (p : nat) :
  In p (group_positions dat t) <->
  (p < length dat)%nat /\ same_event t (row_at dat p) = true.
Proof.
  unfold group_positions, nonzero. rewrite length_map.
  rewrite (mask_select_In (same_event t) no_row dat 0 p).
  rewrite Nat.sub_0_r. unfold row_at. split; intros [H1 H2]; split;
    try lia; exact H2.
Qed.

Lemma events_of_time_positions (t : ftime) (dat : list Row) (k : nat) :
  mask_select (map (fun x => time_eqb x t)
                   (map event_time (filter is_event dat)))
              (mask_select (map is_event dat) (seq k (length dat)))
  = mask_select (map (same_event t) dat) (seq k (length dat)).
Proof.
  revert k. induction dat as [| r dat IH]; intros k; simpl; [reflexivity |].
  unfold same_event at 1.
  destruct (is_event r); simpl.
  - destruct (time_eqb (event_time r) t); rewrite IH; reflexivity.
  - apply IH.
Qed.

Lemma events_of_time_count (t : ftime) (dat : list Row) :
  length (filter (fun x => time_eqb x t)
                 (map event_time (filter is_event dat)))
  = length (filter (same_event t) dat).
Proof.
  induction dat as [| r dat IH]; simpl; [reflexivity |].
  unfold same_event at 1.
  destruct (is_event r); simpl.
  - destruct (time_eqb (event_time r) t); simpl; rewrite IH; reflexivity.
  - exact IH.
Qed.

Lemma cnt_combine {B : Type} (t : ftime) (ts : list ftime) (js : list nat) :
  length js = length ts ->
  cnt t (combine ts js) = length (filter (fun x => time_eqb x t) ts).
Proof.
  unfold cnt. revert js.
  induction ts as [| x ts IH]; intros [| j js] H; simpl in *;
    try discriminate; [reflexivity |].
  destruct (time_eqb x t); simpl; rewrite IH by lia; reflexivity.
Qed.

Lemma map_fst_combine_l {B C : Type} (l : list B) (js : list C) :
  length js = length l -> map fst (combine l js) = l.
Proof.
  revert js. induction l as [| x l IH]; intros [| j js] H; simpl in *;
    try discriminate; [reflexivity |].
  rewrite IH by lia. reflexivity.
Qed.

Lemma map_flat_map {A B C : Type} (h : B -> C) (f : A -> list B)
      (l : list A) :
  map h (flat_map f l) = flat_map (fun x => map h (f x)) l.
Proof.
  induction l as [| x l IH]; simpl; [reflexivity |].
  rewrite map_app, IH. reflexivity.
Qed.

Lemma flat_map_map {A B C : Type} (g : A -> B) (f : B -> list C)
      (l : list A) :
  flat_map f (map g l) = flat_map (fun x => f (g x)) l.
Proof.
  induction l as [| x l IH]; simpl; [reflexivity |].
  rewrite IH. reflexivity.
Qed.

(** The tie groups that [_fid] returns for a sorted frame: the positions of
    the members of every group with at least two members. *)
Lemma fid_ties (dat : list Row) :
  row_sorted dat ->
  map snd (snd (fid_of dat))
  = flat_map (fun t =>
                if (1 <? length (filter (same_event t) dat))%nat
                then [group_positions dat t] else [])
             (event_times dat).
Proof.
  intros Hs. unfold fid_of, _fid. cbn [snd].
  rewrite events_mask_eq, mask_select_map.
  set (times := map event_time (filter is_event dat)).
  set (idx := mask_select (map is_event dat) (seq 0 (length dat))).
  assert (Hlen : length idx = length times) by apply length_events_index.
  assert (Hts : StronglySorted time_le times)
    by (apply event_times_sorted; exact Hs).
  rewrite np_unique_sorted by exact Hts.
  rewrite (runs_sorted (l := combine times (seq 0 (length times))))
    by (apply combine_sorted; exact Hts).
  rewrite map_fst_combine_l by apply length_seq.
  rewrite flat_map_map, map_flat_map. cbn [fst snd].
  unfold event_times. fold times.
  apply flat_map_ext. intros t.
  rewrite (@cnt_combine nat) by apply length_seq.
  unfold times at 1. rewrite events_of_time_count.
  destruct (1 <? length (filter (same_event t) dat))%nat; [| reflexivity].
  cbn [map snd]. f_equal.
  unfold nonzero. rewrite length_map.
  rewrite <- mask_select_map_comm.
  rewrite <- Hlen, map_nth_seq.
  unfold times, idx, group_positions, nonzero.
  rewrite events_of_time_positions, length_map. reflexivity.
Qed.

Lemma filter_nonempty {A : Type} (f : A -> bool) (l : list A) (x : A) :
  In x l -> f x = true -> (1 <= length (filter f l))%nat.
Proof.
  intros Hin Hf.
  assert (H : In x (filter f l)) by (apply filter_In; tauto).
  destruct (filter f l); [contradiction | simpl; lia].
Qed.

Lemma filter_two {A : Type} (f : A -> bool) (d : A) (l : list A) (j p : nat) :
  (j < p < length l)%nat ->
  f (nth j l d) = true -> f (nth p l d) = true ->
  (1 < length (filter f l))%nat.
Proof.
  revert j p. induction l as [| x l IH]; intros j p Hjp Hj Hp;
    simpl in *; [lia |].
  destruct p as [| p]; [lia |].
  destruct j as [| j].
  - rewrite Hj. simpl.
    assert (1 <= length (filter f l))%nat; [| lia].
    apply filter_nonempty with (x := nth p l d); [| exact Hp].
    apply nth_In. lia.
  - assert (1 < length (filter f l))%nat
      by (apply (IH j p); [lia | assumption | assumption]).
    destruct (f x); simpl; lia.
Qed.

Lemma derived_events_nth (df : list Row) (p : nat) :
  (p < length df)%nat ->
  let dat := data (preprocess df) in
  nth p (_derived_events (preprocess df)) 0%Z
  = if in_dec Nat.eq_dec p (fst (fid_of dat)) then 1%Z
    else if existsb (fun v => if in_dec Nat.eq_dec p v then true else false)
                    (map snd (snd (fid_of dat)))
         then 0%Z
         else status (row_at dat p).
Proof.
  intros Hp dat. subst dat. cbn [data _derived_events preprocess].
  set (dat := sort_values df).
  assert (Hlen : length (map status dat) = length df).
  { rewrite length_map. apply length_sort_values. }
  rewrite nth_set_const by (rewrite length_fold_set_const, Hlen; exact Hp).
  destruct (in_dec Nat.eq_dec p (fst (fid_of dat))); [reflexivity |].
  rewrite fold_set_const_nth by (rewrite Hlen; exact Hp).
  rewrite (nth_map_row status). reflexivity.
Qed.

Lemma in_tie_iff (dat : list Row) (p : nat) :
  row_sorted dat ->
  existsb (fun v => if in_dec Nat.eq_dec p v then true else false)
          (map snd (snd (fid_of dat))) = true <->
  (p < length dat)%nat /\ status (row_at dat p) = 1%Z /\
  (1 < length (filter (same_event (event_time (row_at dat p))) dat))%nat.
Proof.
  intros Hs. rewrite fid_ties by exact Hs.
  rewrite existsb_exists. split.
  - intros [v [Hv Hpv]].
    destruct (in_dec Nat.eq_dec p v) as [Hin | ]; [| discriminate].
    apply in_flat_map in Hv. destruct Hv as [t [Ht Hv]].
    destruct (1 <? length (filter (same_event t) dat))%nat eqn:E;
      [| contradiction].
    destruct Hv as [<- | []].
    apply group_positions_In in Hin. destruct Hin as [Hlt Hsame].
    apply same_event_iff in Hsame. destruct Hsame as [Hst Htime].
    rewrite Htime. apply Nat.ltb_lt in E. tauto.
  - intros (Hlt & Hst & Hcount).
    set (t := event_time (row_at dat p)) in *.
    assert (Hsame : same_event t (row_at dat p) = true)
      by (apply same_event_iff; split; [exact Hst | reflexivity]).
    exists (group_positions dat t). split.
    + apply in_flat_map. exists t. split.
      * apply event_times_In.
        apply existsb_nth_true with (d := no_row) (p := p); assumption.
      * apply Nat.ltb_lt in Hcount. rewrite Hcount. left. reflexivity.
    + destruct (in_dec Nat.eq_dec p (group_positions dat t)) as [| Hn];
        [reflexivity |].
      exfalso. apply Hn. apply group_positions_In. tauto.
Qed.

Lemma not_first_earlier (dat : list Row) (p : nat) :
  (p < length dat)%nat ->
  status (row_at dat p) = 1%Z ->
  ~ first_of_group dat p ->
  exists j, (j < p)%nat /\ status (row_at dat j) = 1%Z /\
            event_time (row_at dat j) = event_time (row_at dat p).
Proof.
  intros Hp Hst Hnot.
  set (t := event_time (row_at dat p)).
  assert (Hsame : same_event t (nth p dat no_row) = true)
    by (apply same_event_iff; split; [exact Hst | reflexivity]).
  assert (Hex : existsb (same_event t) dat = true)
    by (eapply existsb_nth_true; eassumption).
  destruct (find_index_spec (same_event t) no_row dat Hex) as (H1 & H2 & H3).
  destruct (Nat.lt_ge_cases (find_index (same_event t) dat) p) as [Hlt | Hge].
  - exists (find_index (same_event t) dat).
    apply same_event_iff in H2. unfold row_at. tauto.
  - exfalso. apply Hnot. split; [exact Hst |].
    intros j Hj Hsj.
    assert (Hf : same_event t (nth j dat no_row) = false) by (apply H3; lia).
    assert (Ht : same_event t (nth j dat no_row) = true)
      by (apply same_event_iff; exact Hsj).
    congruence.
Qed.

Lemma derived_event_first (df : list Row) (p : nat) :
  (p < length df)%nat ->
  first_of_group (data (preprocess df)) p ->
  nth p (_derived_events (preprocess df)) 0%Z = 1%Z.
Proof.
  intros Hp [Hst Hf]. rewrite derived_events_nth by exact Hp.
  destruct (in_dec Nat.eq_dec p (fst (fid_of (data (preprocess df)))))
    as [| Hn]; [reflexivity |].
  exfalso. apply Hn. apply fid_first_In; [apply sort_values_sorted |].
  rewrite length_data. auto.
Qed.

Lemma derived_event_tied (df : list Row) (p : nat) :
  (p < length df)%nat ->
  status (row_at (data (preprocess df)) p) = 1%Z ->
  ~ first_of_group (data (preprocess df)) p ->
  nth p (_derived_events (preprocess df)) 0%Z = 0%Z.
Proof.
  intros Hp Hst Hnot. rewrite derived_events_nth by exact Hp.
  set (dat := data (preprocess df)) in *.
  assert (Hs : row_sorted dat) by apply sort_values_sorted.
  assert (Hpd : (p < length dat)%nat) by (unfold dat; rewrite length_data; exact Hp).
  destruct (in_dec Nat.eq_dec p (fst (fid_of dat))) as [Hin |].
  - exfalso. apply Hnot. apply fid_first_In in Hin; [| exact Hs].
    unfold first_of_group. tauto.
  - destruct (not_first_earlier Hpd Hst Hnot) as (j & Hj & Hsj & Htj).
    assert (Htie : existsb
                     (fun v => if in_dec Nat.eq_dec p v then true else false)
                     (map snd (snd (fid_of dat))) = true).
    { apply in_tie_iff; [exact Hs |]. repeat split; try assumption.
      apply filter_two with (d := no_row) (j := j) (p := p).
      - lia.
      - apply same_event_iff. split; assumption.
      - apply same_event_iff. split; [exact Hst | reflexivity]. }
    rewrite Htie. reflexivity.
Qed.

Lemma derived_event_other (df : list Row) (p : nat) :
  (p < length df)%nat ->
  status (row_at (data (preprocess df)) p) <> 1%Z ->
  nth p (_derived_events (preprocess df)) 0%Z
  = status (row_at (data (preprocess df)) p).
Proof.
  intros Hp Hst. rewrite derived_events_nth by exact Hp.
  set (dat := data (preprocess df)) in *.
  assert (Hs : row_sorted dat) by apply sort_values_sorted.
  destruct (in_dec Nat.eq_dec p (fst (fid_of dat))) as [Hin |].
  - apply fid_first_In in Hin; [| exact Hs]. tauto.
  - destruct (existsb (fun v => if in_dec Nat.eq_dec p v then true else false)
                      (map snd (snd (fid_of dat)))) eqn:E; [| reflexivity].
    apply in_tie_iff in E; [| exact Hs]. tauto.
Qed.

Lemma first_of_group_dec (dat : list Row) (p : nat) :
  row_sorted dat -> (p < length dat)%nat ->
  {first_of_group dat p} + {~ first_of_group dat p}.
Proof.
  intros Hs Hp.
  destruct (in_dec Nat.eq_dec p (fst (fid_of dat))) as [Hin | Hn].
  - left. apply fid_first_In in Hin; [| exact Hs].
    unfold first_of_group. tauto.
  - right. intros [H1 H2]. apply Hn. apply fid_first_In; [exact Hs |]. tauto.
Qed.

Lemma derived_event_one_iff (df : list Row) (p : nat) :
  (p < length df)%nat ->
  nth p (_derived_events (preprocess df)) 0%Z = 1%Z <->
  first_of_group (data (preprocess df)) p.
Proof.
  intros Hp. split; [| apply derived_event_first; exact Hp].
  intros Hde.
  assert (Hs : row_sorted (data (preprocess df))) by apply sort_values_sorted.
  assert (Hpd : (p < length (data (preprocess df)))%nat)
    by (rewrite length_data; exact Hp).
  destruct (first_of_group_dec Hs Hpd) as [Hf | Hn]; [exact Hf |].
  exfalso.
  destruct (Z.eq_dec (status (row_at (data (preprocess df)) p)) 1) as [Hst | Hst].
  - rewrite derived_event_tied in Hde by assumption. discriminate.
  - rewrite derived_event_other in Hde by assumption. contradiction.
Qed.

Lemma first_of_group_unique (dat : list Row) (p p' : nat) :
  first_of_group dat p -> first_of_group dat p' ->
  event_time (row_at dat p) = event_time (row_at dat p') ->
  p = p'.
Proof.
  intros [H1 H2] [H1' H2'] Ht.
  destruct (Nat.lt_trichotomy p p') as [Hlt | [Heq | Hgt]]; [| exact Heq |].
  - exfalso. apply (H2' p Hlt). auto.
  - exfalso. apply (H2 p' Hgt). auto.
Qed.

Lemma first_of_group_exists (dat : list Row) (r : Row) :
  In r dat -> status r = 1%Z ->
  exists p, (p < length dat)%nat /\ first_of_group dat p /\
            event_time (row_at dat p) = event_time r.
Proof.
  intros Hin Hst.
  set (t := event_time r).
  assert (Hex : existsb (same_event t) dat = true).
  { apply existsb_exists. exists r. split; [exact Hin |].
    apply same_event_iff. auto. }
  destruct (find_index_spec (same_event t) no_row dat Hex) as (H1 & H2 & H3).
  exists (find_index (same_event t) dat).
  apply same_event_iff in H2. destruct H2 as [H2 H2'].
  split; [exact H1 |]. split; [| exact H2'].
  split; [exact H2 |].
  intros j Hj Hsj. specialize (H3 j Hj).
  fold (row_at dat (find_index (same_event t) dat)) in H2'.
  rewrite H2' in Hsj. apply same_event_iff in Hsj.
  unfold row_at in Hsj. congruence.
Qed.

(** ** Risk counts *)

Lemma nth_cumsumZ (l : list Z) (acc : Z) (p : nat) :
  (p < length l)%nat ->
  nth p (cumsum_from Z.add acc l) 0%Z = (acc + sumZ (firstn (S p) l))%Z.
Proof.
  revert acc p. induction l as [| x l IH]; intros acc p Hp; simpl in Hp;
    [lia |].
  destruct p as [| p].
  - simpl. lia.
  - cbn [cumsum_from nth]. rewrite IH by lia.
    change (firstn (S (S p)) (x :: l)) with (x :: firstn (S p) l).
    cbn [sumZ fold_right]. fold (sumZ (firstn (S p) l)). lia.
Qed.

Lemma sumZ_firstn_mono (l : list Z) (i j : nat) :
  Forall (fun z => 0 <= z)%Z l -> (i <= j)%nat ->
  (sumZ (firstn i l) <= sumZ (firstn j l))%Z.
Proof.
  intros Hl. revert i j.
  induction Hl as [| x l Hx Hl IH]; intros i j Hij.
  - rewrite !firstn_nil. lia.
  - destruct i as [| i]; destruct j as [| j]; try lia.
    + simpl. specialize (IH 0%nat j (Nat.le_0_l j)). simpl in IH.
      fold (sumZ (firstn j l)). lia.
    + simpl. specialize (IH i j). fold (sumZ (firstn i l)).
      fold (sumZ (firstn j l)). lia.
Qed.

Lemma derived_events_nonneg (df : list Row) :
  (forall r, In r df -> (0 <= status r)%Z) ->
  Forall (fun z => 0 <= z)%Z (_derived_events (preprocess df)).
Proof.
  intros H. simpl.
  apply Forall_set_const; [lia |].
  apply Forall_fold_set_const; [lia |].
  apply Forall_map. apply Forall_forall. intros r Hr. apply H.
  eapply Permutation_in; [apply sort_values_perm | exact Hr].
Qed.

Lemma risk_count_nth (df : list Row) (p : nat) :
  (p < length df)%nat ->
  nth p (_risk_count (preprocess df)) 0%Z
  = sumZ (firstn (S p) (_derived_events (preprocess df))).
Proof.
  intros Hp. rewrite risk_count_cumsum. unfold cumsumZ.
  rewrite nth_cumsumZ by (rewrite length_derived_events; exact Hp).
  lia.
Qed.

Lemma scenario_tables :
  let self := preprocess (with_index scenario_obs) in
  group_positions (data self) (rat 7 1) = [5; 6; 7; 8]%nat /\
  _derived_events self = [0; 1; 1; 0; 0; 1; 0; 0; 0]%Z /\
  _derived_weight self = [1; 1; 1; 1; 1; 4; 1; 1; 1]%Z.
Proof. vm_compute. repeat split. Qed.

(** *** The running sum in 64-bit integers *)

Lemma wrap64_small (z : Z) : (- 2 ^ 63 <= z < 2 ^ 63)%Z -> wrap64 z = z.
Proof. intros H. unfold wrap64. rewrite Z.mod_small by lia. lia. Qed.

Lemma cumsum64_exact_from (l : list Z) (acc : Z) :
  (forall k, (1 <= k <= length l)%nat ->
             (- 2 ^ 63 <= acc + sumZ (firstn k l) < 2 ^ 63)%Z) ->
  cumsum_from (fun a b => wrap64 (a + b)) acc l = cumsum_from Z.add acc l.
Proof.
  revert acc. induction l as [| x l IH]; intros acc H; [reflexivity |].
  cbn [cumsum_from].
  assert (Hx : wrap64 (acc + x) = (acc + x)%Z).
  { apply wrap64_small. specialize (H 1%nat). simpl in H. 
    assert (H1 : (1 <= 1 <= S (length l))%nat) by lia.
    specialize (H H1). lia. }
  rewrite Hx. f_equal. apply IH. intros k Hk.
  specialize (H (S k)). cbn [firstn sumZ fold_right length] in H.
  fold (sumZ (firstn k l)) in H.
  assert (H1 : (1 <= S k <= S (length l))%nat) by lia.
  specialize (H H1). lia.
Qed.

Lemma sumZ_abs_nonneg (l : list Z) : (0 <= sumZ (map Z.abs l))%Z.
Proof.
  induction l as [| x l IH]; simpl; [lia |].
  fold (sumZ (map Z.abs l)). lia.
Qed.

Lemma sumZ_firstn_abs (l : list Z) (k : nat) :
  (Z.abs (sumZ (firstn k l)) <= sumZ (map Z.abs l))%Z.
Proof.
  revert k. induction l as [| x l IH]; intros k.
  - rewrite firstn_nil. simpl. lia.
  - destruct k as [| k].
    + simpl. fold (sumZ (map Z.abs l)).
      pose proof (sumZ_abs_nonneg l). lia.
    + specialize (IH k). simpl. fold (sumZ (firstn k l)).
      fold (sumZ (map Z.abs l)). lia.
Qed.

Lemma sumZ_le_pointwise (a b : list Z) :
  length a = length b ->
  (forall p, (p < length a)%nat -> (nth p a 0 <= nth p b 0)%Z) ->
  (sumZ a <= sumZ b)%Z.
Proof.
  revert b. induction a as [| x a IH]; intros [| y b] Hlen H;
    simpl in Hlen; try discriminate.
  simpl. fold (sumZ a). fold (sumZ b).
  assert (Hxy : (x <= y)%Z) by (apply (H 0%nat); simpl; lia).
  assert (Hab : (sumZ a <= sumZ b)%Z).
  { apply IH; [lia |]. intros p Hp. apply (H (S p)). simpl. lia. }
  lia.
Qed.

Lemma sumZ_perm (l l' : list Z) : Permutation l l' -> sumZ l = sumZ l'.
Proof.
  induction 1; simpl; lia.
Qed.

Lemma derived_event_abs (df : list Row) (p : nat) :
  (p < length df)%nat ->
  (Z.abs (nth p (_derived_events (preprocess df)) 0)
   <= Z.abs (status (row_at (data (preprocess df)) p)))%Z.
Proof.
  intros Hp.
  destruct (Z.eq_dec (status (row_at (data (preprocess df)) p)) 1) as [E | E].
  - rewrite E.
    destruct (@first_of_group_dec (data (preprocess df)) p) as [Hf | Hf].
    + apply sort_values_sorted.
    + rewrite length_data. exact Hp.
    + rewrite (derived_event_first df Hp Hf). lia.
    + rewrite (derived_event_tied df Hp E Hf). lia.
  - rewrite (derived_event_other df Hp E). lia.
Qed.

Lemma status_column (obs : list (ftime * Z * Z)) :
  map status (with_index obs) = map (fun o => snd (fst o)) obs.
Proof.
  unfold with_index. rewrite map_map. cbn [status].
  generalize 0%nat.
  induction obs as [| o obs IH]; intros k; simpl; [reflexivity |].
  rewrite IH. reflexivity.
Qed.

Lemma derived_events_abs (obs : list (ftime * Z * Z)) :
  (sumZ (map Z.abs (_derived_events (preprocess (with_index obs))))
   <= sumZ (map (fun o => Z.abs (snd (fst o))) obs))%Z.
Proof.
  set (self := preprocess (with_index obs)).
  assert (Hn : length (with_index obs) = length obs)
    by apply length_with_index.
  apply Z.le_trans with (sumZ (map Z.abs (map status (data self)))).
  - apply sumZ_le_pointwise.
    + rewrite !length_map. unfold self.
      rewrite length_derived_events, length_data. reflexivity.
    + intros p Hp. rewrite length_map in Hp. unfold self in Hp.
      rewrite length_derived_events in Hp.
      change 0%Z with (Z.abs 0) at 1. rewrite (map_nth Z.abs).
      change 0%Z with (Z.abs (status no_row)) at 2.
      rewrite (map_nth Z.abs), (nth_map_row status).
      change (status no_row) with 0%Z.
      apply derived_event_abs. exact Hp.
  - apply Z.eq_le_incl.
    rewrite (sumZ_perm (l' := map Z.abs (map status (with_index obs)))).
    + rewrite status_column, map_map. reflexivity.
    + apply Permutation_map. apply Permutation_map.
      apply sort_values_perm.
Qed.

(** The running sum of the model is the one numpy computes. *)
Lemma risk_count_int64 (obs : list (ftime * Z * Z)) :
  no_overflow obs ->
  _risk_count (preprocess (with_index obs))
  = cumsum64 (_derived_events (preprocess (with_index obs))).
Proof.
  intros Hno. rewrite risk_count_cumsum. unfold cumsumZ, cumsum64.
  symmetry. apply cumsum64_exact_from. intros k _.
  pose proof (sumZ_firstn_abs (_derived_events (preprocess (with_index obs))) k)
    as H1.
  pose proof (derived_events_abs obs) as H2.
  unfold no_overflow in Hno. lia.
Qed.

Lemma scenario_no_overflow : no_overflow scenario_obs.
Proof. vm_compute. reflexivity. Qed.

Lemma main_no_overflow : no_overflow main_obs.
Proof. vm_compute. reflexivity. Qed.

(** C9. For every dataset and every sorted position: the derived event
    indicator is 1 at the first position of each tie group, 0 at the other
    members of the group, and the raw status at every row that is not an
    event row; so every distinct event time carries exactly one indicator
    equal to 1.  When the absolute statuses add up to less than 2^63 (as
    0/1 statuses do), the 64-bit running sum of line 56 does not wrap: the
    risk count is the exact running sum of the indicators and, for
    statuses that are not negative (0/1 in particular), it never
    decreases.  In the scenario the four events tied at time 7 sit at the
    sorted positions 5 to 8, with one indicator at position 5 and derived
    weight 4 there. *)
Theorem derived_events_per_tie_group (obs : list (ftime * Z * Z)) :
  let self := preprocess (with_index obs) in
  let dat := data self in
  let de := fun p => nth p (_derived_events self) 0%Z in
  let rc := fun p => nth p (_risk_count self) 0%Z in
  (forall p, (p < length obs)%nat ->
     (first_of_group dat p -> de p = 1%Z) /\
     (status (row_at dat p) = 1%Z -> ~ first_of_group dat p -> de p = 0%Z) /\
     (status (row_at dat p) <> 1%Z -> de p = status (row_at dat p))) /\
  (forall r, In r dat -> status r = 1%Z ->
     exists! p, (p < length obs)%nat /\
                event_time (row_at dat p) = event_time r /\ de p = 1%Z) /\
  (no_overflow obs ->
   _risk_count self = cumsum64 (_derived_events self) /\
   (forall p, (p < length obs)%nat ->
      rc p = sumZ (firstn (S p) (_derived_events self))) /\
   ((forall r, In r dat -> (0 <= status r)%Z) ->
    forall i j, (i <= j)%nat -> (j < length obs)%nat -> (rc i <= rc j)%Z)) /\
  (let s := preprocess (with_index scenario_obs) in
   group_positions (data s) (rat 7 1) = [5; 6; 7; 8]%nat /\
   _derived_events s = [0; 1; 1; 0; 0; 1; 0; 0; 0]%Z /\
   _derived_weight s = [1; 1; 1; 1; 1; 4; 1; 1; 1]%Z).
Proof.
  intros self dat de rc.
  assert (Hn : length (with_index obs) = length obs) by apply length_with_index.
  split; [| split; [| split]].
  - intros p Hp. rewrite <- Hn in Hp. repeat split.
    + apply derived_event_first. exact Hp.
    + apply derived_event_tied. exact Hp.
    + apply derived_event_other. exact Hp.
  - intros r Hr Hst.
    destruct (first_of_group_exists dat r Hr Hst) as (p & Hp & Hf & Ht).
    unfold dat, self in Hp. rewrite length_data, Hn in Hp.
    exists p. split.
    + repeat split; [exact Hp | exact Ht |].
      apply derived_event_first; [rewrite Hn; exact Hp | exact Hf].
    + intros p' (Hp' & Ht' & Hde').
      apply (@first_of_group_unique dat p p'); [exact Hf | | congruence].
      apply derived_event_one_iff; [rewrite Hn; exact Hp' | exact Hde'].
  - intros Hno. split; [| split].
    + apply risk_count_int64. exact Hno.
    + intros p Hp. apply risk_count_nth. rewrite Hn. exact Hp.
    + intros Hpos i j Hij Hj. unfold rc, self.
      rewrite !risk_count_nth by (rewrite Hn; lia).
      apply sumZ_firstn_mono; [| lia].
      apply derived_events_nonneg. intros r Hr. apply Hpos.
      eapply Permutation_in;
        [apply Permutation_sym, sort_values_perm | exact Hr].
  - exact scenario_tables.
Qed.

Lemma derived_events_per_tie_group_witness :
  (5 < length scenario_obs)%nat /\
  first_of_group (data (preprocess (with_index scenario_obs))) 5 /\
  nth 5 (_derived_events (preprocess (with_index scenario_obs))) 0%Z = 1%Z /\
  no_overflow scenario_obs /\
  _risk_count (preprocess (with_index scenario_obs))
  = cumsum64 (_derived_events (preprocess (with_index scenario_obs))).
Proof.
  assert (H5 : (5 < length scenario_obs)%nat) by (vm_compute; lia).
  split; [exact H5 |]. split; [exact scenario_first_at_5 |].
  destruct (derived_events_per_tie_group scenario_obs)
    as (Hde & _ & Hrc & _).
  destruct (Hde 5%nat H5) as [Hfirst _].
  split; [apply Hfirst; exact scenario_first_at_5 |].
  split; [exact scenario_no_overflow |].
  apply (Hrc scenario_no_overflow).
Defined.

(** ** The saturated log-likelihood *)

Lemma distinct_In (t : ftime) (l : list ftime) : In t (distinct l) <-> In t l.
Proof.
  induction l as [| x l IH]; simpl; [tauto |].
  destruct (existsb (time_eqb x) l) eqn:E.
  - rewrite IH. split; [auto |].
    intros [<- | H]; [| exact H].
    apply existsb_exists in E. destruct E as [y [Hy Hxy]].
    apply time_eqb_eq in Hxy. subst y. exact Hy.
  - simpl. rewrite IH. tauto.
Qed.

Lemma distinct_NoDup (l : list ftime) : NoDup (distinct l).
Proof.
  induction l as [| x l IH]; simpl; [constructor |].
  destruct (existsb (time_eqb x) l) eqn:E; [exact IH |].
  constructor; [| exact IH].
  intros Hin. apply (proj1 (distinct_In x l)) in Hin.
  assert (existsb (time_eqb x) l = true); [| congruence].
  apply existsb_exists. exists x. split; [exact Hin | apply time_eqb_refl].
Qed.

Lemma sumR_perm (l l' : list R) : Permutation l l' -> sumR l = sumR l'.
Proof.
  induction 1 as [| x l l' _ IH | x y l | l l' l'' _ IH1 _ IH2]; simpl.
  - reflexivity.
  - rewrite IH. reflexivity.
  - lra.
  - congruence.
Qed.

Lemma agg_weight_perm (l l' : list Row) (t : ftime) :
  Permutation l l' -> agg_weight l t = agg_weight l' t.
Proof.
  unfold agg_weight.
  induction 1 as [| x l l' _ IH | x y l | l l' l'' _ IH1 _ IH2]; simpl.
  - reflexivity.
  - destruct (same_event t x); simpl; rewrite IH; reflexivity.
  - destruct (same_event t x), (same_event t y); simpl; lia.
  - congruence.
Qed.

Lemma sumR_filter_map {T : Type} (F : Z -> R) (P : Z -> bool) (g : T -> Z)
      (U : list T) :
  sumR (map F (filter P (map g U)))
  = sumR (map (fun t => if P (g t) then F (g t) else 0%R) U).
Proof.
  induction U as [| u U IH]; simpl; [reflexivity |].
  destruct (P (g u)); simpl; rewrite IH; lra.
Qed.

Lemma event_time_members (df : list Row) (t : ftime) :
  In t (map event_time (filter is_event df)) <->
  existsb (same_event t) df = true.
Proof.
  rewrite in_map_iff, existsb_exists. split.
  - intros [r [Ht Hr]]. apply filter_In in Hr. exists r.
    split; [tauto |]. apply same_event_iff.
    unfold is_event in Hr. rewrite Z.eqb_eq in Hr. tauto.
  - intros [r [Hr Hsame]]. apply same_event_iff in Hsame. exists r.
    split; [tauto |]. apply filter_In. unfold is_event.
    rewrite Z.eqb_eq. tauto.
Qed.

Lemma existsb_perm {A : Type} (f : A -> bool) (l l' : list A) :
  Permutation l l' -> existsb f l = existsb f l'.
Proof.
  induction 1 as [| x l l' _ IH | x y l | l l' l'' _ IH1 _ IH2]; simpl.
  - reflexivity.
  - rewrite IH. reflexivity.
  - destruct (f x), (f y); reflexivity.
  - congruence.
Qed.

Lemma event_times_perm (df : list Row) :
  Permutation (event_times (sort_values df))
              (distinct (map event_time (filter is_event df))).
Proof.
  apply NoDup_Permutation.
  - apply event_times_NoDup. apply sort_values_sorted.
  - apply distinct_NoDup.
  - intros t. rewrite event_times_In, distinct_In, event_time_members.
    rewrite (existsb_perm (same_event t) (sort_values_perm df)).
    reflexivity.
Qed.

Lemma loglik_sat_groups (df : list Row) :
  _loglik_sat (preprocess df)
  = (- sumR (map (fun t =>
                    let w := agg_weight (sort_values df) t in
                    if (0 <? w)%Z then IZR w * ln (IZR w) else 0)
                 (event_times (sort_values df))))%R.
Proof.
  cbn [_loglik_sat preprocess].
  rewrite weight_sum_sorted by apply sort_values_sorted.
  rewrite map_map. cbn [snd].
  rewrite sumR_filter_map. reflexivity.
Qed.

Lemma loglik_sat_spec (df : list Row) :
  _loglik_sat (preprocess df) = saturated_spec df.
Proof.
  rewrite loglik_sat_groups. unfold saturated_spec. f_equal.
  etransitivity;
    [apply sumR_perm; apply Permutation_map; apply event_times_perm |].
  f_equal. apply map_ext. intros t.
  rewrite (agg_weight_perm t (sort_values_perm df)). reflexivity.
Qed.

Lemma status_with_index (obs : list (ftime * Z * Z)) :
  map status (with_index obs) = map (fun o => snd (fst o)) obs.
Proof.
  unfold with_index. rewrite map_map. cbn [status].
  generalize 0%nat.
  induction obs as [| o obs IH]; intros k; simpl; [reflexivity |].
  rewrite IH. reflexivity.
Qed.

(** C6. For every dataset the saturated log-likelihood is minus the sum of
    [w_g * log w_g] over the tie groups (the distinct times of the event
    rows) with positive aggregated event weight [w_g]; for a dataset whose
    statuses are all zero it is 0. *)
Theorem saturated_loglik_spec (obs : list (ftime * Z * Z)) :
  let self := preprocess (with_index obs) in
  _loglik_sat self
  = (- sumR (map (fun t =>
                    let w_g := sumZ (map sample_weight
                                         (filter (same_event t) (with_index obs))) in
                    if (0 <? w_g)%Z then IZR w_g * ln (IZR w_g) else 0)
                 (distinct (map event_time
                                (filter is_event (with_index obs))))))%R
  /\ (Forall (fun o => snd (fst o) = 0%Z) obs -> _loglik_sat self = 0%R).
Proof.
  intros self. split.
  - apply loglik_sat_spec.
  - intros Hall. unfold self. rewrite loglik_sat_spec. unfold saturated_spec.
    assert (Hnone : filter is_event (with_index obs) = []).
    { assert (Hst : Forall (fun z => z = 0%Z) (map status (with_index obs))).
      { rewrite status_with_index. apply Forall_map. exact Hall. }
      induction (with_index obs) as [| r l IH]; [reflexivity |].
      simpl in Hst. inversion Hst as [| ? ? Hr Hl]; subst.
      simpl. unfold is_event at 1. rewrite Hr. simpl. apply IH. exact Hl. }
    rewrite Hnone. simpl. lra.
Qed.

Lemma saturated_loglik_spec_witness :
  Forall (fun o : ftime * Z * Z => snd (fst o) = 0%Z)
         (unit_obs [rat 1 1; rat 2 1] [0%Z; 0%Z]) /\
  _loglik_sat (preprocess (with_index (unit_obs [rat 1 1; rat 2 1] [0%Z; 0%Z])))
  = 0%R.
Proof.
  split.
  - repeat constructor.
  - apply (saturated_loglik_spec (unit_obs [rat 1 1; rat 2 1] [0%Z; 0%Z])).
    repeat constructor.
Defined.

(** ** Rows whose status is not 1 *)

Lemma sumZ_firstn_S (l : list Z) (p : nat) :
  (p < length l)%nat ->
  sumZ (firstn (S p) l) = (sumZ (firstn p l) + nth p l 0)%Z.
Proof.
  revert p. induction l as [| x l IH]; intros p Hp; simpl in Hp; [lia |].
  destruct p as [| p].
  - simpl. lia.
  - change (firstn (S (S p)) (x :: l)) with (x :: firstn (S p) l).
    change (firstn (S p) (x :: l)) with (x :: firstn p l).
    cbn [sumZ fold_right nth].
    fold (sumZ (firstn (S p) l)). fold (sumZ (firstn p l)).
    rewrite IH by lia. lia.
Qed.

Lemma agg_weight_events_only (df : list Row) (t : ftime) :
  agg_weight (filter is_event df) t = agg_weight df t.
Proof.
  unfold agg_weight. rewrite filter_filter. f_equal. f_equal.
  apply filter_ext. intros r. unfold same_event.
  destruct (is_event r); reflexivity.
Qed.

Lemma filter_idem {A : Type} (f : A -> bool) (l : list A) :
  filter f (filter f l) = filter f l.
Proof.
  rewrite filter_filter. apply filter_ext. intros x. destruct (f x); reflexivity.
Qed.

Lemma loglik_sat_events_only (df : list Row) :
  _loglik_sat (preprocess (filter is_event df)) = _loglik_sat (preprocess df).
Proof.
  rewrite !loglik_sat_spec. unfold saturated_spec.
  rewrite filter_idem. f_equal. f_equal.
  apply map_ext. intros t. cbv zeta.
  rewrite agg_weight_events_only. reflexivity.
Qed.

Lemma main_tables :
  let self := preprocess (with_index main_obs) in
  map status (data self) = [0; 1; 1; 0; 0; 7; 7; 7; 1]%Z /\
  snd (fid_of (data self)) = [] /\
  _derived_weight self = [1; 1; 1; 1; 1; 1; 1; 1; 1]%Z /\
  _derived_events self = [0; 1; 1; 0; 0; 7; 7; 7; 1]%Z /\
  _risk_count self = [0; 1; 2; 2; 2; 9; 16; 23; 24]%Z.
Proof. vm_compute. repeat split. Qed.

(** C10. A row counts as an event row only when its status is exactly 1.
    For every dataset and every sorted position [p] whose status is some
    other value: [p] is no first position and belongs to no tie list; its
    derived weight is its raw weight and it adds nothing to any aggregated
    weight (which sums the rows of status 1 at one time); the saturated
    log-likelihood is that of the dataset without the rows of status other
    than 1; the derived event indicator at [p] is the raw status, and,
    when the absolute statuses add up to less than 2^63 so that the 64-bit
    running sum of line 56 does not wrap, the risk count at [p] adds that
    raw status to the running sum.  With the statuses [0,1,1,0,0,1,7,7,7]
    of the module's own example the three rows of status 7 keep the
    indicator 7 and drive the risk count to 24. *)
Theorem status_other_than_one (obs : list (ftime * Z * Z)) (p : nat) :
  (p < length obs)%nat ->
  let self := preprocess (with_index obs) in
  let dat := data self in
  status (row_at dat p) <> 1%Z ->
  (~ In p (fst (fid_of dat)) /\
   forall v, In v (map snd (snd (fid_of dat))) -> ~ In p v) /\
  (nth p (_derived_weight self) 0%Z = sample_weight (row_at dat p) /\
   map snd (weight_sum_of dat)
   = map (fun t =>
            sumZ (map sample_weight
                      (filter (fun r => (status r =? 1)%Z
                                        && time_eqb (event_time r) t) dat)))
         (event_times dat)) /\
  _loglik_sat self
  = _loglik_sat (preprocess (filter is_event (with_index obs))) /\
  nth p (_derived_events self) 0%Z = status (row_at dat p) /\
  (no_overflow obs ->
   _risk_count self = cumsum64 (_derived_events self) /\
   nth p (_risk_count self) 0%Z
   = (sumZ (firstn p (_derived_events self)) + status (row_at dat p))%Z) /\
  (let m := preprocess (with_index main_obs) in
   map status (data m) = [0; 1; 1; 0; 0; 7; 7; 7; 1]%Z /\
   snd (fid_of (data m)) = [] /\
   _derived_weight m = [1; 1; 1; 1; 1; 1; 1; 1; 1]%Z /\
   _derived_events m = [0; 1; 1; 0; 0; 7; 7; 7; 1]%Z /\
   _risk_count m = [0; 1; 2; 2; 2; 9; 16; 23; 24]%Z).
Proof.
  intros Hp self dat Hst.
  assert (Hn : length (with_index obs) = length obs) by apply length_with_index.
  assert (Hs : row_sorted dat) by apply sort_values_sorted.
  assert (Hpn : (p < length (with_index obs))%nat) by (rewrite Hn; exact Hp).
  assert (Hnf : ~ first_of_group dat p) by (intros [H _]; contradiction).
  assert (Hde : nth p (_derived_events self) 0%Z = status (row_at dat p))
    by (apply derived_event_other; assumption).
  refine (conj (conj _ _) (conj (conj _ _) (conj _ (conj _ (conj _ _))))).
  - intros Hin. apply fid_first_In in Hin; [| exact Hs]. tauto.
  - intros v Hv Hpv.
    assert (E : existsb (fun v => if in_dec Nat.eq_dec p v then true else false)
                        (map snd (snd (fid_of dat))) = true).
    { apply existsb_exists. exists v. split; [exact Hv |].
      destruct (in_dec Nat.eq_dec p v); [reflexivity | contradiction]. }
    apply in_tie_iff in E; [| exact Hs]. tauto.
  - apply derived_weight_other. exact Hnf.
  - rewrite weight_sum_sorted by exact Hs. rewrite map_map. reflexivity.
  - symmetry. apply loglik_sat_events_only.
  - exact Hde.
  - intros Hno. split; [apply risk_count_int64; exact Hno |].
    unfold self. rewrite risk_count_nth by exact Hpn.
    rewrite sumZ_firstn_S by (rewrite length_derived_events; exact Hpn).
    fold self. rewrite Hde. reflexivity.
  - exact main_tables.
Qed.

Lemma status_other_than_one_witness :
  (5 < length main_obs)%nat /\
  status (row_at (data (preprocess (with_index main_obs))) 5) <> 1%Z /\
  nth 5 (_derived_events (preprocess (with_index main_obs))) 0%Z
  = status (row_at (data (preprocess (with_index main_obs))) 5) /\
  no_overflow main_obs /\
  nth 5 (_risk_count (preprocess (with_index main_obs))) 0%Z
  = (sumZ (firstn 5 (_derived_events (preprocess (with_index main_obs))))
     + status (row_at (data (preprocess (with_index main_obs))) 5))%Z.
Proof.
  assert (H5 : (5 < length main_obs)%nat) by (vm_compute; lia).
  assert (Hst : status (row_at (data (preprocess (with_index main_obs))) 5)
                <> 1%Z) by (vm_compute; discriminate).
  split; [exact H5 |]. split; [exact Hst |].
  destruct (status_other_than_one main_obs H5 Hst)
    as (_ & _ & _ & Hde & Hrc & _).
  split; [exact Hde |]. split; [exact main_no_overflow |].
  apply (Hrc main_no_overflow).
Defined.

(** ** Sums over positions *)

Lemma bigsum_S_l (n : nat) (f : nat -> R) :
  bigsum (S n) f = (f 0%nat + bigsum n (fun p => f (S p)))%R.
Proof.
  unfold bigsum. cbn [seq map sumR fold_right].
  rewrite <- seq_shift, map_map. reflexivity.
Qed.

Lemma bigsum_ext (n : nat) (f g : nat -> R) :
  (forall p, (p < n)%nat -> f p = g p) -> bigsum n f = bigsum n g.
Proof.
  intros H. unfold bigsum. f_equal. apply map_ext_in.
  intros p Hp. apply in_seq in Hp. apply H. lia.
Qed.

Lemma sumR_app (l l' : list R) : sumR (l ++ l') = (sumR l + sumR l')%R.
Proof.
  induction l as [| x l IH]; simpl; [lra |]. rewrite IH. lra.
Qed.

Lemma sumR_mask_select (mask : list bool) (v : list R) :
  length mask = length v ->
  sumR (mask_select mask v)
  = bigsum (length v) (fun p => if nth p mask false then nth p v 0%R else 0%R).
Proof.
  revert v. induction mask as [| b mask IH]; intros [| x v] H;
    simpl in H; try discriminate; [reflexivity |].
  cbn [length]. rewrite bigsum_S_l. cbn [nth mask_select].
  injection H as H. rewrite <- (IH v H).
  destruct b; simpl; lra.
Qed.

Lemma nth_map2 {A : Type} (f : A -> A -> A) (a b : list A) (d : A) (p : nat) :
  (p < length a)%nat -> (p < length b)%nat ->
  nth p (map2 f a b) d = f (nth p a d) (nth p b d).
Proof.
  revert b p. induction a as [| x a IH]; intros [| y b] p Ha Hb;
    simpl in *; try lia.
  destruct p as [| p]; [reflexivity |]. apply IH; lia.
Qed.

Lemma nth_cumsumR (l : list R) (acc : R) (p : nat) :
  (p < length l)%nat ->
  nth p (cumsum_from Rplus acc l) 0%R = (acc + sumR (firstn (S p) l))%R.
Proof.
  revert acc p. induction l as [| x l IH]; intros acc p Hp; simpl in Hp;
    [lia |].
  destruct p as [| p].
  - simpl. lra.
  - cbn [cumsum_from nth]. rewrite IH by lia.
    change (firstn (S (S p)) (x :: l)) with (x :: firstn (S p) l).
    cbn [sumR fold_right]. fold (sumR (firstn (S p) l)). lra.
Qed.

Lemma rev_cumsum_nth (x : list R) (p : nat) :
  (p < length x)%nat ->
  nth p (rev (cumsumR (rev x))) 0%R = sumR (skipn p x).
Proof.
  intros Hp. unfold cumsumR.
  rewrite rev_nth by (rewrite length_cumsum_from, length_rev; exact Hp).
  rewrite length_cumsum_from, length_rev.
  rewrite nth_cumsumR by (rewrite length_rev; lia).
  replace (S (length x - S p)) with (length x - p)%nat by lia.
  rewrite firstn_rev.
  replace (length x - (length x - p))%nat with p by lia.
  rewrite (sumR_perm (Permutation_sym (Permutation_rev (skipn p x)))).
  lra.
Qed.

Lemma skipn_as_map {A : Type} (d : A) (x : list A) (p : nat) :
  skipn p x = map (fun j => nth j x d) (seq p (length x - p)).
Proof.
  revert x. induction p as [| p IH]; intros x.
  - rewrite Nat.sub_0_r. simpl. symmetry. apply map_nth_seq.
  - destruct x as [| a x]; [reflexivity |].
    cbn [skipn length]. rewrite IH.
    replace (S (length x) - S p)%nat with (length x - p)%nat by lia.
    rewrite <- seq_shift, map_map. reflexivity.
Qed.

Lemma nth_w (self : right_censored) (p : nat) :
  nth p (w self) 0%R = IZR (sample_weight (row_at (data self) p)).
Proof.
  unfold w. apply (nth_map_row (fun r => IZR (sample_weight r))).
Qed.

(** The code's reversed cumulative sum is the risk denominator. *)
Lemma rskden_nth (self : right_censored) (eta : list R) (p : nat) :
  length eta = length (data self) ->
  (p < length (data self))%nat ->
  nth p (rskden self eta) 0%R = risk_den (data self) eta p.
Proof.
  intros Hlen Hp. unfold rskden.
  assert (Hlx : length (map2 Rmult (exp_eta eta) (w self)) = length (data self)).
  { rewrite length_map2. unfold exp_eta, w. rewrite !length_map, Hlen.
    apply Nat.min_id. }
  rewrite rev_cumsum_nth by (rewrite Hlx; exact Hp).
  rewrite (skipn_as_map 0%R), Hlx. unfold risk_den. f_equal.
  apply map_ext_in. intros j Hj. apply in_seq in Hj.
  rewrite nth_map2
    by (unfold exp_eta, w; rewrite length_map; lia).
  rewrite nth_w. unfold exp_eta.
  rewrite (nth_indep _ 0%R (exp 0)) by (rewrite length_map; lia).
  rewrite (map_nth exp). reflexivity.
Qed.

Lemma sumR_pos (l : list R) :
  l <> [] -> Forall (fun x => 0 < x)%R l -> (0 < sumR l)%R.
Proof.
  intros Hne Hall. destruct l as [| x l]; [congruence |].
  inversion Hall as [| ? ? Hx Hl]; subst. clear Hne Hall.
  revert x Hx. induction Hl as [| y l Hy Hl IH]; intros x Hx; simpl.
  - lra.
  - specialize (IH y Hy). simpl in IH. lra.
Qed.

(** With positive weights every risk denominator is positive. *)
Lemma risk_den_pos (dat : list Row) (eta : list R) (p : nat) :
  (forall r, In r dat -> (0 < sample_weight r)%Z) ->
  (p < length dat)%nat ->
  (0 < risk_den dat eta p)%R.
Proof.
  intros Hw Hp. unfold risk_den. apply sumR_pos.
  - destruct (length dat - p)%nat eqn:E; [lia | simpl; discriminate].
  - apply Forall_map. apply Forall_forall. intros j Hj. apply in_seq in Hj.
    apply Rmult_lt_0_compat; [apply exp_pos |].
    apply IZR_lt. apply Hw. unfold row_at. apply nth_In. lia.
Qed.

Lemma is01_pos (z : Z) : z = 0%Z \/ z = 1%Z -> (0 <? z)%Z = (z =? 1)%Z.
Proof. intros [-> | ->]; reflexivity. Qed.

Lemma row_at_In (dat : list Row) (p : nat) :
  (p < length dat)%nat -> In (row_at dat p) dat.
Proof. intros H. unfold row_at. apply nth_In. exact H. Qed.

Lemma boolean_status_sorted (df : list Row) :
  boolean_status df -> boolean_status (sort_values df).
Proof.
  rewrite !boolean_status_Forall. intros H.
  eapply Permutation_Forall; [apply Permutation_sym, sort_values_perm | exact H].
Qed.

Lemma boolean_row (dat : list Row) (p : nat) :
  boolean_status dat -> (p < length dat)%nat ->
  status (row_at dat p) = 0%Z \/ status (row_at dat p) = 1%Z.
Proof.
  intros H Hp. apply boolean_status_Forall in H.
  rewrite Forall_forall in H. apply H. apply row_at_In. exact Hp.
Qed.

(** The code's log-likelihood is the one of the specification. *)
Lemma loglik_is_spec (df : list Row) (eta : list R) :
  boolean_status df ->
  length eta = length df ->
  loglik (preprocess df) eta = loglik_spec (preprocess df) eta.
Proof.
  intros Hb Hlen.
  set (self := preprocess df).
  assert (Hn : length (data self) = length df) by apply length_data.
  assert (Hle : length eta = length (data self)) by lia.
  unfold loglik, loglik_spec, log_terms. cbv zeta. f_equal.
  - rewrite sumR_mask_select.
    2:{ rewrite length_map2. unfold d, w. rewrite !length_map, Hle.
        symmetry. apply Nat.min_id. }
    rewrite length_map2. unfold w at 1. rewrite length_map, Hle, Nat.min_id.
    apply bigsum_ext. intros p Hp.
    unfold d.
    rewrite (nth_indep _ false ((0 <? status no_row)%Z))
      by (rewrite !length_map; exact Hp).
    rewrite (map_nth (fun x => (0 <? x)%Z)), (nth_map_row status).
    rewrite is01_pos
      by (apply boolean_row; [apply boolean_status_sorted; exact Hb | exact Hp]).
    fold (is_event (row_at (data self) p)).
    rewrite nth_map2 by (unfold w; rewrite ?length_map; lia).
    rewrite nth_w. reflexivity.
  - assert (Hlr : length (rskden self eta) = length (data self))
      by (apply length_rskden; exact Hle).
    rewrite sumR_mask_select.
    2:{ rewrite length_map2. unfold _derived_w.
        rewrite !length_map, Hlr.
        unfold self. rewrite length_derived_events, length_derived_weight.
        fold self. rewrite Hn. symmetry. apply Nat.min_id. }
    rewrite length_map2. unfold _derived_w at 1.
    rewrite !length_map, Hlr.
    unfold self at 1. rewrite length_derived_weight. fold self.
    rewrite Hn, Nat.min_id. rewrite <- Hn.
    apply bigsum_ext. intros p Hp.
    rewrite (nth_indep _ false ((0 <? 0)%Z))
      by (rewrite length_map; unfold self; rewrite length_derived_events;
          fold self; lia).
    rewrite (map_nth (fun x => (0 <? x)%Z)).
    destruct (0 <? nth p (_derived_events self) 0)%Z; [| reflexivity].
    rewrite nth_map2.
    2:{ unfold _derived_w. rewrite length_map. unfold self.
        rewrite length_derived_weight. fold self. lia. }
    2:{ rewrite length_map, Hlr. exact Hp. }
    unfold _derived_w.
    rewrite (map_nth IZR).
    rewrite (nth_indep (map ln _) 0%R (ln 0)) by (rewrite length_map; lia).
    rewrite (map_nth ln).
    rewrite rskden_nth by assumption. reflexivity.
Qed.

(** The restriction to 0/1 status is needed: with the statuses
    [0,1,1,0,0,1,7,7,7] of the module's own example the risk count reaches 9
    while the cumulative table has 4 entries, and the call raises. *)
Lemma main_example_raises :
  call (preprocess (with_index main_obs)) scenario_lp true true
  = inl IndexError.
Proof.
  unfold call.
  rewrite take_order_ok by (vm_compute; lia).
  cbv beta iota delta [bind].
  unfold finish, derivatives. cbv beta iota delta [bind orb].
  unfold grad_sorted.
  assert (H : np_take
                (rskdeninv (preprocess (with_index main_obs))
                   (centered (map (fun k => nth k scenario_lp 0%R)
                                  (_order (preprocess (with_index main_obs))))))
                (_risk_count (preprocess (with_index main_obs)))
              = inl IndexError).
  { unfold rskdeninv.
    destruct main_tables as (_ & _ & _ & Hde & Hrc). cbv zeta in Hde, Hrc.
    rewrite Hde, Hrc.
    set (v := map2 Rdiv _ _).
    assert (Hv : length v = 9%nat).
    { unfold v. rewrite length_map2. unfold _derived_w.
      rewrite length_map, length_derived_weight.
      rewrite length_rskden;
        rewrite ?length_data, ?length_centered, ?length_map, ?length_order;
        reflexivity. }
    destruct v as [| v0 [| v1 [| v2 [| v3 [| v4 [| v5 [| v6 [| v7 [| v8 [|]]]]]]]]]];
      try discriminate.
    reflexivity. }
  rewrite H. reflexivity.
Qed.

(** C1. For every dataset with 0/1 status and every predictor of length
    [n] the call succeeds and its deviance is twice the difference between
    the saturated log-likelihood and the partial log-likelihood of the
    specification, in which the risk denominator at a sorted position is
    the sum of [exp(eta) * sample_weight] over the positions from it on. *)
Theorem deviance_spec (obs : list (ftime * Z * Z)) (lp : list R) :
  boolean_status (with_index obs) ->
  length lp = length obs ->
  let self := preprocess (with_index obs) in
  let dat := data self in
  let eta := eta_of self lp in
  let RiskDen := fun p =>
    sumR (map (fun j => exp (nth j eta 0) * IZR (sample_weight (row_at dat j)))%R
              (seq p (length obs - p))) in
  let loglik :=
    (bigsum (length obs)
            (fun p => if (status (row_at dat p) =? 1)%Z
                      then IZR (sample_weight (row_at dat p)) * nth p eta 0
                      else 0)
     - bigsum (length obs)
              (fun p => if (0 <? nth p (_derived_events self) 0)%Z
                        then IZR (nth p (_derived_weight self) 0%Z)
                             * ln (RiskDen p)
                        else 0))%R in
  exists res,
    call self lp true true = inr res /\
    deviance res = (2 * (_loglik_sat self - loglik))%R.
Proof.
  intros Hb Hlen self dat eta RiskDen loglik0.
  eexists. split; [apply call_ok; [exact Hb | lia] |].
  cbn [deviance]. f_equal. f_equal.
  fold self.
  assert (Hn : length (with_index obs) = length obs) by apply length_with_index.
  unfold self. rewrite loglik_is_spec.
  - unfold loglik_spec, loglik0, RiskDen, risk_den. cbv zeta.
    rewrite length_data, Hn. reflexivity.
  - exact Hb.
  - unfold eta_of. rewrite length_centered, length_map, length_order. reflexivity.
Qed.

Lemma deviance_spec_witness :
  boolean_status (with_index scenario_obs) /\
  length scenario_lp = length scenario_obs /\
  (let self := preprocess (with_index scenario_obs) in
   let dat := data self in
   let eta := eta_of self scenario_lp in
   let RiskDen := fun p =>
     sumR (map (fun j => exp (nth j eta 0)
                         * IZR (sample_weight (row_at dat j)))%R
               (seq p (length scenario_obs - p))) in
   let loglik :=
     (bigsum (length scenario_obs)
             (fun p => if (status (row_at dat p) =? 1)%Z
                       then IZR (sample_weight (row_at dat p)) * nth p eta 0
                       else 0)
      - bigsum (length scenario_obs)
               (fun p => if (0 <? nth p (_derived_events self) 0)%Z
                         then IZR (nth p (_derived_weight self) 0%Z)
                              * ln (RiskDen p)
                         else 0))%R in
   exists res,
     call self scenario_lp true true = inr res /\
     deviance res = (2 * (_loglik_sat self - loglik))%R).
Proof.
  split; [reflexivity |]. split; [reflexivity |].
  apply (deviance_spec scenario_obs scenario_lp); reflexivity.
Defined.

(** ** The sorted frame, position by position *)

Lemma sorted_nth {A : Type} (R : A -> A -> Prop) (d : A) (l : list A)
      (i j : nat) :
  StronglySorted R l -> (i < j < length l)%nat -> R (nth i l d) (nth j l d).
Proof.
  intros Hs. revert i j.
  induction Hs as [| x l Hs IH Hall]; intros i j Hij; simpl in Hij; [lia |].
  destruct j as [| j]; [lia |].
  destruct i as [| i]; simpl.
  - rewrite Forall_forall in Hall. apply Hall. apply nth_In. lia.
  - apply IH. lia.
Qed.

Lemma time_after (dat : list Row) (i j : nat) :
  row_sorted dat -> (i <= j < length dat)%nat ->
  time_leb (event_time (row_at dat i)) (event_time (row_at dat j)) = true.
Proof.
  intros Hs Hij.
  destruct (Nat.eq_dec i j) as [-> | Hne]; [apply time_leb_refl |].
  apply row_leb_time. unfold row_at.
  apply (sorted_nth no_row Hs). lia.
Qed.

Lemma time_before_first (dat : list Row) (q j : nat) :
  row_sorted dat -> boolean_status dat ->
  first_of_group dat q -> (q < length dat)%nat -> (j < q)%nat ->
  time_leb (event_time (row_at dat q)) (event_time (row_at dat j)) = false.
Proof.
  intros Hs Hb [Hst Hfirst] Hq Hj.
  destruct (time_leb (event_time (row_at dat q)) (event_time (row_at dat j)))
    eqn:E; [| reflexivity].
  exfalso. apply (Hfirst j Hj).
  assert (Hle : row_leb (row_at dat j) (row_at dat q) = true).
  { unfold row_at. apply (sorted_nth no_row Hs). lia. }
  apply row_leb_iff in Hle. destruct Hle as [Hle1 Hle2].
  specialize (Hle2 E).
  split.
  - assert (Hjn : (j < length dat)%nat) by lia.
    destruct (boolean_row Hb Hjn) as [H0 | H1]; [| exact H1].
    rewrite H0, Hst in Hle2. lia.
  - apply time_leb_antisym; assumption.
Qed.

Lemma first_before_iff (dat : list Row) (q p : nat) :
  row_sorted dat -> boolean_status dat ->
  first_of_group dat q -> (q < length dat)%nat -> (p < length dat)%nat ->
  (q <=? p)%nat
  = time_leb (event_time (row_at dat q)) (event_time (row_at dat p)).
Proof.
  intros Hs Hb Hf Hq Hp.
  destruct (q <=? p)%nat eqn:E.
  - apply Nat.leb_le in E. symmetry. apply time_after; [exact Hs | lia].
  - apply Nat.leb_gt in E. symmetry.
    apply time_before_first; assumption.
Qed.

(** ** Sums over lists and over positions *)

Lemma sum_over_nth {A : Type} (d : A) (l : list A) (F : A -> R) :
  sum_over l F = bigsum (length l) (fun p => F (nth p l d)).
Proof.
  unfold sum_over, bigsum.
  rewrite <- (map_nth_seq d l) at 1. rewrite map_map. reflexivity.
Qed.

Lemma sum_over_perm {A : Type} (l l' : list A) (F : A -> R) :
  Permutation l l' -> sum_over l F = sum_over l' F.
Proof.
  intros H. unfold sum_over. apply sumR_perm. apply Permutation_map. exact H.
Qed.

Lemma sum_over_ext {A : Type} (l : list A) (F G : A -> R) :
  (forall a, In a l -> F a = G a) -> sum_over l F = sum_over l G.
Proof.
  intros H. unfold sum_over. f_equal. apply map_ext_in. exact H.
Qed.

Lemma sum_over_zero {A : Type} (l : list A) (F : A -> R) :
  (forall a, In a l -> F a = 0%R) -> sum_over l F = 0%R.
Proof.
  intros H. unfold sum_over.
  induction l as [| a l IH]; simpl; [reflexivity |].
  rewrite H by (left; reflexivity).
  rewrite IH by (intros b Hb; apply H; right; exact Hb). lra.
Qed.

Lemma sum_over_app {A : Type} (l l' : list A) (F : A -> R) :
  sum_over (l ++ l') F = (sum_over l F + sum_over l' F)%R.
Proof. unfold sum_over. rewrite map_app. apply sumR_app. Qed.

Lemma sum_over_plus {A : Type} (l : list A) (F G : A -> R) :
  sum_over l (fun a => F a + G a)%R = (sum_over l F + sum_over l G)%R.
Proof.
  unfold sum_over. induction l as [| a l IH]; simpl; [lra |].
  rewrite IH. lra.
Qed.

Lemma sum_over_scal {A : Type} (l : list A) (k : R) (F : A -> R) :
  sum_over l (fun a => k * F a)%R = (k * sum_over l F)%R.
Proof.
  unfold sum_over. induction l as [| a l IH]; simpl; [lra |].
  rewrite IH. lra.
Qed.

Lemma sum_over_filter {A : Type} (l : list A) (P : A -> bool) (F : A -> R) :
  sum_over l (fun a => if P a then F a else 0%R) = sum_over (filter P l) F.
Proof.
  unfold sum_over. induction l as [| a l IH]; simpl; [reflexivity |].
  destruct (P a); simpl; rewrite IH; lra.
Qed.

Lemma sum_over_map {A B : Type} (g : A -> B) (l : list A) (F : B -> R) :
  sum_over (map g l) F = sum_over l (fun a => F (g a)).
Proof. unfold sum_over. rewrite map_map. reflexivity. Qed.

Lemma bigsum_sum_over (n : nat) (f : nat -> R) :
  bigsum n f = sum_over (seq 0 n) f.
Proof. reflexivity. Qed.

Lemma nth_score (dat : list Row) (eta : list R) (p : nat) :
  length eta = length dat -> (p < length dat)%nat ->
  nth p (score dat eta) no_scored = (obs_of (row_at dat p), nth p eta 0%R).
Proof.
  intros Hlen Hp. unfold score, no_scored.
  rewrite combine_nth by (rewrite length_map; lia).
  f_equal. change (NegInf, 0%Z, 0%Z) with (obs_of no_row).
  apply (nth_map_row obs_of).
Qed.

Lemma length_score (dat : list Row) (eta : list R) :
  length eta = length dat -> length (score dat eta) = length dat.
Proof.
  intros H. unfold score. rewrite length_combine, length_map, H.
  apply Nat.min_id.
Qed.

Lemma sum_over_score (dat : list Row) (eta : list R) (F : scored -> R) :
  length eta = length dat ->
  sum_over (score dat eta) F
  = bigsum (length dat) (fun p => F (obs_of (row_at dat p), nth p eta 0%R)).
Proof.
  intros Hlen. rewrite (sum_over_nth no_scored), length_score by exact Hlen.
  apply bigsum_ext. intros p Hp. rewrite nth_score by assumption.
  reflexivity.
Qed.

(** At the first position of a tie group the reversed cumulative sum is the
    risk of all observations whose time is at least the group's time. *)
Lemma risk_den_first (dat : list Row) (eta : list R) (q : nat) :
  row_sorted dat -> boolean_status dat ->
  length eta = length dat -> (q < length dat)%nat ->
  first_of_group dat q ->
  risk_den dat eta q = risk_at (score dat eta) (event_time (row_at dat q)).
Proof.
  intros Hs Hb Hlen Hq Hf. unfold risk_at.
  rewrite sum_over_score by exact Hlen.
  rewrite bigsum_sum_over.
  replace (length dat) with (q + (length dat - q))%nat at 1 by lia.
  rewrite seq_app, sum_over_app. cbn [Nat.add].
  rewrite sum_over_zero.
  - unfold risk_den, sum_over. rewrite Rplus_0_l. f_equal.
    apply map_ext_in. intros j Hj. apply in_seq in Hj.
    unfold s_time, s_weight, s_eta, obs_of. cbn [fst snd].
    rewrite time_after by (try assumption; lia). lra.
  - intros j Hj. apply in_seq in Hj.
    unfold s_time, obs_of. cbn [fst snd].
    rewrite time_before_first by (try assumption; lia). reflexivity.
Qed.

(** ** Regrouping a sum over events by event time *)

Lemma sum_single_out (U : list ftime) (c : ftime) (v : R) :
  ~ In c U -> sum_over U (fun t => if time_eqb c t then v else 0%R) = 0%R.
Proof.
  intros H. apply sum_over_zero. intros t Ht.
  destruct (time_eqb c t) eqn:E; [| reflexivity].
  apply time_eqb_eq in E. subst. contradiction.
Qed.

Lemma sum_single (U : list ftime) (c : ftime) (v : R) :
  NoDup U -> In c U ->
  sum_over U (fun t => if time_eqb c t then v else 0%R) = v.
Proof.
  induction 1 as [| u U Hnin Hnd IH]; intros Hin; [contradiction |].
  unfold sum_over. cbn [map sumR fold_right].
  fold (sumR (map (fun t => if time_eqb c t then v else 0%R) U)).
  fold (sum_over U (fun t => if time_eqb c t then v else 0%R)).
  destruct (time_eqb c u) eqn:E.
  - apply time_eqb_eq in E. subst u.
    rewrite sum_single_out by exact Hnin. lra.
  - apply time_eqb_neq in E.
    destruct Hin as [-> | Hin]; [congruence |].
    rewrite IH by exact Hin. lra.
Qed.

Lemma regroup {A : Type} (l : list A) (P : A -> bool) (k : A -> ftime)
      (h : A -> R) (U : list ftime) :
  NoDup U ->
  (forall a, In a l -> P a = true -> In (k a) U) ->
  sum_over l (fun a => if P a then h a else 0%R)
  = sum_over U (fun t =>
                  sum_over l (fun a => if P a && time_eqb (k a) t
                                       then h a else 0%R)).
Proof.
  intros Hnd. induction l as [| a l IH]; intros HU.
  - symmetry. apply sum_over_zero. reflexivity.
  - assert (HU' : forall b, In b l -> P b = true -> In (k b) U)
      by (intros b Hb; apply HU; right; exact Hb).
    specialize (IH HU').
    transitivity
      (sum_over U (fun t => (if P a && time_eqb (k a) t then h a else 0)
                            + sum_over l (fun b => if P b && time_eqb (k b) t
                                                   then h b else 0))%R).
    2:{ apply sum_over_ext. intros t _. reflexivity. }
    rewrite sum_over_plus, <- IH.
    unfold sum_over at 1. cbn [map sumR fold_right].
    fold (sumR (map (fun a0 => if P a0 then h a0 else 0%R) l)).
    fold (sum_over l (fun a0 => if P a0 then h a0 else 0%R)).
    f_equal.
    destruct (P a) eqn:EP; cbn [andb].
    + symmetry. apply sum_single; [exact Hnd |].
      apply HU; [left; reflexivity | exact EP].
    + symmetry. apply sum_over_zero. reflexivity.
Qed.

Lemma sumR_IZR (l : list Z) : sumR (map IZR l) = IZR (sumZ l).
Proof.
  induction l as [| z l IH]; simpl; [reflexivity |].
  rewrite IH, plus_IZR. reflexivity.
Qed.

Lemma sum_over_combine_fst {A B : Type} (a : list A) (b : list B)
      (F : A -> R) :
  length b = length a ->
  sum_over (combine a b) (fun o => F (fst o)) = sum_over a F.
Proof.
  unfold sum_over. revert b.
  induction a as [| x a IH]; intros [| y b] H; simpl in *; try discriminate;
    [reflexivity |].
  rewrite IH by lia. reflexivity.
Qed.

Lemma agg_as_sum (dat : list Row) (eta : list R) (t : ftime) :
  length eta = length dat ->
  sum_over (score dat eta)
           (fun o => if (s_status o =? 1)%Z && time_eqb (s_time o) t
                     then IZR (s_weight o) else 0%R)
  = IZR (agg_weight dat t).
Proof.
  intros Hlen. unfold score.
  set (F := fun x : ftime * Z * Z =>
              if (snd (fst x) =? 1)%Z && time_eqb (fst (fst x)) t
              then IZR (snd x) else 0%R).
  transitivity (sum_over (combine (map obs_of dat) eta) (fun o => F (fst o)));
    [apply sum_over_ext; reflexivity |].
  rewrite sum_over_combine_fst by (rewrite length_map; exact Hlen).
  rewrite sum_over_map. unfold F.
  rewrite (sum_over_ext dat _
             (fun r => if same_event t r then IZR (sample_weight r) else 0%R))
    by reflexivity.
  rewrite sum_over_filter. unfold sum_over, agg_weight.
  rewrite <- sumR_IZR, map_map. reflexivity.
Qed.

Lemma score_event_time (dat : list Row) (eta : list R) (o : scored) :
  In o (score dat eta) -> (s_status o =? 1)%Z = true ->
  In (s_time o) (event_times dat).
Proof.
  intros Hin Hst. unfold score in Hin.
  destruct o as [x e]. apply in_combine_l in Hin.
  apply in_map_iff in Hin. destruct Hin as [r [Hr Hin]].
  apply event_times_In. apply existsb_exists. exists r.
  split; [exact Hin |].
  subst x. unfold s_status, s_time, obs_of in *. cbn [fst snd] in *.
  unfold same_event, is_event. rewrite Hst. apply time_eqb_refl.
Qed.

(** The positions that carry a derived event equal to 1 are the first
    positions of the tie groups, one per distinct event time. *)
Lemma first_positions_sum (df : list Row) (H : ftime -> R) :
  let self := preprocess df in
  let dat := data self in
  bigsum (length dat)
         (fun q => if (nth q (_derived_events self) 0 =? 1)%Z
                   then H (event_time (row_at dat q)) else 0%R)
  = sum_over (event_times dat) H.
Proof.
  intros self dat.
  assert (Hs : row_sorted dat) by apply sort_values_sorted.
  assert (Hn : length dat = length df) by apply length_data.
  rewrite bigsum_sum_over, sum_over_filter.
  rewrite (@sum_over_perm _ _ (fst (fid_of dat))).
  - rewrite fid_first_index by exact Hs.
    rewrite sum_over_map. apply sum_over_ext. intros t Ht.
    destruct (first_index_row dat t Ht) as (_ & _ & Htime).
    rewrite Htime. reflexivity.
  - apply NoDup_Permutation.
    + apply NoDup_filter. apply seq_NoDup.
    + apply fid_first_NoDup. exact Hs.
    + intros q. rewrite filter_In, in_seq, Z.eqb_eq.
      rewrite (fid_first_In q Hs). split.
      * intros [Hq Hde].
        assert (Hq' : (q < length df)%nat) by lia.
        apply (derived_event_one_iff df Hq') in Hde.
        destruct Hde as [H1 H2]. split; [lia |]. split; assumption.
      * intros (Hq & H1 & H2). split; [lia |].
        apply derived_event_first; [lia |]. split; assumption.
Qed.

(** The master identity: a sum over the first positions of the tie groups,
    with the derived weights and the code's risk denominators, is the sum
    over all event rows with their own weights and the order-free risk. *)
Lemma tie_groups_regroup (df : list Row) (eta : list R)
      (B : ftime -> bool) (c : R -> R) :
  boolean_status df -> length eta = length df ->
  let self := preprocess df in
  let dat := data self in
  bigsum (length dat)
         (fun q => if (nth q (_derived_events self) 0 =? 1)%Z
                      && B (event_time (row_at dat q))
                   then IZR (nth q (_derived_weight self) 0%Z)
                        * c (risk_den dat eta q)
                   else 0)%R
  = sum_over (score dat eta)
             (fun o => if (s_status o =? 1)%Z && B (s_time o)
                       then IZR (s_weight o)
                            * c (risk_at (score dat eta) (s_time o))
                       else 0)%R.
Proof.
  intros Hb Hlen self dat.
  assert (Hs : row_sorted dat) by apply sort_values_sorted.
  assert (Hn : length dat = length df) by apply length_data.
  assert (Hbs : boolean_status dat) by (apply boolean_status_sorted; exact Hb).
  assert (Hle : length eta = length dat) by lia.
  set (Ss := score dat eta).
  set (Hf := fun t => if B t then (IZR (agg_weight dat t) * c (risk_at Ss t))%R
                      else 0%R).
  transitivity (sum_over (event_times dat) Hf).
  - pose proof (first_positions_sum df Hf) as HF.
    cbv zeta in HF. fold self in HF. fold dat in HF. rewrite <- HF. clear HF.
    apply bigsum_ext. intros q Hq.
    destruct (nth q (_derived_events self) 0 =? 1)%Z eqn:E; [| reflexivity].
    cbn [andb]. unfold Hf.
    destruct (B (event_time (row_at dat q))); [| reflexivity].
    apply Z.eqb_eq in E.
    assert (Hq' : (q < length df)%nat) by lia.
    apply (derived_event_one_iff df Hq') in E. fold self dat in E.
    unfold self. rewrite (derived_weight_first df E Hq'). fold self dat.
    rewrite (@risk_den_first dat eta q Hs Hbs Hle Hq E). reflexivity.
  - symmetry.
    rewrite (sum_over_ext Ss _
               (fun o => if (s_status o =? 1)%Z
                         then (if B (s_time o)
                               then IZR (s_weight o) * c (risk_at Ss (s_time o))
                               else 0)%R
                         else 0%R)).
    2:{ intros o _. destruct (s_status o =? 1)%Z, (B (s_time o)); reflexivity. }
    rewrite (regroup Ss (fun o => (s_status o =? 1)%Z) s_time _
                     (event_times_NoDup Hs)).
    2:{ intros o Ho Hst. apply (score_event_time dat eta o Ho Hst). }
    apply sum_over_ext. intros t _. unfold Hf.
    rewrite (sum_over_ext Ss _
               (fun o => (if B t then c (risk_at Ss t) else 0)
                         * (if (s_status o =? 1)%Z && time_eqb (s_time o) t
                            then IZR (s_weight o) else 0))%R).
    2:{ intros o _.
        destruct ((s_status o =? 1)%Z && time_eqb (s_time o) t) eqn:E.
        - apply andb_true_iff in E. destruct E as [_ E].
          apply time_eqb_eq in E. rewrite E.
          destruct (B t); lra.
        - lra. }
    rewrite sum_over_scal. unfold Ss. rewrite agg_as_sum by exact Hle.
    destruct (B t); lra.
Qed.

(** ** The cumulative tables in closed form *)

Lemma prefix_sel_nth (dd : list Z) (v : list R) (acc : R) (p : nat) :
  length v = length dd -> (p < length dd)%nat ->
  nth p (prefix_sel acc dd v) 0%R
  = (acc + bigsum (S p) (fun q => if (nth q dd 0 =? 1)%Z
                                  then nth q v 0 else 0))%R.
Proof.
  revert v acc p. induction dd as [| z dd IH]; intros [| x v] acc p Hlen Hp;
    simpl in Hlen, Hp; try lia; try discriminate.
  rewrite bigsum_S_l. cbn [prefix_sel nth].
  destruct p as [| p].
  - unfold bigsum. simpl. destruct (z =? 1)%Z; lra.
  - rewrite IH by lia.
    destruct (z =? 1)%Z; lra.
Qed.

Lemma bigsum_trunc (m n : nat) (f : nat -> R) :
  (m <= n)%nat ->
  bigsum m f = bigsum n (fun q => if (q <? m)%nat then f q else 0%R).
Proof.
  intros H. rewrite !bigsum_sum_over.
  replace n with (m + (n - m))%nat at 1 by lia.
  rewrite seq_app, sum_over_app. cbn [Nat.add].
  rewrite (sum_over_zero (seq m (n - m))).
  - rewrite Rplus_0_r. apply sum_over_ext. intros q Hq.
    apply in_seq in Hq.
    destruct (q <? m)%nat eqn:E; [reflexivity |].
    apply Nat.ltb_ge in E. lia.
  - intros q Hq. apply in_seq in Hq.
    destruct (q <? m)%nat eqn:E; [| reflexivity].
    apply Nat.ltb_lt in E. lia.
Qed.

Lemma prefix_sel_breslow (df : list Row) (eta v : list R) (c : R -> R)
      (p : nat) :
  boolean_status df -> length eta = length df -> length v = length df ->
  let self := preprocess df in
  let dat := data self in
  (forall q, (q < length df)%nat ->
             nth q v 0%R = (IZR (nth q (_derived_weight self) 0%Z)
                            * c (risk_den dat eta q))%R) ->
  (p < length df)%nat ->
  nth p (prefix_sel 0%R (_derived_events self) v) 0%R
  = events_upto (score dat eta) c (event_time (row_at dat p)).
Proof.
  intros Hb Hlen Hv self dat Hvq Hp.
  assert (Hs : row_sorted dat) by apply sort_values_sorted.
  assert (Hn : length dat = length df) by apply length_data.
  assert (Hbs : boolean_status dat) by (apply boolean_status_sorted; exact Hb).
  assert (Hde : length (_derived_events self) = length df)
    by apply length_derived_events.
  rewrite prefix_sel_nth by lia.
  rewrite Rplus_0_l.
  rewrite (@bigsum_trunc (S p) (length dat)) by lia.
  unfold events_upto.
  pose proof (@tie_groups_regroup df eta
                (fun t => time_leb t (event_time (row_at dat p))) c Hb Hlen)
    as HM.
  cbv zeta in HM. fold self in HM. fold dat in HM. rewrite <- HM. clear HM.
  apply bigsum_ext. intros q Hq.
  destruct (nth q (_derived_events self) 0 =? 1)%Z eqn:E.
  - cbn [andb]. apply Z.eqb_eq in E.
    assert (Hq' : (q < length df)%nat) by lia.
    apply (derived_event_one_iff df Hq') in E. fold self dat in E.
    rewrite <- (@first_before_iff dat q p Hs Hbs E) by lia.
    rewrite Hvq by exact Hq'.
    destruct (q <=? p)%nat eqn:E1, (q <? S p)%nat eqn:E2; try reflexivity.
    + apply Nat.leb_le in E1. apply Nat.ltb_ge in E2. lia.
    + apply Nat.leb_gt in E1. apply Nat.ltb_lt in E2. lia.
  - cbn [andb]. destruct (q <? S p)%nat; reflexivity.
Qed.

Lemma nth_derived_w (self : right_censored) (q : nat) :
  nth q (_derived_w self) 0%R = IZR (nth q (_derived_weight self) 0%Z).
Proof. unfold _derived_w. apply (map_nth IZR). Qed.

Lemma inv_at_breslow (df : list Row) (eta : list R) (p : nat) :
  boolean_status df -> length eta = length df -> (p < length df)%nat ->
  let self := preprocess df in
  nth p (inv_at self eta) 0%R
  = events_upto (score (data self) eta) Rinv (event_time (row_at (data self) p)).
Proof.
  intros Hb Hlen Hp self. unfold inv_at.
  assert (Hn : length (data self) = length df) by apply length_data.
  assert (Hr : length (rskden self eta) = length df)
    by (rewrite length_rskden; lia).
  assert (Hw : length (_derived_w self) = length df)
    by (unfold _derived_w; rewrite length_map; apply length_derived_weight).
  apply prefix_sel_breslow; try assumption.
  - rewrite length_map2, Hw, Hr. apply Nat.min_id.
  - intros q Hq.
    rewrite nth_map2 by lia.
    rewrite nth_derived_w, rskden_nth by lia.
    reflexivity.
Qed.

Lemma inv2_at_breslow (df : list Row) (eta : list R) (p : nat) :
  boolean_status df -> length eta = length df -> (p < length df)%nat ->
  let self := preprocess df in
  nth p (inv2_at self eta) 0%R
  = events_upto (score (data self) eta) inv_sq
                (event_time (row_at (data self) p)).
Proof.
  intros Hb Hlen Hp self. unfold inv2_at.
  assert (Hn : length (data self) = length df) by apply length_data.
  assert (Hr : length (rskden self eta) = length df)
    by (rewrite length_rskden; lia).
  assert (Hw : length (_derived_w self) = length df)
    by (unfold _derived_w; rewrite length_map; apply length_derived_weight).
  apply prefix_sel_breslow; try assumption.
  - rewrite length_map2, length_map, Hw, Hr. apply Nat.min_id.
  - intros q Hq.
    rewrite nth_map2 by (rewrite ?length_map; lia).
    rewrite nth_derived_w.
    rewrite (nth_indep (map _ _) 0%R ((fun x => x ^ 2) 0)%R)
      by (rewrite length_map; lia).
    rewrite (map_nth (fun x => x ^ 2)%R).
    rewrite rskden_nth by lia.
    reflexivity.
Qed.

Lemma derived_events_pos (df : list Row) (p : nat) :
  boolean_status df ->
  (0 <? nth p (_derived_events (preprocess df)) 0)%Z
  = (nth p (_derived_events (preprocess df)) 0 =? 1)%Z.
Proof.
  intros Hb. apply is01_pos.
  destruct (Nat.lt_ge_cases p (length (_derived_events (preprocess df))))
    as [Hlt | Hge].
  - pose proof (derived_events_boolean Hb) as H.
    rewrite Forall_forall in H. apply H. apply nth_In. exact Hlt.
  - left. apply nth_overflow. exact Hge.
Qed.

(** The partial log-likelihood in order-free form. *)
Lemma loglik_breslow_sorted (df : list Row) (eta : list R) :
  boolean_status df -> length eta = length df ->
  let self := preprocess df in
  loglik self eta = loglik_breslow (score (data self) eta).
Proof.
  intros Hb Hlen self. unfold self. rewrite loglik_is_spec by assumption.
  fold self. unfold loglik_spec, loglik_breslow. cbv zeta.
  assert (Hn : length (data self) = length df) by apply length_data.
  f_equal.
  - rewrite sum_over_score by lia. apply bigsum_ext. intros p Hp.
    reflexivity.
  - pose proof (@tie_groups_regroup df eta (fun _ => true) ln Hb Hlen) as HM.
    cbv zeta in HM. fold self in HM.
    rewrite (sum_over_ext (score (data self) eta) _
               (fun o => if (s_status o =? 1)%Z && true
                         then IZR (s_weight o)
                              * ln (risk_at (score (data self) eta) (s_time o))
                         else 0)%R)
      by (intros o _; rewrite andb_true_r; reflexivity).
    rewrite <- HM. apply bigsum_ext. intros p Hp.
    unfold self. rewrite derived_events_pos by exact Hb.
    rewrite andb_true_r. reflexivity.
Qed.

(** ** Gradient and Hessian in sorted order *)

Lemma nth_exp_eta (eta : list R) (p : nat) :
  (p < length eta)%nat -> nth p (exp_eta eta) 0%R = exp (nth p eta 0%R).
Proof.
  intros Hp. unfold exp_eta.
  rewrite (nth_indep _ 0%R (exp 0)) by (rewrite length_map; exact Hp).
  apply (map_nth exp).
Qed.

Lemma length_inv_at (df : list Row) (eta : list R) :
  length eta = length df ->
  length (inv_at (preprocess df) eta) = length df.
Proof.
  intros Hlen. unfold inv_at.
  assert (Hv : length (map2 Rdiv (_derived_w (preprocess df))
                            (rskden (preprocess df) eta)) = length df).
  { rewrite length_map2. unfold _derived_w.
    rewrite length_map, length_derived_weight, length_rskden
      by (rewrite length_data; exact Hlen).
    rewrite length_data. apply Nat.min_id. }
  revert Hv. generalize (map2 Rdiv (_derived_w (preprocess df))
                              (rskden (preprocess df) eta)).
  rewrite <- (length_derived_events df).
  generalize (_derived_events (preprocess df)). generalize 0%R.
  intros acc dd. revert acc.
  induction dd as [| z dd IH]; intros acc [| x v] H; simpl in *;
    try discriminate; [reflexivity |].
  rewrite IH by lia. reflexivity.
Qed.

Lemma length_prefix_sel (dd : list Z) (v : list R) (acc : R) :
  length v = length dd -> length (prefix_sel acc dd v) = length dd.
Proof.
  revert v acc. induction dd as [| z dd IH]; intros [| x v] acc H;
    simpl in *; try discriminate; [reflexivity |].
  rewrite IH by lia. reflexivity.
Qed.

Lemma length_inv2_at (df : list Row) (eta : list R) :
  length eta = length df ->
  length (inv2_at (preprocess df) eta) = length df.
Proof.
  intros Hlen. unfold inv2_at.
  rewrite length_prefix_sel; [apply length_derived_events |].
  rewrite length_map2, length_map. unfold _derived_w.
  rewrite length_map, length_derived_weight, length_rskden
    by (rewrite length_data; exact Hlen).
  rewrite length_data, length_derived_events. apply Nat.min_id.
Qed.

Lemma length_grad_values (df : list Row) (eta : list R) :
  length eta = length df ->
  length (grad_values (preprocess df) eta) = length df.
Proof.
  intros Hlen. unfold grad_values.
  rewrite !length_map2, length_inv_at by exact Hlen.
  unfold w, d, exp_eta. rewrite !length_map, length_data, Hlen.
  rewrite !Nat.min_id. reflexivity.
Qed.

Lemma length_hess_values (df : list Row) (eta : list R) :
  length eta = length df ->
  length (hess_values (preprocess df) eta) = length df.
Proof.
  intros Hlen. unfold hess_values.
  rewrite !length_map2, length_map, !length_map2,
    length_inv_at, length_inv2_at by exact Hlen.
  unfold w, exp_eta. rewrite !length_map, length_data, Hlen.
  rewrite !Nat.min_id. reflexivity.
Qed.

Lemma grad_values_breslow (df : list Row) (eta : list R) (p : nat) :
  boolean_status df -> length eta = length df -> (p < length df)%nat ->
  let self := preprocess df in
  let Ss := score (data self) eta in
  (2 * nth p (grad_values self eta) 0)%R
  = grad_breslow Ss (nth p Ss no_scored).
Proof.
  intros Hb Hlen Hp self Ss.
  assert (Hn : length (data self) = length df) by apply length_data.
  unfold grad_values.
  assert (Hi : length (inv_at self eta) = length df)
    by (apply length_inv_at; exact Hlen).
  assert (He : length (exp_eta eta) = length df)
    by (unfold exp_eta; rewrite length_map; exact Hlen).
  assert (Hw : length (w self) = length df)
    by (unfold w; rewrite length_map; exact Hn).
  assert (Hd : length (map IZR (d self)) = length df)
    by (unfold d; rewrite !length_map; exact Hn).
  rewrite nth_map2 by (rewrite ?length_map2; lia).
  rewrite nth_map2 by (rewrite ?length_map2; lia).
  rewrite nth_map2 by lia.
  rewrite nth_w, nth_exp_eta by lia.
  unfold d. rewrite (map_nth IZR), (nth_map_row status).
  unfold self. rewrite inv_at_breslow by assumption. fold self. fold Ss.
  unfold Ss. rewrite nth_score by lia. fold Ss.
  unfold grad_breslow, s_weight, s_status, s_eta, s_time, obs_of.
  cbn [fst snd]. reflexivity.
Qed.

Lemma hess_values_breslow (df : list Row) (eta : list R) (p : nat) :
  boolean_status df -> length eta = length df -> (p < length df)%nat ->
  let self := preprocess df in
  let Ss := score (data self) eta in
  (2 * nth p (hess_values self eta) 0)%R
  = hess_breslow Ss (nth p Ss no_scored).
Proof.
  intros Hb Hlen Hp self Ss.
  assert (Hn : length (data self) = length df) by apply length_data.
  unfold hess_values.
  assert (Hi : length (inv_at self eta) = length df)
    by (apply length_inv_at; exact Hlen).
  assert (Hi2 : length (inv2_at self eta) = length df)
    by (apply length_inv2_at; exact Hlen).
  assert (He : length (exp_eta eta) = length df)
    by (unfold exp_eta; rewrite length_map; exact Hlen).
  assert (Hw : length (w self) = length df)
    by (unfold w; rewrite length_map; exact Hn).
  assert (Hwe : length (map2 Rmult (w self) (exp_eta eta)) = length df)
    by (rewrite length_map2; lia).
  rewrite nth_map2 by (rewrite ?length_map2, ?length_map; lia).
  rewrite nth_map2 by (rewrite ?length_map; lia).
  rewrite nth_map2 by lia.
  rewrite (nth_indep (map _ _) 0%R ((fun x => x ^ 2) 0)%R)
    by (rewrite length_map; lia).
  rewrite (map_nth (fun x => x ^ 2)%R).
  rewrite nth_map2 by lia.
  rewrite nth_w, nth_exp_eta by lia.
  unfold self. rewrite inv_at_breslow, inv2_at_breslow by assumption.
  fold self. fold Ss.
  unfold Ss. rewrite nth_score by lia. fold Ss.
  unfold hess_breslow, s_weight, s_status, s_eta, s_time, obs_of.
  cbn [fst snd]. reflexivity.
Qed.

(** ** Back to the caller's order *)

Lemma length_scatter (order : list nat) (v : list R) :
  length (scatter order v) = length v.
Proof. unfold scatter. rewrite length_set_items. apply repeat_length. Qed.

Lemma set_items_nth {A : Type} (d : A) (ks : list nat) (vs a : list A)
      (p : nat) :
  NoDup ks -> length vs = length ks ->
  (forall k, In k ks -> (k < length a)%nat) ->
  (p < length ks)%nat ->
  nth (nth p ks 0%nat) (set_items a ks vs) d = nth p vs d.
Proof.
  revert vs a p. induction ks as [| k ks IH]; intros [| v vs] a p Hnd Hlen Hlt Hp;
    simpl in Hlen, Hp; try lia; try discriminate.
  inversion Hnd as [| ? ? Hnin Hnd']; subst.
  cbn [set_items]. destruct p as [| p]; cbn [nth].
  - rewrite set_items_notin by exact Hnin.
    apply nth_set_nth_eq. apply Hlt. left. reflexivity.
  - apply IH; try assumption; try lia.
    intros k' Hk'. rewrite length_set_nth. apply Hlt. right. exact Hk'.
Qed.

Lemma scatter_nth (order : list nat) (v : list R) (p : nat) :
  Permutation order (seq 0 (length v)) -> (p < length v)%nat ->
  nth (nth p order 0%nat) (scatter order v) 0%R = nth p v 0%R.
Proof.
  intros Hperm Hp. unfold scatter.
  assert (Hlen : length order = length v).
  { rewrite (Permutation_length Hperm). apply length_seq. }
  apply set_items_nth.
  - eapply Permutation_NoDup; [apply Permutation_sym; exact Hperm |].
    apply seq_NoDup.
  - lia.
  - intros k Hk. rewrite repeat_length.
    eapply Permutation_in in Hk; [| exact Hperm].
    apply in_seq in Hk. lia.
  - lia.
Qed.

Lemma nth_double (v : list R) (i : nat) :
  nth i (double v) 0%R = (2 * nth i v 0)%R.
Proof.
  unfold double.
  destruct (Nat.lt_ge_cases i (length v)) as [Hlt | Hge].
  - rewrite (nth_indep _ 0%R ((fun y => 2 * y) 0)%R)
      by (rewrite length_map; exact Hlt).
    apply (map_nth (fun y => 2 * y)%R).
  - rewrite !nth_overflow by (rewrite ?length_map; exact Hge). lra.
Qed.

Lemma perm_position (order : list nat) (n i : nat) :
  Permutation order (seq 0 n) -> (i < n)%nat ->
  exists p, (p < n)%nat /\ nth p order 0%nat = i.
Proof.
  intros Hperm Hi.
  assert (Hin : In i order).
  { eapply Permutation_in; [apply Permutation_sym; exact Hperm |].
    apply in_seq. lia. }
  destruct (In_nth order i 0%nat Hin) as [p [Hp Hnth]].
  exists p. split; [| exact Hnth].
  rewrite (Permutation_length Hperm), length_seq in Hp. exact Hp.
Qed.

(** The contents of the fresh buffer of [np.empty_like] do not matter: a
    permutation overwrites every cell. *)
Lemma scatter_any_buffer (order : list nat) (v a : list R) :
  Permutation order (seq 0 (length v)) -> length a = length v ->
  set_items a order v = scatter order v.
Proof.
  intros Hperm Ha.
  assert (Hlen : length order = length v).
  { rewrite (Permutation_length Hperm). apply length_seq. }
  assert (Hnd : NoDup order).
  { eapply Permutation_NoDup; [apply Permutation_sym; exact Hperm |].
    apply seq_NoDup. }
  assert (Hlt : forall b : list R, length b = length v ->
                forall k, In k order -> (k < length b)%nat).
  { intros b Hb k Hk. eapply Permutation_in in Hk; [| exact Hperm].
    apply in_seq in Hk. lia. }
  apply (nth_ext _ _ 0%R 0%R).
  - rewrite length_scatter, length_set_items. exact Ha.
  - intros i Hi. rewrite length_set_items, Ha in Hi.
    destruct (@perm_position order (length v) i Hperm Hi) as [p [Hp Hpi]].
    rewrite <- Hpi. rewrite scatter_nth by assumption.
    apply set_items_nth; try assumption; try lia.
    apply Hlt. exact Ha.
Qed.

Lemma gather_perm (lp : list R) (order : list nat) :
  Permutation order (seq 0 (length lp)) ->
  Permutation (map (fun k => nth k lp 0%R) order) lp.
Proof.
  intros H.
  apply (Permutation_map (fun k => nth k lp 0%R)) in H.
  rewrite map_nth_seq in H. exact H.
Qed.

Lemma mean_perm (l l' : list R) : Permutation l l' -> mean l = mean l'.
Proof.
  intros H. unfold mean.
  rewrite (sumR_perm H), (Permutation_length H). reflexivity.
Qed.

Lemma nth_centered (lp : list R) (k : nat) :
  (k < length lp)%nat ->
  nth k (centered lp) 0%R = (nth k lp 0 - mean lp)%R.
Proof.
  intros Hk. unfold centered.
  rewrite (nth_indep _ 0%R ((fun x => x - mean lp) 0)%R)
    by (rewrite length_map; exact Hk).
  apply (map_nth (fun x => x - mean lp)%R).
Qed.

Lemma centered_gather (lp : list R) (order : list nat) :
  Permutation order (seq 0 (length lp)) ->
  centered (map (fun k => nth k lp 0%R) order)
  = map (fun k => nth k (centered lp) 0%R) order.
Proof.
  intros H. unfold centered at 1.
  rewrite (mean_perm (gather_perm lp H)), map_map.
  apply map_ext_in. intros k Hk.
  eapply Permutation_in in Hk; [| exact H]. apply in_seq in Hk.
  rewrite nth_centered by lia. reflexivity.
Qed.

Lemma in_combine_seq {B : Type} (d : B) (l : list B) (k i : nat) (o : B) :
  In (i, o) (combine (seq k (length l)) l) ->
  (k <= i < k + length l)%nat /\ nth (i - k) l d = o.
Proof.
  revert k. induction l as [| x l IH]; intros k H; simpl in H;
    [contradiction |].
  destruct H as [H | H].
  - injection H as <- <-. split; [simpl; lia |].
    rewrite Nat.sub_diag. reflexivity.
  - apply IH in H. destruct H as [H1 H2]. split; [simpl; lia |].
    replace (i - k)%nat with (S (i - S k)) by lia. exact H2.
Qed.

Lemma with_index_row (obs : list (ftime * Z * Z)) (r : Row) :
  In r (with_index obs) ->
  (index r < length obs)%nat /\ nth (index r) obs no_obs = obs_of r.
Proof.
  unfold with_index. intros H. apply in_map_iff in H.
  destruct H as [[i o] [Hr Hin]]. subst r. cbn [index fst snd obs_of].
  apply (in_combine_seq no_obs) in Hin. rewrite Nat.sub_0_r in Hin.
  destruct Hin as [H1 H2]. split; [lia |].
  rewrite H2. destruct o as [[t s] w0]. reflexivity.
Qed.

Lemma obs_of_sorted (obs : list (ftime * Z * Z)) :
  let self := preprocess (with_index obs) in
  map obs_of (data self) = map (fun k => nth k obs no_obs) (_order self).
Proof.
  intros self. cbn [_order data self preprocess]. rewrite map_map.
  apply map_ext_in. intros r Hr. symmetry.
  apply with_index_row.
  eapply Permutation_in; [apply sort_values_perm | exact Hr].
Qed.

Lemma combine_map_both {A B C : Type} (f : A -> B) (g : A -> C) (l : list A) :
  combine (map f l) (map g l) = map (fun k => (f k, g k)) l.
Proof.
  induction l as [| x l IH]; simpl; [reflexivity |].
  rewrite IH. reflexivity.
Qed.

Lemma length_scored_obs (obs : list (ftime * Z * Z)) (lp : list R) :
  length lp = length obs -> length (scored_obs obs lp) = length obs.
Proof.
  intros H. unfold scored_obs.
  rewrite length_combine, length_centered, H. apply Nat.min_id.
Qed.

Lemma nth_scored_obs (obs : list (ftime * Z * Z)) (lp : list R) (k : nat) :
  length lp = length obs ->
  nth k (scored_obs obs lp) no_scored
  = (nth k obs no_obs, nth k (centered lp) 0%R).
Proof.
  intros H. unfold scored_obs, no_scored, no_obs.
  apply combine_nth. rewrite length_centered. lia.
Qed.

(** The scored observations in sorted order are those of the caller,
    gathered through [_order]. *)
Lemma score_gather (obs : list (ftime * Z * Z)) (lp : list R) :
  length lp = length obs ->
  let self := preprocess (with_index obs) in
  score (data self) (eta_of self lp)
  = map (fun k => nth k (scored_obs obs lp) no_scored) (_order self).
Proof.
  intros Hlen self. unfold score, eta_of.
  assert (Hperm : Permutation (_order self) (seq 0 (length lp)))
    by (rewrite Hlen; apply order_perm).
  rewrite centered_gather by exact Hperm.
  unfold self. rewrite obs_of_sorted. fold self.
  rewrite combine_map_both. apply map_ext. intros k.
  rewrite nth_scored_obs by exact Hlen. reflexivity.
Qed.

Lemma score_perm (obs : list (ftime * Z * Z)) (lp : list R) :
  length lp = length obs ->
  let self := preprocess (with_index obs) in
  Permutation (score (data self) (eta_of self lp)) (scored_obs obs lp).
Proof.
  intros Hlen self. unfold self. rewrite score_gather by exact Hlen.
  pose proof (order_perm obs) as H.
  rewrite <- (length_scored_obs obs lp Hlen) in H.
  apply (Permutation_map (fun k => nth k (scored_obs obs lp) no_scored)) in H.
  rewrite map_nth_seq in H. exact H.
Qed.

(** ** The order-free formulas do not depend on the order *)

Lemma risk_at_perm (S S' : list scored) (t : ftime) :
  Permutation S S' -> risk_at S t = risk_at S' t.
Proof. intros H. unfold risk_at. apply sum_over_perm. exact H. Qed.

Lemma events_upto_perm (S S' : list scored) (c : R -> R) (t : ftime) :
  Permutation S S' -> events_upto S c t = events_upto S' c t.
Proof.
  intros H. unfold events_upto.
  rewrite (sum_over_perm _ H).
  apply sum_over_ext. intros o _.
  rewrite (risk_at_perm _ H). reflexivity.
Qed.

Lemma grad_breslow_perm (S S' : list scored) (o : scored) :
  Permutation S S' -> grad_breslow S o = grad_breslow S' o.
Proof.
  intros H. unfold grad_breslow. rewrite (events_upto_perm _ _ H).
  reflexivity.
Qed.

Lemma hess_breslow_perm (S S' : list scored) (o : scored) :
  Permutation S S' -> hess_breslow S o = hess_breslow S' o.
Proof.
  intros H. unfold hess_breslow.
  rewrite (events_upto_perm inv_sq _ H), (events_upto_perm Rinv _ H).
  reflexivity.
Qed.

Lemma loglik_breslow_perm (S S' : list scored) :
  Permutation S S' -> loglik_breslow S = loglik_breslow S'.
Proof.
  intros H. unfold loglik_breslow.
  rewrite !(sum_over_perm _ H). f_equal.
  apply sum_over_ext. intros o _.
  rewrite (risk_at_perm _ H). reflexivity.
Qed.

Lemma filter_map_comm {A B : Type} (P : B -> bool) (f : A -> B) (l : list A) :
  filter P (map f l) = map f (filter (fun a => P (f a)) l).
Proof.
  induction l as [| x l IH]; simpl; [reflexivity |].
  destruct (P (f x)); simpl; rewrite IH; reflexivity.
Qed.

Lemma obs_agg_rows (df : list Row) (t : ftime) :
  obs_agg (map obs_of df) t = agg_weight df t.
Proof.
  unfold obs_agg, agg_weight. rewrite filter_map_comm, map_map.
  reflexivity.
Qed.

Lemma saturated_spec_obs (df : list Row) :
  saturated_spec df = saturated_obs (map obs_of df).
Proof.
  unfold saturated_spec, saturated_obs, sum_over.
  rewrite filter_map_comm, map_map. cbn [obs_of fst snd].
  f_equal. f_equal.
  apply map_ext. intros t. rewrite obs_agg_rows. reflexivity.
Qed.

Lemma obs_of_with_index (obs : list (ftime * Z * Z)) :
  map obs_of (with_index obs) = obs.
Proof.
  unfold with_index. rewrite map_map. unfold obs_of.
  cbn [event_time status sample_weight].
  generalize 0%nat.
  induction obs as [| [[t s] w0] obs IH]; intros k; simpl; [reflexivity |].
  rewrite IH. reflexivity.
Qed.

Lemma obs_agg_perm (O O' : list (ftime * Z * Z)) (t : ftime) :
  Permutation O O' -> obs_agg O t = obs_agg O' t.
Proof.
  unfold obs_agg.
  induction 1 as [| x l l' _ IH | x y l | l l' l'' _ IH1 _ IH2]; simpl.
  - reflexivity.
  - destruct (obs_event t x); simpl; rewrite IH; reflexivity.
  - destruct (obs_event t x), (obs_event t y); simpl; lia.
  - congruence.
Qed.

Lemma saturated_obs_perm (O O' : list (ftime * Z * Z)) :
  Permutation O O' -> saturated_obs O = saturated_obs O'.
Proof.
  intros H. unfold saturated_obs. f_equal.
  rewrite (@sum_over_perm _ _
             (distinct (map (fun o => fst (fst o))
                            (filter (fun o => (snd (fst o) =? 1)%Z) O')))).
  - apply sum_over_ext. intros t _. rewrite (obs_agg_perm t H). reflexivity.
  - apply NoDup_Permutation; try apply distinct_NoDup.
    intros t. rewrite !distinct_In, !in_map_iff.
    split; intros [o [Ht Ho]]; exists o; (split; [exact Ht |]);
      apply filter_In in Ho; apply filter_In; (split; [| tauto]).
    + eapply Permutation_in; [exact H | tauto].
    + eapply Permutation_in; [apply Permutation_sym; exact H | tauto].
Qed.

Lemma loglik_sat_obs (obs : list (ftime * Z * Z)) :
  _loglik_sat (preprocess (with_index obs)) = saturated_obs obs.
Proof.
  rewrite loglik_sat_spec, saturated_spec_obs, obs_of_with_index.
  reflexivity.
Qed.

(** ** The result in the caller's order *)

Lemma boolean_obs (obs : list (ftime * Z * Z)) :
  boolean_status (with_index obs) <->
  Forall (fun o => snd (fst o) = 0%Z \/ snd (fst o) = 1%Z) obs.
Proof.
  rewrite boolean_status_Forall.
  rewrite <- (Forall_map status (fun z => z = 0%Z \/ z = 1%Z)).
  rewrite status_with_index.
  rewrite (Forall_map (fun o : ftime * Z * Z => snd (fst o))
                      (fun z => z = 0%Z \/ z = 1%Z)).
  reflexivity.
Qed.

(** The closed form of a call: the deviance, and at every original
    position the gradient and the diagonal Hessian, are the order-free
    Breslow formulas evaluated on the caller's own observations. *)
Lemma breslow_closed_form (obs : list (ftime * Z * Z)) (lp : list R) :
  boolean_status (with_index obs) ->
  length lp = length obs ->
  let self := preprocess (with_index obs) in
  let S := scored_obs obs lp in
  exists g h,
    call self lp true true
    = inr {| deviance := (2 * (saturated_obs obs - loglik_breslow S))%R;
             grad := Some g;
             diag_hessian := Some h |} /\
    length g = length obs /\ length h = length obs /\
    forall i, (i < length obs)%nat ->
              nth i g 0%R = grad_breslow S (nth i S no_scored) /\
              nth i h 0%R = hess_breslow S (nth i S no_scored).
Proof.
  intros Hb Hlen. cbv zeta.
  assert (Hn : length (with_index obs) = length obs) by apply length_with_index.
  assert (Heta : length (eta_of (preprocess (with_index obs)) lp)
                 = length (with_index obs)).
  { unfold eta_of. rewrite length_centered, length_map. apply length_order. }
  pose proof (score_perm obs lp Hlen) as Hperm. cbv zeta in Hperm.
  exists (double (scatter (_order (preprocess (with_index obs)))
                          (grad_values (preprocess (with_index obs))
                                       (eta_of (preprocess (with_index obs)) lp)))).
  exists (double (scatter (_order (preprocess (with_index obs)))
                          (hess_values (preprocess (with_index obs))
                                       (eta_of (preprocess (with_index obs)) lp)))).
  split; [| split; [| split]].
  - rewrite call_ok by (try assumption; lia).
    rewrite loglik_sat_obs.
    rewrite loglik_breslow_sorted by assumption.
    rewrite (loglik_breslow_perm Hperm). reflexivity.
  - unfold double. rewrite length_map, length_scatter.
    rewrite length_grad_values by exact Heta. exact Hn.
  - unfold double. rewrite length_map, length_scatter.
    rewrite length_hess_values by exact Heta. exact Hn.
  - intros i Hi.
    destruct (@perm_position (_order (preprocess (with_index obs)))
                             (length obs) i (order_perm obs) Hi)
      as [p [Hp Hpi]].
    assert (HS : nth p (score (data (preprocess (with_index obs)))
                              (eta_of (preprocess (with_index obs)) lp))
                     no_scored
                 = nth i (scored_obs obs lp) no_scored).
    { rewrite score_gather by exact Hlen.
      rewrite (nth_indep _ no_scored
                 ((fun k => nth k (scored_obs obs lp) no_scored) 0%nat))
        by (rewrite length_map, length_order; lia).
      rewrite (map_nth (fun k => nth k (scored_obs obs lp) no_scored)).
      rewrite Hpi. reflexivity. }
    split.
    + rewrite <- HS, nth_double, <- Hpi.
      rewrite scatter_nth.
      * rewrite grad_values_breslow by (try assumption; lia).
        apply grad_breslow_perm. exact Hperm.
      * rewrite length_grad_values by exact Heta.
        rewrite Hn. apply order_perm.
      * rewrite length_grad_values by exact Heta. lia.
    + rewrite <- HS, nth_double, <- Hpi.
      rewrite scatter_nth.
      * rewrite hess_values_breslow by (try assumption; lia).
        apply hess_breslow_perm. exact Hperm.
      * rewrite length_hess_values by exact Heta.
        rewrite Hn. apply order_perm.
      * rewrite length_hess_values by exact Heta. lia.
Qed.

(** ** Permuting the observations *)

Lemma permute_perm {A : Type} (d : A) (sigma : list nat) (l : list A) :
  Permutation sigma (seq 0 (length l)) -> Permutation (permute d sigma l) l.
Proof.
  intros H. unfold permute.
  apply (Permutation_map (fun k => nth k l d)) in H.
  rewrite map_nth_seq in H. exact H.
Qed.

Lemma length_permute {A : Type} (d : A) (sigma : list nat) (l : list A) :
  length (permute d sigma l) = length sigma.
Proof. unfold permute. apply length_map. Qed.

Lemma nth_permute {A : Type} (d : A) (sigma : list nat) (l : list A) (i : nat) :
  (i < length sigma)%nat ->
  nth i (permute d sigma l) d = nth (nth i sigma 0%nat) l d.
Proof.
  intros Hi. unfold permute.
  rewrite (nth_indep _ d ((fun k => nth k l d) 0%nat))
    by (rewrite length_map; exact Hi).
  apply (map_nth (fun k => nth k l d)).
Qed.

Lemma scored_permute (obs : list (ftime * Z * Z)) (lp : list R)
      (sigma : list nat) :
  length lp = length obs ->
  Permutation sigma (seq 0 (length obs)) ->
  scored_obs (permute no_obs sigma obs) (permute 0%R sigma lp)
  = permute no_scored sigma (scored_obs obs lp).
Proof.
  intros Hlen Hperm. unfold scored_obs at 1. unfold permute.
  rewrite centered_gather by (rewrite Hlen; exact Hperm).
  rewrite combine_map_both. apply map_ext. intros k.
  rewrite nth_scored_obs by exact Hlen. reflexivity.
Qed.

Lemma boolean_permute (obs : list (ftime * Z * Z)) (sigma : list nat) :
  Permutation sigma (seq 0 (length obs)) ->
  boolean_status (with_index obs) ->
  boolean_status (with_index (permute no_obs sigma obs)).
Proof.
  intros Hperm Hb. apply boolean_obs. apply boolean_obs in Hb.
  eapply Permutation_Forall;
    [apply Permutation_sym; apply permute_perm; exact Hperm | exact Hb].
Qed.

(** C8. For every dataset with 0/1 status and every predictor of length
    [n]: the gradient and the diagonal Hessian are indexed by the caller's
    observations (entry [i] is the Breslow derivative of observation [i],
    whatever the sorted order is); and when the rows and the predictor are
    rearranged by one permutation, the deviance is unchanged and the
    gradient and the Hessian are rearranged by that same permutation,
    exactly, over the reals. *)
Theorem permutation_equivariance
        (obs : list (ftime * Z * Z)) (lp : list R) (sigma : list nat) :
  boolean_status (with_index obs) ->
  length lp = length obs ->
  Permutation sigma (seq 0 (length obs)) ->
  let S := scored_obs obs lp in
  exists res res' g h,
    call (preprocess (with_index obs)) lp true true = inr res /\
    call (preprocess (with_index (permute no_obs sigma obs)))
         (permute 0%R sigma lp) true true = inr res' /\
    grad res = Some g /\ diag_hessian res = Some h /\
    length g = length obs /\ length h = length obs /\
    (forall i, (i < length obs)%nat ->
               nth i g 0%R = grad_breslow S (nth i S no_scored) /\
               nth i h 0%R = hess_breslow S (nth i S no_scored)) /\
    deviance res' = deviance res /\
    grad res' = Some (permute 0%R sigma g) /\
    diag_hessian res' = Some (permute 0%R sigma h).
Proof.
  intros Hb Hlen Hperm S.
  assert (Hls : length sigma = length obs).
  { rewrite (Permutation_length Hperm). apply length_seq. }
  destruct (breslow_closed_form obs lp Hb Hlen)
    as (g & h & Hcall & Hlg & Hlh & Hpt).
  assert (Hb' : boolean_status (with_index (permute no_obs sigma obs)))
    by (apply boolean_permute; assumption).
  assert (Hlen' : length (permute 0%R sigma lp)
                  = length (permute no_obs sigma obs))
    by (rewrite !length_permute; reflexivity).
  destruct (breslow_closed_form (permute no_obs sigma obs)
                                (permute 0%R sigma lp) Hb' Hlen')
    as (g' & h' & Hcall' & Hlg' & Hlh' & Hpt').
  rewrite length_permute in Hlg', Hlh', Hpt'.
  rewrite scored_permute in Hcall', Hpt' by assumption.
  fold S in Hcall, Hpt, Hcall', Hpt'.
  assert (HSperm : Permutation (permute no_scored sigma S) S).
  { apply permute_perm. unfold S.
    rewrite length_scored_obs by exact Hlen. exact Hperm. }
  assert (Hsig : forall i, (i < length sigma)%nat ->
                           (nth i sigma 0%nat < length obs)%nat).
  { intros i Hi.
    assert (Hin : In (nth i sigma 0%nat) (seq 0 (length obs))).
    { eapply Permutation_in; [exact Hperm | apply nth_In; exact Hi]. }
    apply in_seq in Hin. lia. }
  assert (Hg : g' = permute 0%R sigma g).
  { apply (nth_ext _ _ 0%R 0%R); [rewrite length_permute; lia |].
    intros i Hi. rewrite Hlg' in Hi.
    destruct (Hpt' i Hi) as [Hgi _]. rewrite Hgi.
    rewrite nth_permute by exact Hi.
    rewrite (nth_permute 0%R sigma g) by exact Hi.
    destruct (Hpt (nth i sigma 0%nat) (Hsig i Hi)) as [Hgs _].
    rewrite Hgs. apply grad_breslow_perm. exact HSperm. }
  assert (Hh : h' = permute 0%R sigma h).
  { apply (nth_ext _ _ 0%R 0%R); [rewrite length_permute; lia |].
    intros i Hi. rewrite Hlh' in Hi.
    destruct (Hpt' i Hi) as [_ Hhi]. rewrite Hhi.
    rewrite nth_permute by exact Hi.
    rewrite (nth_permute 0%R sigma h) by exact Hi.
    destruct (Hpt (nth i sigma 0%nat) (Hsig i Hi)) as [_ Hhs].
    rewrite Hhs. apply hess_breslow_perm. exact HSperm. }
  eexists. eexists. exists g, h.
  split; [exact Hcall |]. split; [exact Hcall' |].
  cbn [grad diag_hessian deviance].
  repeat (split; [first [reflexivity | assumption] |]).
  split; [| split; [rewrite Hg | rewrite Hh]; reflexivity].
  rewrite (saturated_obs_perm (@permute_perm _ no_obs sigma obs Hperm)).
  rewrite (loglik_breslow_perm HSperm). reflexivity.
Qed.

Lemma permutation_equivariance_witness :
  boolean_status (with_index (unit_obs [rat 1 1; rat 2 1] [1%Z; 0%Z])) /\
  length [0%R; 1%R] = length (unit_obs [rat 1 1; rat 2 1] [1%Z; 0%Z]) /\
  Permutation [1; 0]%nat (seq 0 (length (unit_obs [rat 1 1; rat 2 1] [1%Z; 0%Z]))) /\
  exists res res',
    call (preprocess (with_index (unit_obs [rat 1 1; rat 2 1] [1%Z; 0%Z])))
         [0%R; 1%R] true true = inr res /\
    call (preprocess
            (with_index (permute no_obs [1; 0]%nat
                                 (unit_obs [rat 1 1; rat 2 1] [1%Z; 0%Z]))))
         (permute 0%R [1; 0]%nat [0%R; 1%R]) true true = inr res' /\
    deviance res' = deviance res.
Proof.
  assert (Hp : Permutation [1; 0]%nat
                 (seq 0 (length (unit_obs [rat 1 1; rat 2 1] [1%Z; 0%Z]))))
    by apply perm_swap.
  split; [reflexivity |]. split; [reflexivity |]. split; [exact Hp |].
  destruct (permutation_equivariance
              (unit_obs [rat 1 1; rat 2 1] [1%Z; 0%Z]) [0%R; 1%R]
              eq_refl eq_refl Hp)
    as (res & res' & g & h & H1 & H2 & _ & _ & _ & _ & _ & H3 & _).
  exists res, res'. auto.
Defined.

(** ** The exceptions of a partial request

    For a dataset with 0/1 status and a predictor that is long enough, the
    exception that a partial request ends in: doubling [None] when only the
    gradient is left out, an unbound local otherwise. *)
Lemma partial_request_exceptions (obs : list (ftime * Z * Z)) (lp : list R) :
  boolean_status (with_index obs) ->
  (length obs <= length lp)%nat ->
  let self := preprocess (with_index obs) in
  call self lp false true = inl TypeError /\
  call self lp true false = inl UnboundLocalError /\
  call self lp false false = inl UnboundLocalError.
Proof.
  intros Hb Hlen self.
  assert (Heta : length (centered (map (fun k => nth k lp 0%R) (_order self)))
                 = length (with_index obs)).
  { rewrite length_centered, length_map. apply length_order. }
  unfold call, self. rewrite take_order_ok by exact Hlen.
  cbv beta iota delta [bind]. unfold finish, derivatives.
  cbv beta iota delta [orb].
  rewrite grad_sorted_ok, hess_sorted_ok by assumption.
  repeat split.
Qed.

(* ================================================================== *)
(** * Further properties of the code *)

(** ** Sums over lists *)

Lemma sum_over_cons {A : Type} (a : A) (l : list A) (F : A -> R) :
  sum_over (a :: l) F = (F a + sum_over l F)%R.
Proof. reflexivity. Qed.

Lemma sum_over_swap {A B : Type} (l : list A) (l' : list B) (F : A -> B -> R) :
  sum_over l (fun a => sum_over l' (F a))
  = sum_over l' (fun b => sum_over l (fun a => F a b)).
Proof.
  induction l as [| a l IH].
  - symmetry. apply sum_over_zero. intros; reflexivity.
  - rewrite sum_over_cons, IH.
    rewrite <- sum_over_plus. reflexivity.
Qed.

Lemma sum_over_le {A : Type} (l : list A) (F G : A -> R) :
  (forall a, In a l -> (F a <= G a)%R) -> (sum_over l F <= sum_over l G)%R.
Proof.
  induction l as [| a l IH]; intros H.
  - apply Rle_refl.
  - rewrite !sum_over_cons. apply Rplus_le_compat.
    + apply H. left; reflexivity.
    + apply IH. intros b Hb. apply H. right; exact Hb.
Qed.

Lemma sum_over_nonneg {A : Type} (l : list A) (F : A -> R) :
  (forall a, In a l -> (0 <= F a)%R) -> (0 <= sum_over l F)%R.
Proof.
  intros H. rewrite <- (sum_over_zero l (fun _ => 0%R)) by reflexivity.
  apply sum_over_le. exact H.
Qed.

Lemma sum_over_term_le {A : Type} (l : list A) (F : A -> R) (a : A) :
  (forall b, In b l -> (0 <= F b)%R) -> In a l -> (F a <= sum_over l F)%R.
Proof.
  induction l as [| b l IH]; intros Hnn Hin; [destruct Hin |].
  rewrite sum_over_cons.
  assert (Hl : (0 <= sum_over l F)%R).
  { apply sum_over_nonneg. intros c Hc. apply Hnn. right; exact Hc. }
  destruct Hin as [-> | Hin].
  - lra.
  - assert (Hb : (0 <= F b)%R) by (apply Hnn; left; reflexivity).
    assert (Ha : (F a <= sum_over l F)%R).
    { apply IH; [| exact Hin]. intros c Hc. apply Hnn. right; exact Hc. }
    lra.
Qed.

(** ** The Breslow sums for positive weights *)

Section BreslowFacts.
Variable S : list (ftime * Z * Z * R).
Hypothesis weights_pos : forall o, In o S -> (0 < s_weight o)%Z.

Lemma risk_term_nonneg (t : ftime) (o : ftime * Z * Z * R) :
  In o S ->
  (0 <= (if time_leb t (s_time o)
         then IZR (s_weight o) * exp (s_eta o) else 0))%R.
Proof.
  intros Hin. destruct (time_leb t (s_time o)); [| apply Rle_refl].
  apply Rmult_le_pos.
  - apply IZR_le. apply weights_pos in Hin. lia.
  - left. apply exp_pos.
Qed.

Lemma risk_at_ge (t : ftime) (o : ftime * Z * Z * R) :
  In o S -> time_leb t (s_time o) = true ->
  (IZR (s_weight o) * exp (s_eta o) <= risk_at S t)%R.
Proof.
  intros Hin Hle. unfold risk_at.
  pose proof (@sum_over_term_le _ S
                (fun o => if time_leb t (s_time o)
                          then IZR (s_weight o) * exp (s_eta o) else 0)%R
                o (risk_term_nonneg t) Hin) as H.
  cbv beta in H. rewrite Hle in H. exact H.
Qed.

Lemma risk_at_pos (t : ftime) (o : ftime * Z * Z * R) :
  In o S -> time_leb t (s_time o) = true -> (0 < risk_at S t)%R.
Proof.
  intros Hin Hle.
  apply Rlt_le_trans with (IZR (s_weight o) * exp (s_eta o))%R.
  - apply Rmult_lt_0_compat; [| apply exp_pos].
    apply IZR_lt. apply weights_pos. exact Hin.
  - apply risk_at_ge; assumption.
Qed.

Lemma risk_at_own_pos (o : ftime * Z * Z * R) :
  In o S -> (0 < risk_at S (s_time o))%R.
Proof. intros Hin. apply (@risk_at_pos (s_time o) o Hin). apply time_leb_refl. Qed.

(** Swapping the two sums: the risk of every observation, weighted by
    the events before it, adds up to the weight of the events. *)
Lemma events_upto_total :
  sum_over S (fun o => IZR (s_weight o) * exp (s_eta o)
                       * events_upto S Rinv (s_time o))%R
  = sum_over S (fun o => if (s_status o =? 1)%Z then IZR (s_weight o) else 0)%R.
Proof.
  unfold events_upto.
  transitivity
    (sum_over S (fun o =>
       sum_over S (fun o' =>
         (if (s_status o' =? 1)%Z
          then IZR (s_weight o') * / risk_at S (s_time o') else 0)
         * (if time_leb (s_time o') (s_time o)
            then IZR (s_weight o) * exp (s_eta o) else 0)))%R).
  { apply sum_over_ext. intros o _.
    rewrite <- sum_over_scal. apply sum_over_ext. intros o' _.
    destruct (s_status o' =? 1)%Z, (time_leb (s_time o') (s_time o));
      simpl; ring. }
  rewrite sum_over_swap.
  apply sum_over_ext. intros o' Hin.
  rewrite sum_over_scal. fold (risk_at S (s_time o')).
  destruct (s_status o' =? 1)%Z; [| ring].
  field. apply Rgt_not_eq. apply risk_at_own_pos. exact Hin.
Qed.

Lemma events_upto_nonneg (c : R -> R) (t : ftime) :
  (forall x, (0 < x)%R -> (0 <= c x)%R) ->
  (0 <= events_upto S c t)%R.
Proof.
  intros Hc. unfold events_upto. apply sum_over_nonneg. intros o Hin.
  destruct ((s_status o =? 1)%Z && time_leb (s_time o) t);
    [| apply Rle_refl].
  apply Rmult_le_pos.
  - apply IZR_le. apply weights_pos in Hin. lia.
  - apply Hc. apply risk_at_own_pos. exact Hin.
Qed.

Lemma grad_breslow_total :
  (forall o, In o S -> s_status o = 0%Z \/ s_status o = 1%Z) ->
  sum_over S (grad_breslow S) = 0%R.
Proof.
  intros Hb. unfold grad_breslow.
  rewrite sum_over_scal.
  transitivity
    (2 * (sum_over S (fun o => if (s_status o =? 1)%Z
                               then IZR (s_weight o) else 0)
          + sum_over S (fun o => -1 * (IZR (s_weight o) * exp (s_eta o)
                                       * events_upto S Rinv (s_time o)))))%R.
  { f_equal. rewrite <- sum_over_plus. apply sum_over_ext. intros o Hin.
    destruct (Hb o Hin) as [-> | ->]; simpl; ring. }
  rewrite sum_over_scal, events_upto_total. ring.
Qed.

(** The second-order term is dominated by the first-order one. *)
Lemma events_upto_sq_le (o : ftime * Z * Z * R) :
  In o S ->
  ((IZR (s_weight o) * exp (s_eta o)) ^ 2 * events_upto S inv_sq (s_time o)
   <= IZR (s_weight o) * exp (s_eta o) * events_upto S Rinv (s_time o))%R.
Proof.
  intros Hin. unfold events_upto.
  rewrite <- !sum_over_scal. apply sum_over_le. intros o' Hin'.
  destruct ((s_status o' =? 1)%Z && time_leb (s_time o') (s_time o)) eqn:E;
    [| lra].
  apply andb_prop in E. destruct E as [_ Hle].
  pose proof (@risk_at_ge _ _ Hin Hle) as Hx.
  pose proof (@risk_at_own_pos _ Hin') as HD.
  set (x := (IZR (s_weight o) * exp (s_eta o))%R) in *.
  set (D := risk_at S (s_time o')) in *.
  assert (Hx0 : (0 < x)%R).
  { unfold x. apply Rmult_lt_0_compat; [| apply exp_pos].
    apply IZR_lt. apply weights_pos. exact Hin. }
  assert (Hw : (0 < IZR (s_weight o'))%R).
  { apply IZR_lt. apply weights_pos. exact Hin'. }
  unfold inv_sq.
  assert (Hq : (x * / D <= 1)%R).
  { apply Rmult_le_reg_r with D; [exact HD |].
    rewrite Rmult_assoc, Rinv_l by lra. lra. }
  assert (Hq0 : (0 < x * / D)%R).
  { apply Rmult_lt_0_compat; [exact Hx0 |]. apply Rinv_0_lt_compat. exact HD. }
  replace (x ^ 2 * (IZR (s_weight o') * / D ^ 2))%R
    with (IZR (s_weight o') * ((x * / D) * (x * / D)))%R
    by (field; lra).
  replace (x * (IZR (s_weight o') * / D))%R
    with (IZR (s_weight o') * (x * / D))%R by ring.
  apply Rmult_le_compat_l; [lra |].
  rewrite <- (Rmult_1_r (x * / D)) at 3.
  apply Rmult_le_compat_l; lra.
Qed.
End BreslowFacts.

(** ** What construction guarantees *)

Lemma unit_obs_weight (et : list ftime) (st : list Z) (o : ftime * Z * Z) :
  In o (unit_obs et st) -> snd o = 1%Z.
Proof.
  unfold unit_obs. destruct o as [ts w0]. intros H.
  apply in_combine_r in H. apply repeat_spec in H. exact H.
Qed.

Lemma length_unit_obs (et : list ftime) (st : list Z) :
  length et = length st -> length (unit_obs et st) = length et.
Proof.
  intros H. unfold unit_obs. rewrite !length_combine, repeat_length. lia.
Qed.

Lemma data_rows (obs : list (ftime * Z * Z)) (r : Row) :
  In r (data (preprocess (with_index obs))) -> In (obs_of r) obs.
Proof.
  intros Hin. simpl in Hin.
  apply (Permutation_in _ (sort_values_perm (with_index obs))) in Hin.
  destruct (with_index_row obs r Hin) as [Hlt Hnth].
  rewrite <- Hnth. apply nth_In. exact Hlt.
Qed.

(** X1. A preprocessor is only ever built without sample weights (a supplied
    weight vector ends in an exception), and then from columns of one
    length; it has one row per observation, every weight is 1, and
    [_order] is a permutation of the positions [0 .. n-1]. *)
Theorem constructed_unit_weights (et : list ftime) (st : list Z)
        (sw : option (list Z)) (self : right_censored) :
  post_init et st sw = inr self ->
  sw = None /\ length et = length st /\
  length (data self) = length et /\
  Forall (fun r => sample_weight r = 1%Z) (data self) /\
  Permutation (_order self) (seq 0 (length et)).
Proof.
  unfold post_init. intros H.
  destruct (length et =? length st)%nat eqn:E; simpl in H; [| discriminate].
  apply Nat.eqb_eq in E.
  destruct sw as [sw |]; [discriminate |].
  injection H as <-. fold (unit_obs et st).
  split; [reflexivity |]. split; [exact E |].
  split; [| split].
  - rewrite length_data, length_with_index. apply length_unit_obs. exact E.
  - apply Forall_forall. intros r Hin. apply data_rows in Hin.
    apply unit_obs_weight in Hin. exact Hin.
  - rewrite <- (length_unit_obs et st E). apply order_perm.
Qed.

Lemma constructed_unit_weights_witness :
  post_init scenario_time scenario_status None
  = inr (preprocess (with_index scenario_obs)) /\
  Forall (fun r => sample_weight r = 1%Z)
         (data (preprocess (with_index scenario_obs))).
Proof.
  split; [reflexivity |].
  destruct (@constructed_unit_weights scenario_time scenario_status None _
              eq_refl) as (_ & _ & _ & H & _).
  exact H.
Defined.

(** ** Gradient and Hessian of a call *)

Lemma scored_obs_In (obs : list (ftime * Z * Z)) (lp : list R)
      (o : ftime * Z * Z * R) :
  In o (scored_obs obs lp) -> In (fst o) obs.
Proof. unfold scored_obs. destruct o as [a e]. apply in_combine_l. Qed.

Lemma scored_weights_pos (obs : list (ftime * Z * Z)) (lp : list R) :
  positive_weights obs ->
  forall o, In o (scored_obs obs lp) -> (0 < s_weight o)%Z.
Proof.
  intros Hw o Hin. apply scored_obs_In in Hin.
  unfold positive_weights in Hw. rewrite Forall_forall in Hw.
  apply (Hw _ Hin).
Qed.

Lemma scored_boolean (obs : list (ftime * Z * Z)) (lp : list R) :
  boolean_status (with_index obs) ->
  forall o, In o (scored_obs obs lp) -> s_status o = 0%Z \/ s_status o = 1%Z.
Proof.
  intros Hb o Hin. apply scored_obs_In in Hin.
  apply boolean_obs in Hb. rewrite Forall_forall in Hb.
  apply (Hb _ Hin).
Qed.

Lemma sumR_as_bigsum (g : list R) :
  sumR g = bigsum (length g) (fun i => nth i g 0%R).
Proof. unfold bigsum. rewrite map_nth_seq. reflexivity. Qed.

Lemma scored_nth_In (obs : list (ftime * Z * Z)) (lp : list R) (i : nat) :
  length lp = length obs -> (i < length obs)%nat ->
  In (nth i (scored_obs obs lp) no_scored) (scored_obs obs lp).
Proof.
  intros Hlen Hi. apply nth_In. rewrite length_scored_obs by exact Hlen.
  exact Hi.
Qed.

Lemma scenario_positive : positive_weights scenario_obs.
Proof.
  unfold positive_weights. apply Forall_forall. intros o Hin.
  rewrite (unit_obs_weight _ _ _ Hin). reflexivity.
Qed.

(** X11. For 0/1 status, positive weights and a predictor of length [n]
    the gradient that a call returns adds up to zero: the partial
    likelihood does not change when every score is shifted by one
    constant. *)
Theorem gradient_sums_to_zero (obs : list (ftime * Z * Z)) (lp : list R) :
  boolean_status (with_index obs) ->
  length lp = length obs ->
  positive_weights obs ->
  exists res g,
    call (preprocess (with_index obs)) lp true true = inr res /\
    grad res = Some g /\
    sumR g = 0%R.
Proof.
  intros Hb Hlen Hw.
  destruct (breslow_closed_form obs lp Hb Hlen)
    as (g & h & Hcall & Hg & _ & Hnth).
  eexists. exists g. split; [exact Hcall |]. split; [reflexivity |].
  rewrite sumR_as_bigsum, Hg.
  rewrite <- (length_scored_obs obs lp Hlen).
  rewrite (@bigsum_ext _ _
             (fun i => grad_breslow (scored_obs obs lp)
                                    (nth i (scored_obs obs lp) no_scored))).
  - rewrite <- (sum_over_nth no_scored).
    apply grad_breslow_total.
    + apply scored_weights_pos. exact Hw.
    + apply scored_boolean. exact Hb.
  - intros i Hi. rewrite length_scored_obs in Hi by exact Hlen.
    apply (Hnth i Hi).
Qed.

Lemma gradient_sums_to_zero_witness :
  boolean_status (with_index scenario_obs) /\
  length scenario_lp = length scenario_obs /\
  positive_weights scenario_obs /\
  exists res g,
    call (preprocess (with_index scenario_obs)) scenario_lp true true
    = inr res /\
    grad res = Some g /\ sumR g = 0%R.
Proof.
  split; [reflexivity |]. split; [reflexivity |].
  split; [exact scenario_positive |].
  apply (@gradient_sums_to_zero scenario_obs scenario_lp);
    [reflexivity | reflexivity | exact scenario_positive].
Defined.

(** X12. The signs of what a call returns, for 0/1 status, positive weights
    and a predictor of length [n]: every entry of the diagonal Hessian is
    at most zero, and entry [i] of the gradient is at most twice
    [weight * status] of observation [i], so it is at most zero at a
    censored observation. *)
Theorem derivative_signs (obs : list (ftime * Z * Z)) (lp : list R) :
  boolean_status (with_index obs) ->
  length lp = length obs ->
  positive_weights obs ->
  exists res g h,
    call (preprocess (with_index obs)) lp true true = inr res /\
    grad res = Some g /\ diag_hessian res = Some h /\
    forall i, (i < length obs)%nat ->
      (nth i h 0 <= 0)%R /\
      (nth i g 0 <= 2 * (IZR (snd (nth i obs no_obs))
                         * IZR (snd (fst (nth i obs no_obs)))))%R /\
      (snd (fst (nth i obs no_obs)) = 0%Z -> (nth i g 0 <= 0)%R).
Proof.
  intros Hb Hlen Hw.
  destruct (breslow_closed_form obs lp Hb Hlen)
    as (g & h & Hcall & _ & _ & Hnth).
  eexists. exists g, h. split; [exact Hcall |].
  split; [reflexivity |]. split; [reflexivity |].
  intros i Hi. destruct (Hnth i Hi) as [Hgi Hhi].
  pose proof (scored_weights_pos lp Hw) as HS.
  pose proof (scored_nth_In obs lp Hlen Hi) as Hin.
  assert (Hgle : (nth i g 0 <= 2 * (IZR (snd (nth i obs no_obs))
                                    * IZR (snd (fst (nth i obs no_obs)))))%R).
  { rewrite Hgi. unfold grad_breslow.
    rewrite nth_scored_obs by exact Hlen.
    unfold s_weight, s_status, s_time, s_eta. simpl fst. simpl snd.
    assert (H0 : (0 <= events_upto (scored_obs obs lp) Rinv
                                   (fst (fst (nth i obs no_obs))))%R).
    { apply (@events_upto_nonneg _ HS). intros x Hx. left.
      apply Rinv_0_lt_compat. exact Hx. }
    assert (Hwi : (0 < IZR (snd (nth i obs no_obs)))%R).
    { apply IZR_lt. unfold positive_weights in Hw.
      rewrite Forall_forall in Hw. apply Hw. apply nth_In. exact Hi. }
    pose proof (exp_pos (nth i (centered lp) 0%R)) as He.
    assert (Hm : (0 <= exp (nth i (centered lp) 0)
                       * events_upto (scored_obs obs lp) Rinv
                                     (fst (fst (nth i obs no_obs))))%R).
    { apply Rmult_le_pos; lra. }
    nra. }
  split; [| split].
  - rewrite Hhi. unfold hess_breslow.
    pose proof (@events_upto_sq_le _ HS _ Hin) as H. lra.
  - exact Hgle.
  - intros Hz. rewrite Hz in Hgle. lra.
Qed.

Lemma derivative_signs_witness :
  boolean_status (with_index scenario_obs) /\
  length scenario_lp = length scenario_obs /\
  positive_weights scenario_obs /\
  exists res g h,
    call (preprocess (with_index scenario_obs)) scenario_lp true true
    = inr res /\
    grad res = Some g /\ diag_hessian res = Some h /\
    (nth 0 h 0 <= 0)%R /\ (nth 0 g 0 <= 0)%R.
Proof.
  split; [reflexivity |]. split; [reflexivity |].
  split; [exact scenario_positive |].
  destruct (@derivative_signs scenario_obs scenario_lp
              eq_refl eq_refl scenario_positive)
    as (res & g & h & Hc & Hg & Hh & Hi).
  exists res, g, h.
  assert (H0 : (0 < length scenario_obs)%nat) by (vm_compute; lia).
  destruct (Hi 0%nat H0) as (H1 & _ & H3).
  repeat split; try assumption. apply H3. reflexivity.
Defined.

(** X14. With no event at all (every status 0) a call returns deviance zero, a
    zero gradient and a zero diagonal Hessian, whatever the scores. *)
Theorem all_censored_zero (obs : list (ftime * Z * Z)) (lp : list R) :
  length lp = length obs ->
  Forall (fun o => snd (fst o) = 0%Z) obs ->
  exists res,
    call (preprocess (with_index obs)) lp true true = inr res /\
    deviance res = 0%R /\
    grad res = Some (repeat 0%R (length obs)) /\
    diag_hessian res = Some (repeat 0%R (length obs)).
Proof.
  intros Hlen Hz.
  assert (Hb : boolean_status (with_index obs)).
  { apply boolean_obs. eapply Forall_impl; [| exact Hz].
    intros o Ho. left. exact Ho. }
  destruct (breslow_closed_form obs lp Hb Hlen)
    as (g & h & Hcall & Hg & Hh & Hnth).
  assert (Hs : forall o, In o (scored_obs obs lp) -> (s_status o =? 1)%Z = false).
  { intros o Hin. apply scored_obs_In in Hin.
    rewrite Forall_forall in Hz. unfold s_status. rewrite (Hz _ Hin).
    reflexivity. }
  assert (Hup : forall c t, events_upto (scored_obs obs lp) c t = 0%R).
  { intros c t. unfold events_upto. apply sum_over_zero. intros o Hin.
    rewrite (Hs o Hin). reflexivity. }
  assert (Hrep : forall v : list R,
             length v = length obs ->
             (forall i, (i < length obs)%nat -> nth i v 0%R = 0%R) ->
             v = repeat 0%R (length obs)).
  { intros v Hv Hi. apply (nth_ext v (repeat 0%R (length obs)) 0%R 0%R).
    - rewrite repeat_length. exact Hv.
    - intros i Hlt. rewrite Hv in Hlt. rewrite (Hi i Hlt).
      rewrite nth_repeat. reflexivity. }
  eexists. split; [exact Hcall |]. cbn [deviance grad diag_hessian].
  split; [| split].
  - assert (Hsat : saturated_obs obs = 0%R).
    { unfold saturated_obs.
      replace (filter (fun o : ftime * Z * Z => (snd (fst o) =? 1)%Z) obs)
        with (@nil (ftime * Z * Z)).
      - unfold sum_over. simpl. ring.
      - symmetry. clear -Hz. induction Hz as [| o l Ho _ IH]; [reflexivity |].
        simpl. rewrite Ho. simpl. exact IH. }
    assert (Hll : loglik_breslow (scored_obs obs lp) = 0%R).
    { unfold loglik_breslow.
      rewrite !sum_over_zero; [ring | |];
        intros o Hin; rewrite (Hs o Hin); reflexivity. }
    rewrite Hsat, Hll. ring.
  - f_equal. apply Hrep; [exact Hg |]. intros i Hi.
    rewrite (proj1 (Hnth i Hi)). unfold grad_breslow. rewrite Hup.
    pose proof (scored_nth_In obs lp Hlen Hi) as Hin.
    apply scored_obs_In in Hin. rewrite Forall_forall in Hz.
    unfold s_status. rewrite (Hz _ Hin). simpl. ring.
  - f_equal. apply Hrep; [exact Hh |]. intros i Hi.
    rewrite (proj2 (Hnth i Hi)). unfold hess_breslow. rewrite !Hup. ring.
Qed.

Lemma all_censored_zero_witness :
  length [0%R; 1%R] = length (unit_obs [rat 1 1; rat 2 1] [0%Z; 0%Z]) /\
  Forall (fun o : ftime * Z * Z => snd (fst o) = 0%Z)
         (unit_obs [rat 1 1; rat 2 1] [0%Z; 0%Z]) /\
  exists res,
    call (preprocess (with_index (unit_obs [rat 1 1; rat 2 1] [0%Z; 0%Z])))
         [0%R; 1%R] true true = inr res /\
    deviance res = 0%R.
Proof.
  assert (Hz : Forall (fun o : ftime * Z * Z => snd (fst o) = 0%Z)
                      (unit_obs [rat 1 1; rat 2 1] [0%Z; 0%Z])).
  { repeat constructor. }
  split; [reflexivity |]. split; [exact Hz |].
  destruct (@all_censored_zero (unit_obs [rat 1 1; rat 2 1] [0%Z; 0%Z])
              [0%R; 1%R] eq_refl Hz) as (res & Hc & Hd & _).
  exists res. split; assumption.
Defined.

(** ** The gather and the scatter of a call *)

Lemma nth_gather (v : list R) (order : list nat) (p : nat) :
  (p < length order)%nat ->
  nth p (map (fun k => nth k v 0%R) order) 0%R = nth (nth p order 0%nat) v 0%R.
Proof.
  intros Hp.
  rewrite (nth_indep _ 0%R ((fun k => nth k v 0%R) 0%nat))
    by (rewrite length_map; exact Hp).
  apply (map_nth (fun k => nth k v 0%R)).
Qed.

(** X9. Lines 63 and 82/92 undo one another: for a vector of length [n],
    gathering it by [_order] and scattering the result back gives the
    vector again, and so does scattering first and gathering afterwards. *)
Theorem gather_scatter_round_trip (obs : list (ftime * Z * Z)) (v : list R) :
  length v = length obs ->
  let order := _order (preprocess (with_index obs)) in
  scatter order (map (fun k => nth k v 0%R) order) = v /\
  map (fun k => nth k (scatter order v) 0%R) order = v.
Proof.
  intros Hv order.
  assert (Hlo : length order = length obs).
  { unfold order. rewrite length_order. apply length_with_index. }
  assert (Hperm : Permutation order (seq 0 (length obs))) by apply order_perm.
  split.
  - apply (nth_ext _ _ 0%R 0%R).
    + rewrite length_scatter, length_map. lia.
    + intros i Hi. rewrite length_scatter, length_map, Hlo in Hi.
      destruct (@perm_position order (length obs) i Hperm Hi) as [p [Hp Hpi]].
      rewrite <- Hpi at 1. rewrite scatter_nth.
      * rewrite nth_gather by lia. rewrite Hpi. reflexivity.
      * rewrite length_map, Hlo. exact Hperm.
      * rewrite length_map. lia.
  - apply (nth_ext _ _ 0%R 0%R).
    + rewrite length_map. lia.
    + intros p Hp. rewrite length_map in Hp.
      rewrite (nth_gather (scatter order v) order Hp).
      apply scatter_nth.
      * rewrite Hv. exact Hperm.
      * lia.
Qed.

Lemma gather_scatter_round_trip_witness :
  length scenario_lp = length scenario_obs /\
  scatter (_order (preprocess (with_index scenario_obs)))
          (map (fun k => nth k scenario_lp 0%R)
               (_order (preprocess (with_index scenario_obs))))
  = scenario_lp.
Proof.
  split; [reflexivity |].
  apply (@gather_scatter_round_trip scenario_obs scenario_lp). reflexivity.
Defined.

(** ** The risk denominators *)

Lemma data_weights_pos (obs : list (ftime * Z * Z)) :
  positive_weights obs ->
  forall r, In r (data (preprocess (with_index obs))) ->
            (0 < sample_weight r)%Z.
Proof.
  intros Hw r Hin. apply data_rows in Hin.
  unfold positive_weights in Hw. rewrite Forall_forall in Hw.
  apply (Hw _ Hin).
Qed.

Lemma risk_den_split (dat : list Row) (eta : list R) (i j : nat) :
  (i <= j <= length dat)%nat ->
  risk_den dat eta i
  = (sumR (map (fun k => exp (nth k eta 0)
                         * IZR (sample_weight (row_at dat k)))%R
               (seq i (j - i)))
     + risk_den dat eta j)%R.
Proof.
  intros Hij. unfold risk_den.
  replace (length dat - i)%nat with ((j - i) + (length dat - j))%nat by lia.
  rewrite seq_app, map_app, sumR_app.
  replace (i + (j - i))%nat with j by lia. reflexivity.
Qed.

(** X10. For positive weights the risk denominators of line 72 are positive and
    do not increase along the sorted order: the logarithm of line 74 and the
    divisions of lines 78 and 87 never meet a zero. *)
Theorem risk_denominators (obs : list (ftime * Z * Z)) (eta : list R) :
  positive_weights obs ->
  length eta = length obs ->
  let self := preprocess (with_index obs) in
  length (rskden self eta) = length obs /\
  forall i j, (i <= j)%nat -> (j < length obs)%nat ->
    (0 < nth j (rskden self eta) 0 <= nth i (rskden self eta) 0)%R.
Proof.
  intros Hw Heta self.
  assert (Hn : length (data self) = length obs).
  { unfold self. rewrite length_data. apply length_with_index. }
  assert (Heta' : length eta = length (data self)) by lia.
  split.
  - rewrite length_rskden by exact Heta'. exact Hn.
  - intros i j Hij Hj.
    rewrite !rskden_nth by lia.
    split.
    + apply risk_den_pos; [| lia]. apply data_weights_pos. exact Hw.
    + rewrite (@risk_den_split (data self) eta i j) by lia.
      assert (H0 : (0 <= sumR (map (fun k => exp (nth k eta 0)
                                     * IZR (sample_weight (row_at (data self) k)))%R
                                   (seq i (j - i))))%R).
      { apply (@sum_over_nonneg _ (seq i (j - i))
                 (fun k => exp (nth k eta 0)
                           * IZR (sample_weight (row_at (data self) k)))%R).
        intros k Hk. apply in_seq in Hk.
        apply Rmult_le_pos; [left; apply exp_pos |].
        apply IZR_le.
        assert (0 < sample_weight (row_at (data self) k))%Z; [| lia].
        apply (data_weights_pos Hw). apply row_at_In. fold self. lia. }
      lra.
Qed.

Lemma risk_denominators_witness :
  positive_weights scenario_obs /\
  length scenario_lp = length scenario_obs /\
  Forall (fun x => (0 < x)%R)
         (rskden (preprocess (with_index scenario_obs)) scenario_lp).
Proof.
  split; [exact scenario_positive |]. split; [reflexivity |].
  destruct (@risk_denominators scenario_obs scenario_lp
              scenario_positive eq_refl) as [Hl Hp].
  apply Forall_forall. intros x Hx.
  destruct (In_nth _ _ 0%R Hx) as [j [Hj <-]].
  rewrite Hl in Hj. apply (Hp j j (le_n j) Hj).
Defined.

(** ** A status above 1 *)

Lemma np_get_none {A : Type} (a : list A) (k : Z) :
  (Z.of_nat (length a) <= k)%Z -> np_get a k = None.
Proof.
  intros H. unfold np_get.
  replace (k <? Z.of_nat (length a))%Z with false
    by (symmetry; apply Z.ltb_ge; exact H).
  replace (k <? 0)%Z with false by (symmetry; apply Z.ltb_ge; lia).
  rewrite !andb_false_r. reflexivity.
Qed.

Lemma np_take_raises {A : Type} (a : list A) (ks : list Z) :
  Exists (fun k => np_get a k = None) ks -> np_take a ks = inl IndexError.
Proof.
  induction ks as [| k ks IH]; intros H; [inversion H |].
  simpl. destruct (np_get a k) eqn:E; [| reflexivity].
  inversion H as [? ? H1 | ? ? H1]; subst.
  - congruence.
  - rewrite (IH H1). reflexivity.
Qed.

Lemma length_mask_select_filter {A B : Type} (f : A -> bool) (l : list A)
      (v : list B) :
  length v = length l ->
  length (mask_select (map f l) v) = length (filter f l).
Proof.
  revert v. induction l as [| x l IH]; intros [| y v] H; simpl in *;
    try reflexivity; try discriminate.
  destruct (f x); simpl; rewrite IH by lia; reflexivity.
Qed.

Lemma count_le_sumZ (l : list Z) :
  Forall (fun z => 0 <= z)%Z l ->
  (Z.of_nat (length (filter (fun x => x =? 1)%Z l)) <= sumZ l)%Z.
Proof.
  induction 1 as [| x l Hx _ IH]; simpl; [lia |].
  destruct (x =? 1)%Z eqn:E; simpl length; lia.
Qed.

Lemma sumZ_count_bound (l : list Z) (s : Z) :
  Forall (fun z => 0 <= z)%Z l -> In s l -> (2 <= s)%Z ->
  (Z.of_nat (length (filter (fun x => x =? 1)%Z l)) + s <= sumZ l)%Z.
Proof.
  intros Hnn. induction Hnn as [| x l Hx Hl IH]; intros Hin Hs;
    [destruct Hin |].
  simpl. destruct Hin as [-> | Hin].
  - replace (s =? 1)%Z with false by (symmetry; apply Z.eqb_neq; lia).
    pose proof (count_le_sumZ Hl). lia.
  - specialize (IH Hin Hs).
    destruct (x =? 1)%Z eqn:E; simpl length; lia.
Qed.

Lemma lookup_raises (obs : list (ftime * Z * Z)) (v : list R) :
  Forall (fun o => 0 <= snd (fst o))%Z obs ->
  Exists (fun o => 2 <= snd (fst o))%Z obs ->
  length v = length obs ->
  let self := preprocess (with_index obs) in
  np_take (0%R :: cumsumR (mask_select
                             (map (fun x => (x =? 1)%Z) (_derived_events self))
                             v))
          (_risk_count self)
  = inl IndexError.
Proof.
  intros Hnn Hex Hv self.
  assert (Hn : length (with_index obs) = length obs) by apply length_with_index.
  assert (Hde : length (_derived_events self) = length obs).
  { unfold self. rewrite length_derived_events. exact Hn. }
  assert (Hst : forall r, In r (with_index obs) -> (0 <= status r)%Z).
  { intros r Hr. destruct (with_index_row obs r Hr) as [Hlt Hnth].
    rewrite Forall_forall in Hnn.
    assert (Hin : In (obs_of r) obs) by (rewrite <- Hnth; apply nth_In; exact Hlt).
    apply (Hnn _ Hin). }
  pose proof (derived_events_nonneg (with_index obs) Hst) as Hpos.
  fold self in Hpos.
  (* a row with a status of at least 2, at its sorted position *)
  apply Exists_exists in Hex. destruct Hex as [o [Ho Hs]].
  assert (Hrow : exists r, In r (data self) /\ status r = snd (fst o)).
  { assert (Hin : In (snd (fst o)) (map status (data self))).
    { apply (Permutation_in (l := map status (with_index obs))).
      - apply Permutation_map. apply Permutation_sym.
        apply sort_values_perm.
      - rewrite status_with_index.
        apply (in_map (fun o => snd (fst o))). exact Ho. }
    apply in_map_iff in Hin. destruct Hin as [r [Hr Hin]].
    exists r. split; assumption. }
  destruct Hrow as [r [Hr Hrs]].
  destruct (In_nth _ _ no_row Hr) as [p [Hp Hpr]].
  assert (Hpn : (p < length (with_index obs))%nat).
  { unfold self in Hp. rewrite length_data in Hp. exact Hp. }
  assert (Hdep : nth p (_derived_events self) 0%Z = snd (fst o)).
  { unfold self. rewrite derived_event_other; [| exact Hpn |].
    - fold self. unfold row_at. rewrite Hpr. exact Hrs.
    - fold self. unfold row_at. rewrite Hpr, Hrs. lia. }
  assert (Hins : In (snd (fst o)) (_derived_events self)).
  { rewrite <- Hdep. apply nth_In. lia. }
  pose proof (sumZ_count_bound Hpos Hins Hs) as Hbound.
  (* the last risk count is past the end of the table *)
  assert (Hlast : nth (length obs - 1) (_risk_count self) 0%Z
                  = sumZ (_derived_events self)).
  { unfold self. rewrite risk_count_nth by lia. fold self.
    rewrite firstn_all2 by lia. reflexivity. }
  apply np_take_raises. apply Exists_exists.
  exists (nth (length obs - 1) (_risk_count self) 0%Z). split.
  - apply nth_In. unfold self. rewrite risk_count_cumsum. fold self.
    unfold cumsumZ. rewrite length_cumsum_from. lia.
  - apply np_get_none. rewrite Hlast. cbn [length].
    unfold cumsumR. rewrite length_cumsum_from.
    rewrite length_mask_select_filter by lia. lia.
Qed.

(** X15. A status of 2 or more (with no negative status) makes every call that
    asks for the gradient or the Hessian raise IndexError, whatever the
    predictor: the last risk count is then past the end of the cumulative
    table that line 80 or line 90 indexes. *)
Theorem status_above_one_raises (obs : list (ftime * Z * Z)) (lp : list R)
        (gradient hessian : bool) :
  Forall (fun o => 0 <= snd (fst o))%Z obs ->
  Exists (fun o => 2 <= snd (fst o))%Z obs ->
  gradient || hessian = true ->
  call (preprocess (with_index obs)) lp gradient hessian = inl IndexError.
Proof.
  intros Hnn Hex Hflags.
  destruct (Nat.lt_ge_cases (length lp) (length obs)) as [Hshort | Hlong].
  - unfold call. rewrite take_order_raises by exact Hshort. reflexivity.
  - unfold call. rewrite take_order_ok by exact Hlong.
    cbv beta iota delta [bind].
    set (self := preprocess (with_index obs)).
    set (eta := centered (map (fun k => nth k lp 0%R) (_order self))).
    assert (Hn : length (data self) = length obs).
    { unfold self. rewrite length_data. apply length_with_index. }
    assert (Heta : length eta = length (data self)).
    { unfold eta. rewrite length_centered, length_map.
      unfold self. rewrite length_order, length_data. reflexivity. }
    assert (Hdw : length (_derived_w self) = length obs).
    { unfold _derived_w, self. rewrite length_map, length_derived_weight.
      apply length_with_index. }
    assert (H1 : np_take (rskdeninv self eta) (_risk_count self)
                 = inl IndexError).
    { unfold rskdeninv. apply (@lookup_raises obs _ Hnn Hex).
      rewrite length_map2, length_rskden by exact Heta. lia. }
    assert (H2 : np_take (rskdeninv2 self eta) (_risk_count self)
                 = inl IndexError).
    { unfold rskdeninv2. apply (@lookup_raises obs _ Hnn Hex).
      rewrite length_map2, length_map, length_rskden by exact Heta. lia. }
    unfold finish, derivatives. rewrite Hflags.
    destruct gradient.
    + unfold grad_sorted. rewrite H1. reflexivity.
    + simpl in Hflags. subst hessian.
      unfold hess_sorted. rewrite H2. reflexivity.
Qed.

Lemma status_above_one_raises_witness :
  Forall (fun o : ftime * Z * Z => 0 <= snd (fst o))%Z main_obs /\
  Exists (fun o : ftime * Z * Z => 2 <= snd (fst o))%Z main_obs /\
  call (preprocess (with_index main_obs)) scenario_lp true true
  = inl IndexError.
Proof.
  assert (H1 : Forall (fun o : ftime * Z * Z => 0 <= snd (fst o))%Z main_obs).
  { repeat constructor; vm_compute; discriminate. }
  assert (H2 : Exists (fun o : ftime * Z * Z => 2 <= snd (fst o))%Z main_obs).
  { apply Exists_exists. exists (rat 7 1, 7%Z, 1%Z).
    split; [| vm_compute; discriminate].
    unfold main_obs, unit_obs, scenario_time, main_status. simpl. tauto. }
  split; [exact H1 |]. split; [exact H2 |].
  apply (@status_above_one_raises main_obs scenario_lp true true H1 H2).
  reflexivity.
Defined.

(** ** The deviance is not negative *)

Lemma sum_over_pos_term {A : Type} (l : list A) (F : A -> R) :
  (forall a, In a l -> (0 <= F a)%R) -> (0 < sum_over l F)%R ->
  exists a, In a l /\ (0 < F a)%R.
Proof.
  induction l as [| a l IH]; intros Hnn Hpos.
  - unfold sum_over in Hpos. simpl in Hpos. lra.
  - rewrite sum_over_cons in Hpos.
    destruct (Rlt_le_dec 0 (F a)) as [Ha | Ha].
    + exists a. split; [left; reflexivity | exact Ha].
    + assert (H0 : (0 <= F a)%R) by (apply Hnn; left; reflexivity).
      destruct IH as [b [Hb Hfb]].
      * intros b Hb. apply Hnn. right; exact Hb.
      * lra.
      * exists b. split; [right; exact Hb | exact Hfb].
Qed.

(** The weighted inequality between the arithmetic and the geometric mean,
    in the form the partial likelihood needs. *)
Lemma weighted_log_sum {A : Type} (l : list A) (wt e : A -> R) (D : R) :
  (forall a, In a l -> (0 <= wt a)%R) ->
  (0 < sum_over l wt)%R ->
  (sum_over l (fun a => wt a * exp (e a)) <= D)%R ->
  (sum_over l (fun a => wt a * e a)
   <= sum_over l wt * (ln D - ln (sum_over l wt)))%R.
Proof.
  intros Hnn HW HD.
  set (W := sum_over l wt) in *.
  set (T := sum_over l (fun a => wt a * exp (e a))%R) in *.
  assert (HT : (0 < T)%R).
  { destruct (sum_over_pos_term l wt Hnn HW) as [a [Hin Ha]].
    apply Rlt_le_trans with (wt a * exp (e a))%R.
    - apply Rmult_lt_0_compat; [exact Ha | apply exp_pos].
    - apply (@sum_over_term_le _ l (fun a => wt a * exp (e a))%R a);
        [| exact Hin].
      intros b Hb. apply Rmult_le_pos; [apply Hnn; exact Hb |].
      left. apply exp_pos. }
  set (c := (ln T - ln W)%R).
  assert (Hexp : exp (- c) = (W * / T)%R).
  { unfold c. replace (- (ln T - ln W))%R with (ln W + - ln T)%R by ring.
    rewrite exp_plus, exp_Ropp, !exp_ln by assumption. reflexivity. }
  assert (Hsum : (sum_over l (fun a => wt a * (1 + (e a - c)))
                  <= sum_over l (fun a => wt a * exp (e a - c)))%R).
  { apply sum_over_le. intros a Ha.
    apply Rmult_le_compat_l; [apply Hnn; exact Ha | apply exp_ineq1_le]. }
  assert (HL : sum_over l (fun a => wt a * (1 + (e a - c)))%R
               = (W + sum_over l (fun a => wt a * e a) - c * W)%R).
  { transitivity (sum_over l (fun a => (1 - c) * wt a + wt a * e a)%R).
    - apply sum_over_ext. intros a _. ring.
    - rewrite sum_over_plus, sum_over_scal. fold W. ring. }
  assert (HR : sum_over l (fun a => wt a * exp (e a - c))%R = W).
  { transitivity (sum_over l (fun a => exp (- c) * (wt a * exp (e a)))%R).
    - apply sum_over_ext. intros a _.
      replace (e a - c)%R with (e a + - c)%R by ring.
      rewrite exp_plus. ring.
    - rewrite sum_over_scal. fold T. rewrite Hexp. field. lra. }
  rewrite HL, HR in Hsum.
  assert (Hln : (ln T <= ln D)%R).
  { destruct HD as [HD | HD].
    - left. apply ln_increasing; assumption.
    - rewrite HD. apply Rle_refl. }
  assert (Hc : (sum_over l (fun a => wt a * e a) <= c * W)%R) by lra.
  apply Rle_trans with (c * W)%R; [exact Hc |].
  unfold c. rewrite (Rmult_comm W).
  apply Rmult_le_compat_r; lra.
Qed.

Lemma scored_agg (obs : list (ftime * Z * Z)) (lp : list R) (t : ftime) :
  length lp = length obs ->
  sum_over (scored_obs obs lp)
           (fun o => if (s_status o =? 1)%Z && time_eqb (s_time o) t
                     then IZR (s_weight o) else 0%R)
  = IZR (obs_agg obs t).
Proof.
  intros Hlen. unfold scored_obs.
  etransitivity.
  { apply (@sum_over_combine_fst _ _ obs (centered lp)
             (fun a => if obs_event t a then IZR (snd a) else 0%R)).
    rewrite length_centered. exact Hlen. }
  rewrite sum_over_filter. unfold sum_over, obs_agg.
  rewrite <- sumR_IZR, map_map. reflexivity.
Qed.

Lemma breslow_le_saturated (obs : list (ftime * Z * Z)) (lp : list R) :
  length lp = length obs ->
  positive_weights obs ->
  (loglik_breslow (scored_obs obs lp) <= saturated_obs obs)%R.
Proof.
  intros Hlen Hw.
  set (S := scored_obs obs lp).
  set (U := distinct (map (fun o : ftime * Z * Z => fst (fst o))
                          (filter (fun o => (snd (fst o) =? 1)%Z) obs))).
  pose proof (scored_weights_pos lp Hw) as HS. fold S in HS.
  assert (HU : NoDup U) by apply distinct_NoDup.
  assert (Hcover : forall o, In o S -> (s_status o =? 1)%Z = true ->
                             In (s_time o) U).
  { intros o Hin Hev. apply scored_obs_In in Hin.
    unfold U. apply distinct_In.
    apply (in_map (fun o : ftime * Z * Z => fst (fst o))).
    apply filter_In. split; [exact Hin | exact Hev]. }
  unfold loglik_breslow. fold S.
  rewrite (@regroup _ S (fun o => (s_status o =? 1)%Z) s_time
             (fun o => IZR (s_weight o) * s_eta o)%R U HU Hcover).
  rewrite (@regroup _ S (fun o => (s_status o =? 1)%Z) s_time
             (fun o => IZR (s_weight o) * ln (risk_at S (s_time o)))%R
             U HU Hcover).
  unfold saturated_obs. fold U.
  assert (Hgoal :
    forall t, In t U ->
      (sum_over S (fun a => if (s_status a =? 1)%Z && time_eqb (s_time a) t
                            then IZR (s_weight a) * s_eta a else 0)
       - sum_over S (fun a => if (s_status a =? 1)%Z && time_eqb (s_time a) t
                              then IZR (s_weight a)
                                   * ln (risk_at S (s_time a)) else 0)
       <= - (let w := obs_agg obs t in
             if (0 <? w)%Z then IZR w * ln (IZR w) else 0))%R).
  { intros t Ht.
    set (P := fun a : ftime * Z * Z * R =>
                (s_status a =? 1)%Z && time_eqb (s_time a) t).
    set (wt := fun a : ftime * Z * Z * R =>
                 if P a then IZR (s_weight a) else 0%R).
    assert (Hwt : forall a, In a S -> (0 <= wt a)%R).
    { intros a Ha. unfold wt. destruct (P a); [| apply Rle_refl].
      apply IZR_le. apply HS in Ha. lia. }
    assert (HWeq : sum_over S wt = IZR (obs_agg obs t)).
    { unfold wt, P, S. apply scored_agg. exact Hlen. }
    (* an event at [t] *)
    assert (Hev : exists a, In a S /\ P a = true).
    { unfold U in Ht. apply (proj1 (distinct_In t _)) in Ht.
      apply in_map_iff in Ht.
      destruct Ht as [o [Hot Ho]]. apply filter_In in Ho.
      destruct Ho as [Ho Hs].
      destruct (In_nth _ _ no_obs Ho) as [i [Hi Hio]].
      exists (nth i S no_scored). split.
      - apply scored_nth_In; assumption.
      - unfold P, S. rewrite nth_scored_obs by exact Hlen.
        unfold s_status, s_time. simpl. rewrite Hio, Hs, Hot.
        apply time_eqb_refl. }
    assert (HWpos : (0 < sum_over S wt)%R).
    { destruct Hev as [a [Ha HPa]].
      apply Rlt_le_trans with (wt a).
      - unfold wt. rewrite HPa. apply IZR_lt. apply HS. exact Ha.
      - apply sum_over_term_le; assumption. }
    assert (HT : (sum_over S (fun a => wt a * exp (s_eta a)) <= risk_at S t)%R).
    { unfold risk_at. apply sum_over_le. intros a Ha.
      unfold wt, P. destruct (s_status a =? 1)%Z; simpl.
      - destruct (time_eqb (s_time a) t) eqn:E.
        + apply time_eqb_eq in E. rewrite E, time_leb_refl. apply Rle_refl.
        + rewrite Rmult_0_l. apply (@risk_term_nonneg S HS t a Ha).
      - rewrite Rmult_0_l. apply (@risk_term_nonneg S HS t a Ha). }
    pose proof (weighted_log_sum S wt s_eta Hwt HWpos HT) as HJ.
    assert (HA : sum_over S (fun a => if P a then IZR (s_weight a) * s_eta a
                                      else 0)%R
                 = sum_over S (fun a => wt a * s_eta a)%R).
    { apply sum_over_ext. intros a _. unfold wt. destruct (P a); ring. }
    assert (HB : sum_over S (fun a => if P a
                                      then IZR (s_weight a)
                                           * ln (risk_at S (s_time a))
                                      else 0)%R
                 = (sum_over S wt * ln (risk_at S t))%R).
    { rewrite Rmult_comm, <- sum_over_scal. apply sum_over_ext. intros a _.
      unfold wt. destruct (P a) eqn:E; [| ring].
      unfold P in E. apply andb_prop in E. destruct E as [_ E].
      apply time_eqb_eq in E. rewrite E. ring. }
    change (sum_over S (fun a => if P a then IZR (s_weight a) * s_eta a
                                 else 0)
            - sum_over S (fun a => if P a
                                   then IZR (s_weight a)
                                        * ln (risk_at S (s_time a))
                                   else 0)
            <= - (if (0 <? obs_agg obs t)%Z
                  then IZR (obs_agg obs t) * ln (IZR (obs_agg obs t))
                  else 0))%R.
    rewrite HA, HB.
    rewrite HWeq in *.
    replace (0 <? obs_agg obs t)%Z with true
      by (symmetry; apply Z.ltb_lt; apply lt_IZR; exact HWpos).
    lra. }
  assert (Hall :
    (sum_over U (fun t =>
       sum_over S (fun a => if (s_status a =? 1)%Z && time_eqb (s_time a) t
                            then IZR (s_weight a) * s_eta a else 0)
       - sum_over S (fun a => if (s_status a =? 1)%Z && time_eqb (s_time a) t
                              then IZR (s_weight a)
                                   * ln (risk_at S (s_time a)) else 0))
     <= sum_over U (fun t => - (let w := obs_agg obs t in
                                if (0 <? w)%Z then IZR w * ln (IZR w) else 0)))%R).
  { apply sum_over_le. exact Hgoal. }
  assert (Hminus : forall (F G : ftime -> R),
             sum_over U (fun t => F t - G t)%R
             = (sum_over U F - sum_over U G)%R).
  { intros F G.
    transitivity (sum_over U (fun t => F t + -1 * G t)%R).
    - apply sum_over_ext. intros; ring.
    - rewrite sum_over_plus, sum_over_scal. ring. }
  rewrite Hminus in Hall.
  assert (Hneg : forall (F : ftime -> R),
             sum_over U (fun t => - F t)%R = (- sum_over U F)%R).
  { intros F.
    transitivity (sum_over U (fun t => -1 * F t)%R).
    - apply sum_over_ext. intros; ring.
    - rewrite sum_over_scal. ring. }
  rewrite Hneg in Hall. exact Hall.
Qed.

(** X13. For 0/1 status and positive weights the deviance that a call returns
    is never negative: the partial log-likelihood is at most the saturated
    log-likelihood, whatever the scores. *)
Theorem deviance_nonnegative (obs : list (ftime * Z * Z)) (lp : list R) :
  boolean_status (with_index obs) ->
  length lp = length obs ->
  positive_weights obs ->
  exists res,
    call (preprocess (with_index obs)) lp true true = inr res /\
    (0 <= deviance res)%R.
Proof.
  intros Hb Hlen Hw.
  destruct (breslow_closed_form obs lp Hb Hlen) as (g & h & Hcall & _).
  eexists. split; [exact Hcall |]. cbn [deviance].
  pose proof (@breslow_le_saturated obs lp Hlen Hw). lra.
Qed.

Lemma deviance_nonnegative_witness :
  boolean_status (with_index scenario_obs) /\
  length scenario_lp = length scenario_obs /\
  positive_weights scenario_obs /\
  exists res,
    call (preprocess (with_index scenario_obs)) scenario_lp true true
    = inr res /\
    (0 <= deviance res)%R.
Proof.
  split; [reflexivity |]. split; [reflexivity |].
  split; [exact scenario_positive |].
  apply (@deviance_nonnegative scenario_obs scenario_lp);
    [reflexivity | reflexivity | exact scenario_positive].
Defined.

(** ** Stability of the sort *)

Section Stability.
Context {A : Type} (leb : A -> A -> bool) (pos : A -> nat).
Hypothesis leb_total : forall a b, leb a b = true \/ leb b a = true.
Hypothesis leb_trans :
  forall a b c, leb a b = true -> leb b c = true -> leb a c = true.

Lemma insert_sorted_stable (x : A) (l : list A) :
  StronglySorted (stable_before leb pos) l ->
  Forall (fun y => (pos x < pos y)%nat) l ->
  StronglySorted (stable_before leb pos) (insert_sorted leb x l).
Proof.
  induction l as [| y l IH]; intros Hs Hpos; simpl.
  - constructor; constructor.
  - inversion Hs as [| ? ? Hs' Hall]; subst.
    inversion Hpos as [| ? ? Hxy Hpos']; subst.
    destruct (leb x y) eqn:E.
    + constructor; [exact Hs |].
      constructor.
      * split; [exact E | intros _; exact Hxy].
      * rewrite Forall_forall in *. intros z Hz. split.
        -- apply leb_trans with y; [exact E | apply (Hall z Hz)].
        -- intros _. apply (Hpos' z Hz).
    + constructor; [apply IH; assumption |].
      apply (Permutation_Forall
               (Permutation_sym (insert_sorted_perm leb x l))).
      constructor; [| exact Hall].
      split.
      * destruct (leb_total x y) as [H | H]; [congruence | exact H].
      * intros H. congruence.
Qed.

Lemma stable_sort_stable (l : list A) :
  StronglySorted (fun a b => (pos a < pos b)%nat) l ->
  StronglySorted (stable_before leb pos) (stable_sort leb l).
Proof.
  induction 1 as [| x l Hs IH Hall]; simpl; [constructor |].
  apply insert_sorted_stable; [exact IH |].
  apply (Permutation_Forall (Permutation_sym (stable_sort_perm leb l))).
  exact Hall.
Qed.

(** In a list sorted for a relation, the first element that satisfies a
    test comes before every other one that does. *)
Lemma find_first_sorted (R : A -> A -> Prop) (f : A -> bool) (l : list A)
      (x : A) :
  StronglySorted R l -> find f l = Some x ->
  In x l /\ f x = true /\
  forall y, In y l -> f y = true -> y = x \/ R x y.
Proof.
  induction 1 as [| z l Hs IH Hall]; simpl; intros Hf; [discriminate |].
  destruct (f z) eqn:E.
  - injection Hf as <-. split; [left; reflexivity |]. split; [exact E |].
    intros y [-> | Hy] _; [left; reflexivity |].
    right. rewrite Forall_forall in Hall. apply Hall. exact Hy.
  - destruct (IH Hf) as (Hin & Hfx & Hfirst).
    split; [right; exact Hin |]. split; [exact Hfx |].
    intros y [-> | Hy] Hfy; [congruence |].
    apply Hfirst; assumption.
Qed.
End Stability.

Lemma map_fst_insert_sorted {B : Type} (leb : ftime -> ftime -> bool)
      (x : ftime * B) (l : list (ftime * B)) :
  map fst (insert_sorted (fun a b => leb (fst a) (fst b)) x l)
  = insert_sorted leb (fst x) (map fst l).
Proof.
  induction l as [| y l IH]; simpl; [reflexivity |].
  destruct (leb (fst x) (fst y)); simpl; [reflexivity |].
  rewrite IH. reflexivity.
Qed.

Lemma map_fst_stable_sort {B : Type} (leb : ftime -> ftime -> bool)
      (l : list (ftime * B)) :
  map fst (stable_sort (fun a b => leb (fst a) (fst b)) l)
  = stable_sort leb (map fst l).
Proof.
  induction l as [| x l IH]; simpl; [reflexivity |].
  rewrite map_fst_insert_sorted, IH. reflexivity.
Qed.

Lemma combine_seq_increasing {B : Type} (l : list B) (k : nat) :
  StronglySorted (fun a b : B * nat => (snd a < snd b)%nat)
                 (combine l (seq k (length l))).
Proof.
  revert k. induction l as [| x l IH]; intros k; simpl; constructor.
  - apply IH.
  - apply Forall_forall. intros [y j] Hin. simpl.
    apply in_combine_r in Hin. apply in_seq in Hin. lia.
Qed.

Lemma in_combine_positions {B : Type} (d : B) (l : list B) (k j : nat) (y : B) :
  In (y, j) (combine l (seq k (length l))) <->
  (k <= j < k + length l)%nat /\ nth (j - k) l d = y.
Proof.
  revert k. induction l as [| x l IH]; intros k; simpl.
  - split; [contradiction | lia].
  - rewrite IH. split.
    + intros [H | [H1 H2]].
      * injection H as <- <-. split; [lia |].
        rewrite Nat.sub_diag. reflexivity.
      * split; [lia |].
        replace (j - k)%nat with (S (j - S k)) by lia. exact H2.
    + intros [H1 H2].
      destruct (Nat.eq_dec j k) as [-> | Hne].
      * left. rewrite Nat.sub_diag in H2. subst y. reflexivity.
      * right. split; [lia |].
        replace (j - k)%nat with (S (j - S k)) in H2 by lia. exact H2.
Qed.

Lemma cnt_perm (t : ftime) (l l' : list (ftime * nat)) :
  Permutation l l' -> cnt t l = cnt t l'.
Proof.
  intros H. unfold cnt. apply Permutation_length.
  induction H; simpl.
  - constructor.
  - destruct (time_eqb (fst x) t); [constructor |]; assumption.
  - destruct (time_eqb (fst x) t), (time_eqb (fst y) t);
      try apply perm_swap; try constructor; apply Permutation_refl.
  - eapply Permutation_trans; eassumption.
Qed.

Lemma fst_leb_total (a b : ftime * nat) :
  time_leb (fst a) (fst b) = true \/ time_leb (fst b) (fst a) = true.
Proof. apply time_leb_total. Qed.

Lemma fst_leb_trans (a b c : ftime * nat) :
  time_leb (fst a) (fst b) = true -> time_leb (fst b) (fst c) = true ->
  time_leb (fst a) (fst c) = true.
Proof. apply time_leb_trans. Qed.

(** The position that [np.unique] reports for a value is the position of
    its first occurrence. *)
Lemma first_pos_unsorted (times : list ftime) (t : ftime) :
  In t times ->
  first_pos t (stable_sort (fun a b => time_leb (fst a) (fst b))
                           (combine times (seq 0 (length times))))
  = first_occurrence t times.
Proof.
  intros Hin.
  set (L := stable_sort (fun a b : ftime * nat => time_leb (fst a) (fst b))
                        (combine times (seq 0 (length times)))).
  assert (Hperm : Permutation L (combine times (seq 0 (length times))))
    by apply stable_sort_perm.
  assert (Hst : StronglySorted
                  (stable_before (fun a b : ftime * nat =>
                                    time_leb (fst a) (fst b)) snd) L).
  { apply stable_sort_stable.
    - apply fst_leb_total.
    - apply fst_leb_trans.
    - apply combine_seq_increasing. }
  assert (Hex : existsb (fun x => time_eqb x t) times = true).
  { apply existsb_exists. exists t. split; [exact Hin | apply time_eqb_refl]. }
  destruct (find_index_spec (fun x => time_eqb x t) NegInf times Hex)
    as (Hp0 & Hat & Hbefore).
  fold (first_occurrence t times) in Hp0, Hat, Hbefore.
  set (p0 := first_occurrence t times) in *.
  apply time_eqb_eq in Hat.
  assert (Hin0 : In (t, p0) L).
  { apply (Permutation_in _ (Permutation_sym Hperm)).
    apply (in_combine_positions NegInf). rewrite Nat.sub_0_r.
    split; [lia | exact Hat]. }
  unfold first_pos.
  destruct (find (fun x : ftime * nat => time_eqb (fst x) t) L) as [x |] eqn:Ef.
  - destruct (find_first_sorted (fun x : ftime * nat => time_eqb (fst x) t)
                Hst Ef) as (Hx & Hfx & Hfirst).
    destruct x as [tx i]. simpl in Hfx. apply time_eqb_eq in Hfx. subst tx.
    simpl.
    assert (Hxi : (i < length times)%nat /\ nth i times NegInf = t).
    { apply (Permutation_in _ Hperm) in Hx.
      apply (in_combine_positions NegInf) in Hx. rewrite Nat.sub_0_r in Hx.
      destruct Hx as [H1 H2]. split; [lia | exact H2]. }
    destruct Hxi as [Hi Hti].
    assert (Hge : (p0 <= i)%nat).
    { destruct (Nat.le_gt_cases p0 i) as [H | H]; [exact H |].
      specialize (Hbefore i H). rewrite Hti, time_eqb_refl in Hbefore.
      discriminate. }
    destruct (Hfirst (t, p0) Hin0) as [Heq | [_ Hlt]].
    + simpl. apply time_eqb_refl.
    + injection Heq as ->. reflexivity.
    + simpl in Hlt. specialize (Hlt (time_leb_refl t)). lia.
  - exfalso. apply (find_none _ _ Ef) in Hin0. simpl in Hin0.
    rewrite time_eqb_refl in Hin0. discriminate.
Qed.

Lemma cnt_unsorted (times : list ftime) (t : ftime) :
  cnt t (stable_sort (fun a b => time_leb (fst a) (fst b))
                     (combine times (seq 0 (length times))))
  = length (occurrences t times).
Proof.
  rewrite (cnt_perm t (stable_sort_perm _ _)).
  rewrite (@cnt_combine nat) by apply length_seq.
  unfold occurrences, nonzero.
  rewrite length_map.
  rewrite length_mask_select_filter by (rewrite length_seq; reflexivity).
  reflexivity.
Qed.

Lemma np_unique_spec (times : list ftime) :
  np_unique times
  = map (fun t => (t, first_occurrence t times, length (occurrences t times)))
        (uniq (stable_sort time_leb times)).
Proof.
  unfold np_unique.
  rewrite runs_sorted.
  - rewrite map_fst_stable_sort.
    rewrite map_fst_combine_l by apply length_seq.
    apply map_ext_in. intros t Ht.
    apply (proj1 (uniq_In t _)) in Ht.
    apply (Permutation_in _ (stable_sort_perm time_leb times)) in Ht.
    rewrite first_pos_unsorted by exact Ht.
    rewrite cnt_unsorted. reflexivity.
  - apply (stable_sort_sorted _ fst_leb_total fst_leb_trans).
Qed.

Lemma time_lt_of_le_neq (a b : ftime) :
  time_le a b -> a <> b -> time_lt a b.
Proof.
  unfold time_le, time_lt, time_ltb. intros Hle Hne.
  destruct (time_leb b a) eqn:E; [| reflexivity].
  exfalso. apply Hne. apply time_leb_antisym; assumption.
Qed.

Lemma time_le_lt_trans (a b c : ftime) :
  time_le a b -> time_lt b c -> time_lt a c.
Proof.
  unfold time_le, time_lt, time_ltb. intros Hab Hbc.
  destruct (time_leb c a) eqn:E; [| reflexivity].
  rewrite (time_leb_trans _ _ _ E Hab) in Hbc. discriminate.
Qed.

Lemma uniq_from_strict (p : ftime) (ts : list ftime) :
  StronglySorted time_le (p :: ts) ->
  StronglySorted time_lt (uniq_from p ts) /\
  Forall (time_lt p) (uniq_from p ts).
Proof.
  revert p. induction ts as [| y ts IH]; intros p Hs; simpl.
  - split; constructor.
  - inversion Hs as [| ? ? Hs' Hall]; subst.
    inversion Hs' as [| ? ? Hs'' Hall']; subst.
    inversion Hall as [| ? ? Hpy Hall'']; subst.
    destruct (time_eqb p y) eqn:E.
    + apply IH. constructor; assumption.
    + apply time_eqb_neq in E.
      destruct (IH y Hs') as [Hsorted Hlt].
      split.
      * constructor; assumption.
      * constructor; [apply time_lt_of_le_neq; assumption |].
        eapply Forall_impl; [| exact Hlt].
        intros z Hz. apply time_le_lt_trans with y; assumption.
Qed.

Lemma uniq_strict (ts : list ftime) :
  StronglySorted time_le ts -> StronglySorted time_lt (uniq ts).
Proof.
  destruct ts as [| x ts]; simpl; intros Hs; [constructor |].
  destruct (uniq_from_strict Hs) as [H1 H2].
  constructor; assumption.
Qed.

(** ** [_fid] on any array *)

Lemma occurrences_In (t : ftime) (times : list ftime) (p : nat) :
  In p (occurrences t times) <->
  (p < length times)%nat /\ nth p times NegInf = t.
Proof.
  unfold occurrences, nonzero. rewrite length_map.
  rewrite (mask_select_In (fun x => time_eqb x t) NegInf times 0 p).
  rewrite Nat.sub_0_r, time_eqb_eq. simpl. intuition lia.
Qed.

Lemma gather_arange (m : nat) (ks : list nat) :
  Forall (fun k => (k < m)%nat) ks ->
  map (fun i => nth i (seq 0 m) 0%nat) ks = ks.
Proof.
  induction 1 as [| k ks Hk _ IH]; simpl; [reflexivity |].
  rewrite seq_nth by exact Hk. rewrite IH. reflexivity.
Qed.

Lemma first_occurrence_spec (t : ftime) (times : list ftime) :
  In t times ->
  (first_occurrence t times < length times)%nat /\
  nth (first_occurrence t times) times NegInf = t /\
  forall j, (j < first_occurrence t times)%nat -> nth j times NegInf <> t.
Proof.
  intros Hin.
  assert (Hex : existsb (fun x => time_eqb x t) times = true).
  { apply existsb_exists. exists t. split; [exact Hin | apply time_eqb_refl]. }
  destruct (find_index_spec (fun x => time_eqb x t) NegInf times Hex)
    as (H1 & H2 & H3).
  split; [exact H1 |]. split; [apply time_eqb_eq; exact H2 |].
  intros j Hj. apply time_eqb_neq. apply H3. exact Hj.
Qed.

Lemma sorted_values_In (t : ftime) (times : list ftime) :
  In t (uniq (stable_sort time_leb times)) <-> In t times.
Proof.
  rewrite uniq_In. split; intros H.
  - apply (Permutation_in _ (stable_sort_perm time_leb times)). exact H.
  - apply (Permutation_in _ (Permutation_sym (stable_sort_perm time_leb times))).
    exact H.
Qed.

(** X3. The first positions that [_fid] returns, for any array of times,
    sorted or not: one entry per distinct value, the values in strictly
    ascending order, each entry the [index] label of the first occurrence
    of its value (the position itself when [index] is left out). *)
Theorem fid_first_positions (times : list ftime) (index : list nat) :
  length index = length times ->
  let U := uniq (stable_sort time_leb times) in
  StronglySorted time_lt U /\
  (forall t, In t U <-> In t times) /\
  fst (_fid times index)
  = map (fun t => nth (first_occurrence t times) index 0%nat) U /\
  fst (_fid_opt times None) = map (fun t => first_occurrence t times) U /\
  (forall t, In t times ->
     (first_occurrence t times < length times)%nat /\
     nth (first_occurrence t times) times NegInf = t /\
     forall j, (j < first_occurrence t times)%nat -> nth j times NegInf <> t).
Proof.
  intros Hlen U.
  assert (Hfst : forall ix,
             fst (_fid times ix)
             = map (fun t => nth (first_occurrence t times) ix 0%nat) U).
  { intros ix. unfold _fid. cbn [fst]. rewrite np_unique_spec, map_map.
    reflexivity. }
  split; [| split; [| split; [| split]]].
  - apply uniq_strict.
    apply (stable_sort_sorted _ time_leb_total time_leb_trans).
  - intros t. apply sorted_values_In.
  - apply Hfst.
  - unfold _fid_opt. rewrite Hfst. apply map_ext_in. intros t Ht.
    apply (proj1 (sorted_values_In t times)) in Ht.
    apply seq_nth. apply first_occurrence_spec. exact Ht.
  - intros t Ht. apply first_occurrence_spec. exact Ht.
Qed.

Lemma fid_first_positions_witness :
  length (seq 0 9) = length fid_example_2 /\
  fst (_fid fid_example_2 (seq 0 9)) = [0; 3; 4; 6]%nat /\
  fst (_fid_opt fid_example_1 None) = [0; 1; 2; 3]%nat.
Proof.
  split; [reflexivity |].
  destruct (@fid_first_positions fid_example_2 (seq 0 9) eq_refl)
    as (_ & _ & H & _).
  split; [rewrite H |]; vm_compute; reflexivity.
Defined.

Lemma flat_map_nil {A B : Type} (f : A -> list B) (l : list A) :
  (forall x, In x l -> f x = []) -> flat_map f l = [].
Proof.
  induction l as [| x l IH]; intros H; simpl; [reflexivity |].
  rewrite (H x) by (left; reflexivity). simpl.
  apply IH. intros y Hy. apply H. right; exact Hy.
Qed.

Lemma NoDup_count (t : ftime) (times : list ftime) :
  NoDup times ->
  (length (filter (fun x => time_eqb x t) times) <= 1)%nat.
Proof.
  induction 1 as [| x l Hnin Hnd IH]; simpl; [lia |].
  destruct (time_eqb x t) eqn:E; [| exact IH].
  apply time_eqb_eq in E. subst x. simpl.
  replace (filter (fun x => time_eqb x t) l) with (@nil ftime); [simpl; lia |].
  symmetry. clear -Hnin. induction l as [| y l IH]; simpl; [reflexivity |].
  destruct (time_eqb y t) eqn:E.
  - apply time_eqb_eq in E. subst y. exfalso. apply Hnin. left; reflexivity.
  - apply IH. intros H. apply Hnin. right; exact H.
Qed.

Lemma length_occurrences (t : ftime) (times : list ftime) :
  length (occurrences t times)
  = length (filter (fun x => time_eqb x t) times).
Proof.
  unfold occurrences, nonzero. rewrite length_map.
  apply length_mask_select_filter. apply length_seq.
Qed.

Lemma fid_snd_normal (times : list ftime) (ix : list nat) :
  snd (_fid times ix)
  = flat_map (fun t =>
                if (1 <? length (occurrences t times))%nat
                then [(t, map (fun i => nth i ix 0%nat)
                              (occurrences t times))]
                else [])
             (uniq (stable_sort time_leb times)).
Proof.
  unfold _fid. cbn [snd]. rewrite np_unique_spec, flat_map_map.
  reflexivity.
Qed.

Lemma fid_no_ties (times : list ftime) (ix : list nat) :
  NoDup times -> snd (_fid times ix) = [].
Proof.
  intros Hnd. rewrite fid_snd_normal. apply flat_map_nil. intros t _.
  rewrite length_occurrences.
  pose proof (NoDup_count t Hnd) as Hc.
  replace (1 <? length (filter (fun x => time_eqb x t) times))%nat
    with false by (symmetry; apply Nat.ltb_ge; exact Hc).
  reflexivity.
Qed.

(** X4. The ties that [_fid] returns, for any array of times: one entry per
    value that occurs at least twice, the values in ascending order, each
    with the [index] labels of all the occurrences of its value in their
    order (the positions themselves when [index] is left out); an array
    without repeated values has no ties. *)
Theorem fid_ties_spec (times : list ftime) (index : list nat) :
  length index = length times ->
  let U := uniq (stable_sort time_leb times) in
  snd (_fid times index)
  = flat_map (fun t =>
                if (1 <? length (occurrences t times))%nat
                then [(t, map (fun i => nth i index 0%nat)
                              (occurrences t times))]
                else [])
             U /\
  snd (_fid_opt times None)
  = flat_map (fun t =>
                if (1 <? length (occurrences t times))%nat
                then [(t, occurrences t times)]
                else [])
             U /\
  (forall t p, In p (occurrences t times) <->
               (p < length times)%nat /\ nth p times NegInf = t) /\
  (NoDup times -> snd (_fid times index) = []).
Proof.
  intros Hlen U.
  split; [| split; [| split]].
  - apply fid_snd_normal.
  - unfold _fid_opt. rewrite fid_snd_normal. apply flat_map_ext. intros t.
    rewrite gather_arange; [reflexivity |].
    apply Forall_forall. intros p Hp. apply occurrences_In in Hp. apply Hp.
  - intros t p. apply occurrences_In.
  - apply fid_no_ties.
Qed.

Lemma fid_ties_spec_witness :
  length (seq 0 9) = length fid_example_2 /\
  snd (_fid fid_example_2 (seq 0 9))
  = [(rat 1 1, [0; 1; 2]%nat); (rat 3 1, [4; 5]%nat);
     (rat 4 1, [6; 7; 8]%nat)] /\
  snd (_fid_opt fid_example_1 None) = [].
Proof.
  split; [reflexivity |].
  destruct (@fid_ties_spec fid_example_2 (seq 0 9) eq_refl) as (H & _).
  split; [rewrite H |]; vm_compute; reflexivity.
Defined.

(** ** The sorted frame and [_order] *)

Lemma with_index_increasing (obs : list (ftime * Z * Z)) :
  StronglySorted (fun a b => (index a < index b)%nat) (with_index obs).
Proof.
  unfold with_index. generalize 0%nat.
  induction obs as [| o obs IH]; intros k; simpl; constructor.
  - apply IH.
  - apply Forall_forall. intros r Hr. apply in_map_iff in Hr.
    destruct Hr as [[i o'] [<- Hin]]. simpl.
    apply in_combine_l in Hin. apply in_seq in Hin. lia.
Qed.

Lemma data_stable (obs : list (ftime * Z * Z)) :
  StronglySorted (stable_before row_leb index)
                 (data (preprocess (with_index obs))).
Proof.
  simpl. unfold sort_values. apply stable_sort_stable.
  - apply row_leb_total.
  - apply row_leb_trans.
  - apply with_index_increasing.
Qed.

Lemma order_nth (df : list Row) (p : nat) :
  nth p (_order (preprocess df)) 0%nat
  = index (row_at (data (preprocess df)) p).
Proof.
  simpl. unfold row_at.
  change 0%nat with (index no_row). apply map_nth.
Qed.

(** X2. What lines 34-37 leave behind: sorted position [p] holds the
    observation that the caller gave at position [_order[p]]; along the
    sorted positions the event times do not decrease, among equal times the
    status does not increase, and rows that agree in time and status keep
    the order in which the caller gave them. *)
Theorem sorted_frame (obs : list (ftime * Z * Z)) :
  let self := preprocess (with_index obs) in
  let dat := data self in
  let order := fun p => nth p (_order self) 0%nat in
  (forall p, (p < length obs)%nat ->
     obs_of (row_at dat p) = nth (order p) obs no_obs) /\
  (forall i j, (i < j)%nat -> (j < length obs)%nat ->
     time_le (event_time (row_at dat i)) (event_time (row_at dat j)) /\
     (event_time (row_at dat i) = event_time (row_at dat j) ->
      (status (row_at dat j) <= status (row_at dat i))%Z) /\
     (event_time (row_at dat i) = event_time (row_at dat j) ->
      status (row_at dat i) = status (row_at dat j) ->
      (order i < order j)%nat)).
Proof.
  intros self dat order.
  assert (Hn : length dat = length obs).
  { unfold dat, self. rewrite length_data. apply length_with_index. }
  split.
  - intros p Hp.
    pose proof (obs_of_sorted obs) as H. cbv zeta in H.
    fold self in H. fold dat in H.
    transitivity (nth p (map obs_of dat) no_obs).
    { unfold row_at. change no_obs with (obs_of no_row).
      symmetry. apply map_nth. }
    rewrite H.
    rewrite (nth_indep _ no_obs ((fun k => nth k obs no_obs) 0%nat)).
    + apply (map_nth (fun k => nth k obs no_obs)).
    + rewrite length_map. unfold self. rewrite length_order.
      rewrite length_with_index. exact Hp.
  - intros i j Hij Hj.
    pose proof (@sorted_nth _ (stable_before row_leb index) no_row dat i j
                  (data_stable obs)) as H.
    assert (Hlt : (i < j < length dat)%nat) by lia.
    specialize (H Hlt). fold (row_at dat i) in H. fold (row_at dat j) in H.
    destruct H as [Hle Hst].
    apply row_leb_iff in Hle. destruct Hle as [Ht Hs].
    split; [exact Ht |]. split.
    + intros E. apply Hs. rewrite E. apply time_leb_refl.
    + intros E Es. unfold order, self. rewrite !order_nth.
      fold self. fold dat. apply Hst.
      apply row_leb_iff. split.
      * rewrite E. apply time_leb_refl.
      * intros _. rewrite Es. lia.
Qed.

(** ** A dataset without tied events *)

Lemma event_times_of_obs (obs : list (ftime * Z * Z)) :
  map event_time (filter is_event (with_index obs))
  = map (fun o : ftime * Z * Z => fst (fst o))
        (filter (fun o => (snd (fst o) =? 1)%Z) obs).
Proof.
  rewrite <- (obs_of_with_index obs) at 2.
  rewrite filter_map_comm, map_map. reflexivity.
Qed.







(** ** What the risk count counts *)

Lemma sumR_firstn_bigsum (v : list R) (k : nat) :
  (k <= length v)%nat ->
  sumR (firstn k v) = bigsum k (fun q => nth q v 0%R).
Proof.
  revert k. induction v as [| x v IH]; intros [| k] Hk; simpl in Hk;
    try reflexivity; try lia.
  rewrite bigsum_S_l. simpl. rewrite IH by lia. reflexivity.
Qed.

Lemma sum_over_ones {A : Type} (l : list A) :
  sum_over l (fun _ => 1%R) = INR (length l).
Proof.
  induction l as [| x l IH]; [reflexivity |].
  rewrite sum_over_cons, IH. cbn [length]. rewrite S_INR. ring.
Qed.

(** X6. For 0/1 status the risk count at a sorted position is the number of
    distinct event times that are not later than the time at that
    position; it therefore never exceeds the number of distinct event
    times, which is the last position of the tables that lines 80 and 90
    index with it. *)
Theorem risk_count_counts (obs : list (ftime * Z * Z)) (p : nat) :
  boolean_status (with_index obs) ->
  (p < length obs)%nat ->
  let self := preprocess (with_index obs) in
  let U := distinct (map (fun o : ftime * Z * Z => fst (fst o))
                         (filter (fun o => (snd (fst o) =? 1)%Z) obs)) in
  nth p (_risk_count self) 0%Z
  = Z.of_nat (length (filter
                        (fun t => time_leb t (event_time (row_at (data self) p)))
                        U)) /\
  (0 <= nth p (_risk_count self) 0 <= Z.of_nat (length U))%Z.
Proof.
  intros Hb Hp self U.
  set (dat := data self).
  set (tp := event_time (row_at dat p)).
  assert (Hn : length (with_index obs) = length obs)
    by apply length_with_index.
  assert (Hdat : length dat = length (with_index obs)) by apply length_data.
  assert (Hs : row_sorted dat) by apply sort_values_sorted.
  assert (Hbs : boolean_status dat) by (apply boolean_status_sorted; exact Hb).
  assert (Hde : length (_derived_events self) = length (with_index obs))
    by apply length_derived_events.
  assert (Hmain : nth p (_risk_count self) 0%Z
                  = Z.of_nat (length (filter (fun t => time_leb t tp) U))).
  { unfold self. rewrite risk_count_nth by lia. fold self.
    apply eq_IZR. rewrite <- sumR_IZR, <- firstn_map.
    rewrite sumR_firstn_bigsum by (rewrite length_map; lia).
    rewrite <- INR_IZR_INZ, <- sum_over_ones.
    rewrite <- (sum_over_filter U (fun t => time_leb t tp) (fun _ => 1%R)).
    unfold U. rewrite <- event_times_of_obs.
    rewrite <- (sum_over_perm _ (event_times_perm (with_index obs))).
    pose proof (@first_positions_sum (with_index obs)
                  (fun t => if time_leb t tp then 1%R else 0%R)) as HF.
    cbv zeta in HF. fold self in HF. fold dat in HF.
    change (sort_values (with_index obs)) with dat.
    rewrite <- HF. clear HF.
    rewrite (@bigsum_trunc (S p) (length dat)) by lia.
    apply bigsum_ext. intros q Hq.
    change 0%R with (IZR 0) at 1. rewrite (map_nth IZR).
    pose proof (derived_events_boolean Hb) as Hall. fold self in Hall.
    rewrite Forall_forall in Hall.
    assert (Hq' : (q < length (with_index obs))%nat) by lia.
    destruct (Hall (nth q (_derived_events self) 0%Z)) as [E | E].
    { apply nth_In. lia. }
    - rewrite E. simpl. destruct (q <? S p)%nat; reflexivity.
    - rewrite E. simpl.
      apply (derived_event_one_iff (with_index obs) Hq') in E.
      fold self dat in E.
      unfold tp. rewrite <- (@first_before_iff dat q p Hs Hbs E) by lia.
      destruct (q <=? p)%nat eqn:E1, (q <? S p)%nat eqn:E2; try reflexivity.
      + apply Nat.leb_le in E1. apply Nat.ltb_ge in E2. lia.
      + apply Nat.leb_gt in E1. apply Nat.ltb_lt in E2. lia. }
  split; [exact Hmain |].
  rewrite Hmain.
  pose proof (filter_length_le (fun t => time_leb t tp) U). lia.
Qed.

Lemma risk_count_counts_witness :
  boolean_status (with_index scenario_obs) /\
  (8 < length scenario_obs)%nat /\
  nth 8 (_risk_count (preprocess (with_index scenario_obs))) 0%Z = 3%Z.
Proof.
  split; [reflexivity |]. split; [vm_compute; lia |].
  assert (H8 : (8 < length scenario_obs)%nat) by (vm_compute; lia).
  destruct (@risk_count_counts scenario_obs 8 eq_refl H8) as [H _].
  rewrite H. vm_compute. reflexivity.
Defined.

(** ** Only the order of the event times matters *)

Section MapSort.
Context {A B : Type} (g : A -> B).
Variable lebA : A -> A -> bool.
Variable lebB : B -> B -> bool.
Hypothesis leb_g : forall a b, lebB (g a) (g b) = lebA a b.

Lemma insert_sorted_map (x : A) (l : list A) :
  insert_sorted lebB (g x) (map g l) = map g (insert_sorted lebA x l).
Proof.
  induction l as [| y l IH]; simpl; [reflexivity |].
  rewrite leb_g. destruct (lebA x y); simpl; [reflexivity |].
  rewrite IH. reflexivity.
Qed.

Lemma stable_sort_map (l : list A) :
  stable_sort lebB (map g l) = map g (stable_sort lebA l).
Proof.
  induction l as [| x l IH]; simpl; [reflexivity |].
  rewrite IH. apply insert_sorted_map.
Qed.
End MapSort.

Section Retime.
Variable f : ftime -> ftime.
Hypothesis f_order : order_preserving f.

Lemma retime_eqb (a b : ftime) : time_eqb (f a) (f b) = time_eqb a b.
Proof. unfold time_eqb. rewrite !f_order. reflexivity. Qed.

Lemma retime_row_leb (a b : Row) :
  row_leb (retime_row f a) (retime_row f b) = row_leb a b.
Proof.
  unfold row_leb, time_ltb. simpl. rewrite retime_eqb, !f_order.
  reflexivity.
Qed.

Lemma with_index_retime (obs : list (ftime * Z * Z)) :
  with_index (map (retime f) obs) = map (retime_row f) (with_index obs).
Proof.
  unfold with_index. rewrite length_map.
  rewrite (combine_map_r (retime f)), !map_map. reflexivity.
Qed.

Lemma sort_values_retime (df : list Row) :
  sort_values (map (retime_row f) df) = map (retime_row f) (sort_values df).
Proof. unfold sort_values. apply stable_sort_map. apply retime_row_leb. Qed.

Lemma runs_retime (l : list (ftime * nat)) :
  runs (map (fun p => (f (fst p), snd p)) l)
  = map (fun e => (f (fst (fst e)), snd (fst e), snd e)) (runs l).
Proof.
  induction l as [| [t i] l IH]; [reflexivity |].
  cbn [map runs fst snd]. rewrite IH.
  destruct (runs l) as [| [[t' i'] c] rest]; [reflexivity |].
  cbn [map fst snd]. rewrite retime_eqb.
  destruct (time_eqb t t'); reflexivity.
Qed.

Lemma combine_map_l {X Y Z : Type} (h : X -> Z) (xs : list X) (ys : list Y) :
  combine (map h xs) ys = map (fun p => (h (fst p), snd p)) (combine xs ys).
Proof.
  revert ys. induction xs as [| x xs IH]; intros [| y ys]; simpl;
    try reflexivity.
  rewrite IH. reflexivity.
Qed.

Lemma np_unique_retime (times : list ftime) :
  np_unique (map f times)
  = map (fun e => (f (fst (fst e)), snd (fst e), snd e)) (np_unique times).
Proof.
  unfold np_unique. rewrite length_map, combine_map_l.
  rewrite (@stable_sort_map _ _ (fun p : ftime * nat => (f (fst p), snd p))
             (fun a b => time_leb (fst a) (fst b))
             (fun a b => time_leb (fst a) (fst b))).
  - apply runs_retime.
  - intros a b. simpl. apply f_order.
Qed.

Lemma mask_retime (t : ftime) (times : list ftime) :
  map (fun x => time_eqb x (f t)) (map f times)
  = map (fun x => time_eqb x t) times.
Proof.
  rewrite map_map. apply map_ext. intros x. apply retime_eqb.
Qed.

Lemma fid_retime (times : list ftime) (ix : list nat) :
  fst (_fid (map f times) ix) = fst (_fid times ix) /\
  map snd (snd (_fid (map f times) ix)) = map snd (snd (_fid times ix)).
Proof.
  unfold _fid. cbn [fst snd]. rewrite np_unique_retime. split.
  - rewrite map_map. reflexivity.
  - rewrite flat_map_map, !map_flat_map.
    apply flat_map_ext. intros [[t i] c]. cbn [fst snd].
    rewrite mask_retime.
    destruct (1 <? c)%nat; reflexivity.
Qed.

Lemma uniq_from_retime (p : ftime) (l : list ftime) :
  uniq_from (f p) (map f l) = map f (uniq_from p l).
Proof.
  revert p. induction l as [| y l IH]; intros p; simpl; [reflexivity |].
  rewrite retime_eqb. destruct (time_eqb p y); simpl; rewrite IH; reflexivity.
Qed.

Lemma uniq_retime (l : list ftime) : uniq (map f l) = map f (uniq l).
Proof.
  destruct l as [| x l]; simpl; [reflexivity |].
  rewrite uniq_from_retime. reflexivity.
Qed.

Lemma groupby_sum_retime (rows : list Row) :
  map snd (groupby_sum (map (retime_row f) rows))
  = map snd (groupby_sum rows).
Proof.
  unfold groupby_sum. rewrite !map_map. cbn [snd].
  replace (map (fun x : Row => event_time (retime_row f x)) rows)
    with (map f (map event_time rows))
    by (rewrite map_map; reflexivity).
  rewrite (@stable_sort_map _ _ f time_leb time_leb f_order).
  rewrite uniq_retime, map_map.
  apply map_ext. intros t. f_equal.
  rewrite filter_map_comm, map_map. cbn [sample_weight retime_row].
  f_equal. apply filter_ext. intros r. cbn [event_time retime_row].
  apply retime_eqb.
Qed.

Lemma preprocess_retime (df : list Row) :
  let s := preprocess df in
  let s' := preprocess (map (retime_row f) df) in
  data s' = map (retime_row f) (data s) /\
  _derived_weight s' = _derived_weight s /\
  _derived_events s' = _derived_events s /\
  _risk_count s' = _risk_count s /\
  _order s' = _order s /\
  _loglik_sat s' = _loglik_sat s.
Proof.
  cbv zeta. unfold preprocess. cbn [data _derived_weight _derived_events
                                    _risk_count _order _loglik_sat].
  rewrite sort_values_retime.
  set (dat := sort_values df).
  assert (Hmask : events_mask (map (retime_row f) dat) = events_mask dat).
  { unfold events_mask. rewrite map_map. reflexivity. }
  assert (Hfid : fst (fid_of (map (retime_row f) dat)) = fst (fid_of dat) /\
                 map snd (snd (fid_of (map (retime_row f) dat)))
                 = map snd (snd (fid_of dat))).
  { unfold fid_of. rewrite Hmask, length_map.
    rewrite mask_select_map_comm, map_map.
    replace (map (fun x : Row => event_time (retime_row f x))
                 (mask_select (events_mask dat) dat))
      with (map f (map event_time (mask_select (events_mask dat) dat)))
      by (rewrite map_map; reflexivity).
    apply fid_retime. }
  destruct Hfid as [Hf1 Hf2].
  assert (Hws : map snd (weight_sum_of (map (retime_row f) dat))
                = map snd (weight_sum_of dat)).
  { unfold weight_sum_of. rewrite Hmask, mask_select_map_comm.
    apply groupby_sum_retime. }
  assert (Hw : map sample_weight (map (retime_row f) dat)
               = map sample_weight dat)
    by (rewrite map_map; reflexivity).
  assert (Hst : map status (map (retime_row f) dat) = map status dat)
    by (rewrite map_map; reflexivity).
  assert (Hix : map index (map (retime_row f) dat) = map index dat)
    by (rewrite map_map; reflexivity).
  rewrite Hf1, Hf2, Hws, Hw, Hst, Hix.
  repeat split.
Qed.
End Retime.

Lemma call_ext (s s' : right_censored) :
  map sample_weight (data s') = map sample_weight (data s) ->
  map status (data s') = map status (data s) ->
  _derived_weight s' = _derived_weight s ->
  _derived_events s' = _derived_events s ->
  _risk_count s' = _risk_count s ->
  _order s' = _order s ->
  _loglik_sat s' = _loglik_sat s ->
  forall lp gradient hessian,
    call s' lp gradient hessian = call s lp gradient hessian.
Proof.
  intros Hw Hd H1 H2 H3 H4 H5 lp gradient hessian.
  assert (Hww : w s' = w s).
  { unfold w. rewrite <- (map_map sample_weight IZR (data s')).
    rewrite Hw, map_map. reflexivity. }
  unfold call, finish, derivatives, grad_sorted, hess_sorted, loglik,
    log_terms, rskdeninv, rskdeninv2, rskden, _derived_w, d.
  rewrite Hww, Hd, H1, H2, H3, H4, H5. reflexivity.
Qed.

(** X8. A call never looks at the event times themselves, only at their
    order: when every time is passed through one map that keeps the order
    (a change of unit or of origin), all the tables that the constructor
    derives are the same and every call returns the same outcome. *)
Theorem time_order_only (f : ftime -> ftime) (obs : list (ftime * Z * Z)) :
  order_preserving f ->
  let self := preprocess (with_index obs) in
  let self' := preprocess (with_index (map (retime f) obs)) in
  _derived_weight self' = _derived_weight self /\
  _derived_events self' = _derived_events self /\
  _risk_count self' = _risk_count self /\
  _order self' = _order self /\
  _loglik_sat self' = _loglik_sat self /\
  forall lp gradient hessian,
    call self' lp gradient hessian = call self lp gradient hessian.
Proof.
  intros Hf self self'.
  unfold self'. rewrite (with_index_retime f).
  destruct (preprocess_retime Hf (with_index obs))
    as (H0 & H1 & H2 & H3 & H4 & H5).
  fold self in H0, H1, H2, H3, H4, H5.
  repeat (split; [assumption |]).
  apply call_ext; try assumption.
  - rewrite H0, map_map. reflexivity.
  - rewrite H0, map_map. reflexivity.
Qed.

Lemma shift_time_order : order_preserving shift_time.
Proof.
  intros [| x |] [| y |]; simpl; try reflexivity.
  apply eq_true_iff_eq. rewrite !Qle_bool_iff.
  change ((x + 1)%Qc <= (y + 1)%Qc <-> x <= y)%Qc.
  split; intros H.
  - apply (Qcplus_le_compat _ _ (-(1)) (-(1))) in H; [| apply Qcle_refl].
    ring_simplify in H. exact H.
  - apply Qcplus_le_compat; [exact H | apply Qcle_refl].
Qed.

Lemma time_order_only_witness :
  order_preserving shift_time /\
  call (preprocess (with_index (map (retime shift_time) scenario_obs)))
       scenario_lp true true
  = call (preprocess (with_index scenario_obs)) scenario_lp true true.
Proof.
  split; [exact shift_time_order |].
  apply (@time_order_only shift_time scenario_obs shift_time_order).
Defined.

(** ** The outcome of a call, case by case *)

(** X16. Which exception a call ends in.  A predictor shorter than [n] raises
    IndexError at the gather of line 63, whatever is requested and
    whatever the statuses are.  With a predictor that is long enough, a
    call that asks for neither output raises UnboundLocalError at the
    return statement; for 0/1 status, leaving out only the gradient
    raises TypeError (it doubles [None]), leaving out only the Hessian
    raises UnboundLocalError, and asking for both succeeds. *)
Theorem call_outcomes (obs : list (ftime * Z * Z)) (lp : list R) :
  let self := preprocess (with_index obs) in
  ((length lp < length obs)%nat ->
   forall gradient hessian, call self lp gradient hessian = inl IndexError) /\
  ((length obs <= length lp)%nat ->
   call self lp false false = inl UnboundLocalError) /\
  ((length obs <= length lp)%nat -> boolean_status (with_index obs) ->
   call self lp false true = inl TypeError /\
   call self lp true false = inl UnboundLocalError /\
   exists res, call self lp true true = inr res).
Proof.
  intros self. split; [| split].
  - intros Hshort gradient hessian. unfold call, self.
    rewrite take_order_raises by exact Hshort. reflexivity.
  - intros Hlong. unfold call, self.
    rewrite take_order_ok by exact Hlong. reflexivity.
  - intros Hlong Hb.
    destruct (partial_request_exceptions obs lp Hb Hlong) as (H1 & H2 & _).
    split; [exact H1 |]. split; [exact H2 |].
    eexists. apply call_ok; assumption.
Qed.

Lemma call_outcomes_witness :
  (length [1%R] < length scenario_obs)%nat /\
  (forall gradient hessian,
     call (preprocess (with_index scenario_obs)) [1%R] gradient hessian
     = inl IndexError) /\
  (length scenario_obs <= length scenario_lp)%nat /\
  boolean_status (with_index scenario_obs) /\
  call (preprocess (with_index scenario_obs)) scenario_lp false true
  = inl TypeError.
Proof.
  assert (H1 : (length [1%R] < length scenario_obs)%nat) by (vm_compute; lia).
  assert (H2 : (length scenario_obs <= length scenario_lp)%nat)
    by (vm_compute; lia).
  split; [exact H1 |].
  split; [apply (proj1 (call_outcomes scenario_obs [1%R])); exact H1 |].
  split; [exact H2 |]. split; [reflexivity |].
  apply (proj2 (proj2 (call_outcomes scenario_obs scenario_lp)) H2 eq_refl).
Defined.

(** ** The saturated log-likelihood of a constructed preprocessor *)

Lemma sumZ_ones (l : list (ftime * Z * Z)) :
  (forall o, In o l -> snd o = 1%Z) ->
  sumZ (map snd l) = Z.of_nat (length l).
Proof.
  induction l as [| o l IH]; intros H; [reflexivity |].
  cbn [map sumZ fold_right length].
  fold (sumZ (map snd l)). rewrite IH by (intros; apply H; right; assumption).
  rewrite (H o) by (left; reflexivity). lia.
Qed.

Lemma obs_event_count (obs : list (ftime * Z * Z)) (t : ftime) :
  length (filter (obs_event t) obs)
  = length (filter (fun x => time_eqb x t)
                   (map (fun o : ftime * Z * Z => fst (fst o))
                        (filter (fun o => (snd (fst o) =? 1)%Z) obs))).
Proof.
  induction obs as [| o obs IH]; [reflexivity |].
  unfold obs_event in *. simpl.
  destruct (snd (fst o) =? 1)%Z; simpl; [| exact IH].
  destruct (time_eqb (fst (fst o)) t); simpl; rewrite IH; reflexivity.
Qed.

(** X7. For every preprocessor that the constructor builds (all weights 1)
    the saturated log-likelihood is minus the sum of [c * log c] over the
    distinct event times, [c] being the number of events at that time; it
    is never positive, and it is zero when no two events share a time. *)
Theorem saturated_loglik_counts (et : list ftime) (st : list Z)
        (self : right_censored) :
  post_init et st None = inr self ->
  let obs := unit_obs et st in
  let U := distinct (map (fun o : ftime * Z * Z => fst (fst o))
                         (filter (fun o => (snd (fst o) =? 1)%Z) obs)) in
  let c := fun t => INR (length (filter (obs_event t) obs)) in
  _loglik_sat self = (- sum_over U (fun t => c t * ln (c t)))%R /\
  (_loglik_sat self <= 0)%R /\
  (NoDup (map (fun o : ftime * Z * Z => fst (fst o))
              (filter (fun o => (snd (fst o) =? 1)%Z) obs)) ->
   _loglik_sat self = 0%R).
Proof.
  intros Hpost obs U c.
  rewrite post_init_unit in Hpost.
  destruct (length et =? length st)%nat; [| discriminate].
  injection Hpost as <-. fold obs.
  rewrite loglik_sat_obs.
  assert (Hagg : forall t, obs_agg obs t
                           = Z.of_nat (length (filter (obs_event t) obs))).
  { intros t. unfold obs_agg. apply sumZ_ones. intros o Ho.
    apply filter_In in Ho. destruct Ho as [Ho _].
    apply (unit_obs_weight et st). exact Ho. }
  assert (Hmember : forall t, In t U ->
                      (1 <= length (filter (obs_event t) obs))%nat).
  { intros t Ht. unfold U in Ht. apply (proj1 (distinct_In t _)) in Ht.
    apply in_map_iff in Ht. destruct Ht as [o [Hot Ho]].
    apply filter_In in Ho. destruct Ho as [Ho Hs].
    apply (filter_nonempty (obs_event t) obs o Ho).
    unfold obs_event. rewrite Hs, Hot. apply time_eqb_refl. }
  assert (Hform : saturated_obs obs
                  = (- sum_over U (fun t => c t * ln (c t)))%R).
  { unfold saturated_obs. fold U. f_equal.
    apply sum_over_ext. intros t Ht. cbv zeta.
    rewrite Hagg. pose proof (Hmember t Ht) as H1.
    replace (0 <? Z.of_nat (length (filter (obs_event t) obs)))%Z with true
      by (symmetry; apply Z.ltb_lt; lia).
    unfold c. rewrite <- INR_IZR_INZ. reflexivity. }
  split; [exact Hform |]. split.
  - rewrite Hform.
    assert (H0 : (0 <= sum_over U (fun t => c t * ln (c t)))%R); [| lra].
    apply sum_over_nonneg. intros t Ht.
    pose proof (Hmember t Ht) as H1.
    assert (Hc : (1 <= c t)%R).
    { unfold c. change 1%R with (INR 1). apply le_INR. exact H1. }
    apply Rmult_le_pos; [lra |].
    destruct Hc as [Hc | Hc].
    + left. rewrite <- ln_1. apply ln_increasing; lra.
    + rewrite <- Hc, ln_1. apply Rle_refl.
  - intros Hnd. rewrite Hform.
    rewrite sum_over_zero; [ring |].
    intros t Ht. pose proof (Hmember t Ht) as H1.
    assert (H2 : (length (filter (obs_event t) obs) <= 1)%nat).
    { rewrite obs_event_count. apply NoDup_count. exact Hnd. }
    unfold c. replace (length (filter (obs_event t) obs)) with 1%nat by lia.
    simpl. rewrite ln_1. ring.
Qed.

Lemma saturated_loglik_counts_witness :
  post_init scenario_time scenario_status None
  = inr (preprocess (with_index scenario_obs)) /\
  (_loglik_sat (preprocess (with_index scenario_obs)) <= 0)%R.
Proof.
  split; [reflexivity |].
  destruct (@saturated_loglik_counts scenario_time scenario_status _ eq_refl)
    as (_ & H & _).
  exact H.
Defined.

